(** * pdfme: the text layout engine of [pdfme/text.py] and its entry point in
    [pdfme/pdf.py]

    A shallow embedding of the classes [PDFState], [PDFTextLinePart],
    [PDFTextLine], [PDFTextBase] and [PDFText], and of [PDF.create_text].

    Conventions of the embedding.
    - Python numbers are exact rationals ([Q]); [==] on numbers is [Qeq].
      Floating point rounding is not modelled.
    - A method that mutates [self] takes the object and returns the new one.
    - A method that can raise returns a [result]; the state reached when an
      exception escapes is not observable and is not kept.
    - Python strings are [string]; a character is an [ascii] read as a code
      point below 256. *)

From Stdlib Require Import QArith Qround Lqa Ascii String.
From stdpp Require Import gmap strings list fin_maps pretty.

(** ** Exceptions *)

Inductive exn :=
  TypeError | KeyError | IndexError | AttributeError | ValueError | Exception.

Inductive result (A : Type) : Type :=
| Ok (a : A)
| Raise (e : exn).
Arguments Ok {A} a.
Arguments Raise {A} e.

#[global] Instance result_ret : MRet result := fun A a => Ok a.
#[global] Instance result_bind : MBind result := fun A B k m =>
  match m with Ok a => k a | Raise e => Raise e end.
#[global] Instance result_fmap : FMap result := fun A B k m =>
  match m with Ok a => Ok (k a) | Raise e => Raise e end.

(** [d[k]] on a dictionary read as an option: a missing key raises. *)
Definition subscript {A} (o : option A) : result A :=
  match o with Some a => Ok a | None => Raise KeyError end.

(** ** Numbers *)

Definition Qltb (x y : Q) : bool := negb (Qle_bool y x).
Definition Qneb (x y : Q) : bool := negb (Qeq_bool x y).

(** [round(x)] on an exact number: to the nearest integer, ties to even. *)
Definition round_half_even (x : Q) : Z :=
  let n := Qfloor x in
  let d := (x - inject_Z n)%Q in
  if Qltb d (1 # 2) then n
  else if Qltb (1 # 2) d then (n + 1)%Z
  else if Z.even n then n else (n + 1)%Z.

(** [round(x, 3)]. *)
Definition round3 (x : Q) : Q :=
  (inject_Z (round_half_even (x * 1000)) / 1000)%Q.

(** ** Python values that reach the engine untyped *)

#[local] Set Warnings "-register-all".
Inductive pyval :=
| VNone
| VBool (b : bool)
| VNum (q : Q)
| VStr (s : string)
| VList (l : list pyval)
| VDict (d : list (string * pyval)).

(** ** Style dictionaries

    A style is a dictionary over the keys [f b i s c r u bg]; a field is
    [None] when the key is absent. The colour entries keep the raw value
    that is handed to [PDFColor]. *)

Module Style.

Record t := mk {
  f : option string;
  b : option bool;
  i : option bool;
  s : option Q;
  c : option pyval;
  r : option Q;
  u : option bool;
  bg : option pyval
}.

Definition empty : t := mk None None None None None None None None.

Definition over {A} (new old : option A) : option A :=
  match new with Some _ => new | None => old end.

(** [self.update(other)] *)
Definition update (self other : t) : t :=
  {| f := over (f other) (f self);
     b := over (b other) (b self);
     i := over (i other) (i self);
     s := over (s other) (s self);
     c := over (c other) (c self);
     r := over (r other) (r self);
     u := over (u other) (u self);
     bg := over (bg other) (bg self) |}.

End Style.

(** [TEXT_DEFAULTS = {'f': 'Helvetica', 'c': 0.1, 's': 11, 'r': 0, 'bg': None}] *)
Definition TEXT_DEFAULTS : Style.t :=
  {| Style.f := Some "Helvetica"%string;
     Style.b := None;
     Style.i := None;
     Style.s := Some 11%Q;
     Style.c := Some (VNum (1 # 10));
     Style.r := Some 0%Q;
     Style.u := None;
     Style.bg := Some VNone |}.

(** [PARAGRAPH_DEFAULTS] *)
Module PARAGRAPH_DEFAULTS.
Definition height : Q := 200.
Definition width : Q := 200.
Definition text_align : string := "l".
Definition line_height : Q := 11 # 10.
Definition indent : Q := 0.
End PARAGRAPH_DEFAULTS.

(** ** Font tables

    [fonts[family][mode]] is [{'ref': .., 'base_font': .., 'widths': ..}];
    [widths] maps a character to its advance in 1/1000 em. *)

Record FontEntry := mkFontEntry {
  ref : string;
  base_font : string;
  widths : gmap ascii Q
}.

Abbreviation fonts_t := (gmap string (gmap string FontEntry)).

(** ** What the engine imports from modules outside these sources

    [pdfme/color.py] and [pdfme/utils.py] are not part of the sources at
    hand, and number formatting is Python's own; the engine is
    parametrised by them. *)

Class Externals := {
  (** instances of [PDFColor] *)
  PDFColor : Type;
  (** [PDFColor(v)] *)
  PDFColor_of : pyval -> PDFColor;
  (** [PDFColor(c, True)], the stroke version of a colour *)
  PDFColor_stroke : PDFColor -> PDFColor;
  (** [a != b], where [b] may be [None] *)
  color_ne : PDFColor -> option PDFColor -> bool;
  (** [c.color is None] *)
  color_is_none : PDFColor -> bool;
  (** [str(c)] *)
  color_str : PDFColor -> string;
  (** ['{}'.format(n)] for a number [n] *)
  str_num : Q -> string;
  (** [parse_style_str(s, fonts)] *)
  parse_style_str : string -> fonts_t -> result Style.t;
  (** [process_style(v, pdf)], [has_pdf] telling whether [pdf] is set *)
  process_style : option pyval -> bool -> result Style.t
}.

(** Modelled from the spec: [utils.default], which is not among the sources;
    [default(value, fallback)] is [fallback] when [value] is [None]. *)
Definition default {A} (value : option A) (fallback : A) : A :=
  match value with Some v => v | None => fallback end.

(** ** [class PDFState] *)

Module PDFState.
Section defs.
Context `{Externals}.

Record t := mk {
  fonts : fonts_t;
  font_family : string;
  font_mode : string;
  size : Q;
  color : PDFColor;
  rise : Q
}.

(** [PDFState.__init__(style, fonts)] *)
Definition init (style : Style.t) (fonts : fonts_t) : result t :=
  font_family ← subscript (Style.f style);
  let f_mode := ((if default (Style.b style) false then "b" else "") +:+
                 (if default (Style.i style) false then "i" else ""))%string in
  let f_mode := if String.eqb f_mode "" then "n"%string else f_mode in
  family ← subscript (fonts !! font_family);
  let font_mode :=
    match family !! f_mode with Some _ => f_mode | None => "n"%string end in
  size ← subscript (Style.s style);
  c ← subscript (Style.c style);
  Ok {| fonts := fonts;
        font_family := font_family;
        font_mode := font_mode;
        size := size;
        color := PDFColor_of c;
        rise := (default (Style.r style) 0 * size)%Q |}.

(** The three directives [compare] can emit. *)
Inductive directive :=
| Tf (font_ref : string) (sz : Q)
| Col (c : PDFColor)
| Ts (rs : Q).

Definition render (d : directive) : string :=
  match d with
  | Tf font_ref sz => " /" +:+ font_ref +:+ " " +:+ str_num (round3 sz) +:+ " Tf"
  | Col c => " " +:+ color_str c
  | Ts rs => " " +:+ str_num (round3 rs) +:+ " Ts"
  end.

Definition render_all (ds : list directive) : string :=
  foldr (fun d acc => render d +:+ acc) ""%string ds.

(** [other is None or self.font_family != other.font_family or
     self.font_mode != other.font_mode or self.size != other.size] *)
Definition font_differs (self : t) (other : option t) : bool :=
  match other with
  | None => true
  | Some o =>
      negb (String.eqb (font_family self) (font_family o))
      || negb (String.eqb (font_mode self) (font_mode o))
      || Qneb (size self) (size o)
  end.

(** [other is None or self.color != other.color] *)
Definition color_differs (self : t) (other : option t) : bool :=
  match other with
  | None => true
  | Some o => color_ne (color self) (Some (color o))
  end.

(** [other is None or self.rise != other.rise] *)
Definition rise_differs (self : t) (other : option t) : bool :=
  match other with
  | None => true
  | Some o => Qneb (rise self) (rise o)
  end.

(** [self.fonts[self.font_family][self.font_mode]['ref']] *)
Definition font_ref (self : t) : result string :=
  family ← subscript (fonts self !! font_family self);
  entry ← subscript (family !! font_mode self);
  Ok (ref entry).

(** The directives [compare] appends to [ret_value], in order. *)
Definition compare_directives (self : t) (other : option t)
  : result (list directive) :=
  d_font ← (if font_differs self other
            then r ← font_ref self; Ok [Tf r (size self)]
            else Ok []);
  let d_color := if color_differs self other then [Col (color self)] else [] in
  let d_rise := if rise_differs self other then [Ts (rise self)] else [] in
  Ok (d_font ++ d_color ++ d_rise).

(** [PDFState.compare(other)] *)
Definition compare (self : t) (other : option t) : result string :=
  render_all <$> compare_directives self other.


End defs.
End PDFState.

(** ** Helpers for Python lists *)

(** [l[:-1]] and [l[-1]] of a non-empty list. *)
Fixpoint split_last {A} (l : list A) : option (list A * A) :=
  match l with
  | [] => None
  | x :: l' =>
      match split_last l' with
      | None => Some ([], x)
      | Some (front, y) => Some (x :: front, y)
      end
  end.

(** [l.pop(index)] for an integer index, negative ones counting from the
    end; out of range raises [IndexError]. *)
Definition list_pop {A} (l : list A) (index : Z) : result (A * list A) :=
  let n := Z.of_nat (length l) in
  let k := if (index <? 0)%Z then (index + n)%Z else index in
  if ((k <? 0) || (n <=? k))%Z then Raise IndexError
  else
    match l !! Z.to_nat k with
    | Some x => Ok (x, take (Z.to_nat k) l ++ drop (S (Z.to_nat k)) l)
    | None => Raise IndexError
    end.

(** ** [class PDFTextLinePart] *)

Module PDFTextLinePart.
Section defs.
Context `{Externals}.

Record t := mk {
  fonts : fonts_t;
  style : Style.t;
  state : PDFState.t;
  underline : bool;
  background : PDFColor;
  ids : option (list string);
  width : Q;
  words : list string;
  space_width : Q;
  spaces_width : Q
}.

(** [self.state.size * ws[char] / 1000] with
    [ws = self.fonts[family][mode]['widths']] *)
Definition char_width (fonts : fonts_t) (state : PDFState.t) (char : ascii)
  : result Q :=
  family ← subscript (fonts !! PDFState.font_family state);
  entry ← subscript (family !! PDFState.font_mode state);
  w ← subscript (widths entry !! char);
  Ok (PDFState.size state * w / 1000)%Q.

(** [get_char_width(char)] *)
Definition get_char_width (self : t) (char : ascii) : result Q :=
  char_width (fonts self) (state self) char.

(** [sum(...)] over the characters of a word, from [acc]. *)
Fixpoint sum_widths (self : t) (acc : Q) (word : string) : result Q :=
  match word with
  | EmptyString => Ok acc
  | String char rest =>
      w ← get_char_width self char;
      sum_widths self (acc + w)%Q rest
  end.

(** [get_word_width(word)] *)
Definition get_word_width (self : t) (word : string) : result Q :=
  sum_widths self 0%Q word.

(** [PDFTextLinePart.__init__(style, fonts, ids)]; the test [id is None]
    of the source is on the builtin [id] and never holds, so [self.ids] is
    [ids] as given *)
Definition init (style : Style.t) (fonts : fonts_t) (ids : option (list string))
  : result t :=
  state ← PDFState.init style fonts;
  space_width ← char_width fonts state " "%char;
  Ok {| fonts := fonts;
        style := style;
        state := state;
        underline := default (Style.u style) false;
        background := PDFColor_of (default (Style.bg style) VNone);
        ids := ids;
        width := 0;
        words := [];
        space_width := space_width;
        spaces_width := 0 |}.

Definition set_words (self : t) (ws : list string) : t :=
  mk (fonts self) (style self) (state self) (underline self) (background self)
     (ids self) (width self) ws (space_width self) (spaces_width self).
Definition set_width (self : t) (w : Q) : t :=
  mk (fonts self) (style self) (state self) (underline self) (background self)
     (ids self) w (words self) (space_width self) (spaces_width self).
Definition set_spaces_width (self : t) (w : Q) : t :=
  mk (fonts self) (style self) (state self) (underline self) (background self)
     (ids self) (width self) (words self) (space_width self) w.

(** [pop_word(index)]: the popped word, or [None] when there is no word *)
Definition pop_word (self : t) (index : option Z) : result (option string * t) :=
  match words self with
  | [] => Ok (None, self)
  | _ :: _ =>
      '(word, rest) ← list_pop (words self) (default index (-1)%Z);
      let self := set_words self rest in
      if String.eqb word " " then
        Ok (Some word,
            set_spaces_width self (spaces_width self - space_width self)%Q)
      else
        w ← get_word_width self word;
        Ok (Some word, set_width self (width self - w)%Q)
  end.

(** [add_word(word)] *)
Definition add_word (self : t) (word : string) : result t :=
  let self := set_words self (words self ++ [word]) in
  if String.eqb word " " then
    Ok (set_spaces_width self (spaces_width self + space_width self)%Q)
  else
    w ← get_word_width self word;
    Ok (set_width self (width self + w)%Q).

(** [current_width(factor)] *)
Definition current_width (self : t) (factor : Q) : Q :=
  (width self + spaces_width self * factor)%Q.

(** [tentative_width(word, factor)] *)
Definition tentative_width (self : t) (word : string) (factor : Q) : result Q :=
  word_width ← (if String.eqb word " " then Ok (space_width self * factor)%Q
                else get_word_width self word);
  Ok (current_width self factor + word_width)%Q.

End defs.
End PDFTextLinePart.

(** ** [class PDFTextLine]

    [next_line] is the pending buffer: a line of its own that collects the
    words read since the last accepted space. *)

Module PDFTextLine.
Section defs.
Context `{Externals}.

Inductive t := mk {
  fonts : fonts_t;
  max_width : Q;
  line_parts : list PDFTextLinePart.t;
  justify_min_factor : Q;
  text_align : string;
  line_height : Q;
  top_margin : Q;
  next_line : option t;
  is_last_word_space : bool;
  firstWordAdded : bool;
  started : bool
}.

(** [PDFTextLine.__init__(fonts, max_width, text_align, line_height,
    top_margin)] *)
Definition init (fonts : fonts_t) (max_width : Q) (text_align : option string)
    (line_height : option Q) (top_margin : Q) : t :=
  {| fonts := fonts;
     max_width := max_width;
     line_parts := [];
     justify_min_factor := 7 # 10;
     text_align := default text_align PARAGRAPH_DEFAULTS.text_align;
     line_height := default line_height PARAGRAPH_DEFAULTS.line_height;
     top_margin := top_margin;
     next_line := None;
     is_last_word_space := true;
     firstWordAdded := false;
     started := false |}.

Definition set_line_parts (self : t) (ps : list PDFTextLinePart.t) : t :=
  mk (fonts self) (max_width self) ps (justify_min_factor self)
     (text_align self) (line_height self) (top_margin self) (next_line self)
     (is_last_word_space self) (firstWordAdded self) (started self).
Definition set_top_margin (self : t) (m : Q) : t :=
  mk (fonts self) (max_width self) (line_parts self) (justify_min_factor self)
     (text_align self) (line_height self) m (next_line self)
     (is_last_word_space self) (firstWordAdded self) (started self).
Definition set_next_line (self : t) (n : option t) : t :=
  mk (fonts self) (max_width self) (line_parts self) (justify_min_factor self)
     (text_align self) (line_height self) (top_margin self) n
     (is_last_word_space self) (firstWordAdded self) (started self).
Definition set_is_last_word_space (self : t) (v : bool) : t :=
  mk (fonts self) (max_width self) (line_parts self) (justify_min_factor self)
     (text_align self) (line_height self) (top_margin self) (next_line self)
     v (firstWordAdded self) (started self).
Definition set_firstWordAdded (self : t) (v : bool) : t :=
  mk (fonts self) (max_width self) (line_parts self) (justify_min_factor self)
     (text_align self) (line_height self) (top_margin self) (next_line self)
     (is_last_word_space self) v (started self).
Definition set_started (self : t) (v : bool) : t :=
  mk (fonts self) (max_width self) (line_parts self) (justify_min_factor self)
     (text_align self) (line_height self) (top_margin self) (next_line self)
     (is_last_word_space self) (firstWordAdded self) v.

(** The loop of the [height] property: the largest positive rise and the
    largest size over the parts. *)
Fixpoint height_loop (parts : list PDFTextLinePart.t) (top height_ : Q) : Q * Q :=
  match parts with
  | [] => (top, height_)
  | part :: rest =>
      let st := PDFTextLinePart.state part in
      let top := if Qltb 0 (PDFState.rise st) && Qltb top (PDFState.rise st)
                 then PDFState.rise st else top in
      let height_ := if Qltb height_ (PDFState.size st)
                     then PDFState.size st else height_ in
      height_loop rest top height_
  end.

(** [height] *)
Definition height (self : t) : Q :=
  let '(top, height_) := height_loop (line_parts self) 0 0 in
  (height_ + top_margin self + top)%Q.

(** [factor] *)
Definition factor (self : t) : Q :=
  if negb (String.eqb (text_align self) "j") then 1%Q
  else justify_min_factor self.

(** The loop of [get_widths]. *)
Fixpoint widths_loop (parts : list PDFTextLinePart.t) (words_width spaces_width : Q)
  : Q * Q :=
  match parts with
  | [] => (words_width, spaces_width)
  | part :: rest =>
      widths_loop rest (words_width + PDFTextLinePart.width part)%Q
                       (spaces_width + PDFTextLinePart.spaces_width part)%Q
  end.

(** [get_widths()] *)
Definition get_widths (self : t) : Q * Q :=
  widths_loop (line_parts self) 0 0.

(** [min_width] *)
Definition min_width (self : t) : Q :=
  let ws := get_widths self in
  (ws.1 + ws.2 * factor self)%Q.

(** The loop of [bottom]. *)
Fixpoint bottom_loop (parts : list PDFTextLinePart.t) (bottom : Q) : Q :=
  match parts with
  | [] => bottom
  | part :: rest =>
      let rise := PDFState.rise (PDFTextLinePart.state part) in
      bottom_loop rest
        (if Qltb rise 0 && Qltb bottom (- rise) then (- rise)%Q else bottom)
  end.

(** [bottom] *)
Definition bottom (self : t) : Q := bottom_loop (line_parts self) 0.

(** [add_line_part(style, ids)]: the new part goes to the pending buffer,
    which is created on first use with this line's own [max_width] *)
Definition add_line_part (self : t) (style : Style.t) (ids : option (list string))
  : result (PDFTextLinePart.t * t) :=
  let next :=
    match next_line self with
    | None => init (fonts self) (max_width self) (Some (text_align self))
                   (Some (line_height self)) 0
    | Some n => n
    end in
  line_part ← PDFTextLinePart.init style (fonts self) ids;
  let next := set_line_parts next (line_parts next ++ [line_part]) in
  Ok (line_part, set_next_line self (Some next)).

(** [add_accumulated()]: the pending parts join the line, a space is added
    to the last of them, and the buffer restarts with one empty part of the
    same style *)
Definition add_accumulated (self : t) : result t :=
  match next_line self with
  | None => Raise AttributeError
  | Some next =>
      match split_last (line_parts self ++ line_parts next) with
      | None => Raise IndexError
      | Some (front, last_part) =>
          last_part ← PDFTextLinePart.add_word last_part " ";
          fresh ← PDFTextLinePart.init (PDFTextLinePart.style last_part)
                     (fonts self) (PDFTextLinePart.ids last_part);
          Ok (set_next_line (set_line_parts self (front ++ [last_part]))
                            (Some (set_line_parts next [fresh])))
      end
  end.

Inductive status :=
| added
| ignored
| preadded
| finished (new_line : t).

(** [word.isspace()] *)
Definition isspace_char (ch : ascii) : bool :=
  let n := nat_of_ascii ch in
  ((9 <=? n) && (n <=? 13) || (28 <=? n) && (n <=? 32)
   || (n =? 133) || (n =? 160))%nat.

Fixpoint all_space (word : string) : bool :=
  match word with
  | EmptyString => true
  | String ch rest => isspace_char ch && all_space rest
  end.

Definition isspace (word : string) : bool :=
  match word with
  | EmptyString => false
  | String _ _ => all_space word
  end.

(** The pending buffer with [word] added to its last part:
    [self.next_line.line_parts[-1].add_word(word)] *)
Definition pend_word (next : t) (word : string) : result t :=
  match split_last (line_parts next) with
  | None => Raise IndexError
  | Some (front, last_part) =>
      last_part ← PDFTextLinePart.add_word last_part word;
      Ok (set_line_parts next (front ++ [last_part]))
  end.

(** The [finished] branch of [add_word]: drop a trailing space of the
    line, and hand the pending words over to the buffer of the next line. *)
Definition finish_line (self next : t) (new_width : Q) : result (status * t) :=
  match split_last (line_parts self) with
  | None => Raise IndexError
  | Some (front, last_part) =>
      self ← (match last (PDFTextLinePart.words last_part) with
              | Some w =>
                  if String.eqb w " " then
                    '(_, last_part) ← PDFTextLinePart.pop_word last_part (Some (-1)%Z);
                    Ok (set_line_parts self (front ++ [last_part]))
                  else Ok self
              | None => Ok self
              end);
      let next := set_firstWordAdded next true in
      let next := set_top_margin next (bottom self) in
      let buffer := init (fonts self) new_width (Some (text_align self))
                         (Some (line_height self)) 0 in
      let buffer := set_line_parts buffer (line_parts next) in
      let next := set_line_parts (set_next_line next (Some buffer)) [] in
      Ok (finished next, set_next_line self (Some next))
  end.

(** [add_word(word, new_width)] *)
Definition add_word (self : t) (word : string) (new_width : Q)
  : result (status * t) :=
  match next_line self with
  | None => Raise Exception
  | Some next =>
      if negb (started self) then
        if isspace word then
          if firstWordAdded self then
            self ← add_accumulated (set_started self true);
            Ok (added, self)
          else Ok (ignored, self)
        else
          let self := set_firstWordAdded self true in
          next ← pend_word next word;
          Ok (added, set_next_line self (Some next))
      else
        if isspace word then
          if is_last_word_space self then Ok (ignored, self)
          else
            self ← add_accumulated self;
            Ok (added, self)
        else
          let self := set_is_last_word_space self false in
          next ← pend_word next word;
          let self := set_next_line self (Some next) in
          if Qltb (min_width self + min_width next) (max_width self) then
            Ok (preadded, self)
          else finish_line self next new_width
  end.

End defs.
End PDFTextLine.

(** ** [class PDFTextBase] *)

(** The value under the key ['text'] of a content part. *)
Inductive text_val :=
| TStr (s : string)
| TList (l : list string)
| TOther.

(** A dictionary of [content], by the keys the engine reads. *)
Record part_dict := mkPart {
  p_type : option string;
  p_text : option text_val;
  p_style : option Style.t;
  p_ids : option (list string)
}.

(** An element of [content]. *)
Inductive part :=
| NotDict
| Dict (d : part_dict).

(** The [content] argument of the constructor. *)
Inductive content_arg :=
| CStr (s : string)
| CList (l : list part)
| COther.

(** The [list_style] argument. *)
Inductive list_style_t :=
| LSNone
| LSStr (s : string)
| LSDict (d : Style.t)
| LSOther.

(** A rectangle [[x0, y0, x1, y1]] of the anchor map. *)
Definition box : Type := Q * Q * Q * Q.

(** [re.split('( +)', s)]: the runs of spaces, captured, between the
    pieces they separate; the first and the last piece may be empty. *)
Fixpoint re_split_scan (s piece : string) (in_space : bool) : list string :=
  match s with
  | EmptyString => if in_space then [piece; ""%string] else [piece]
  | String ch rest =>
      if Ascii.eqb ch " " then
        if in_space then re_split_scan rest (piece +:+ " ") true
        else piece :: re_split_scan rest " " true
      else
        if in_space then piece :: re_split_scan rest (String ch "") false
        else re_split_scan rest (piece +:+ String ch "") false
  end.

Definition re_split_spaces (s : string) : list string :=
  re_split_scan s "" false.

(** [[' ' if w.isspace() else w for w in re.split('( +)', words) if w != '']] *)
Definition tokenize (words : string) : list string :=
  map (fun w => if PDFTextLine.isspace w then " "%string else w)
      (filter (fun w => w ≠ ""%string) (re_split_spaces words)).

(** Truth value of an optional string, as in [if self.list_text]. *)
Definition truthy (o : option string) : bool :=
  match o with
  | Some s => negb (String.eqb s "")
  | None => false
  end.

Module PDFTextBase.
Section defs.
Context `{Externals}.

(** An entry of [self.lines]. The list holds references: an entry that is
    the very object [self.current_line] is [Current] and follows its later
    mutations; it is frozen to a value when [current_line] is replaced. *)
Inductive line_ref :=
| Frozen (l : PDFTextLine.t)
| Current.

Record t := mk {
  fonts : fonts_t;
  used_fonts : gset (string * string);
  width : Q;
  height : Q;
  x : Q;
  y : Q;
  indent : Q;
  text_align : string;
  line_height : Q;
  list_text : option string;
  list_indent : option Q;
  list_style : list_style_t;
  last_part_index : nat;
  last_word_index : nat;
  content : list part;
  finished : bool;
  is_first_line : bool;
  correct_indent : bool;
  list_setup_done : bool;
  started : bool;
  lines : list line_ref;
  text : string;
  graphics : string;
  ids : gmap string (list box);
  current_height : Q;
  current_line_used_fonts : gset (string * string);
  current_line : PDFTextLine.t;
  last_indent : Q;
  last_state : option PDFState.t;
  last_factor : option Q;
  last_fill : option PDFColor;
  last_color : option PDFColor;
  last_stroke_width : option Q;
  y_ : Q;
  list_state : option PDFState.t
}.

Definition set_used_fonts (self : t) (v : gset (string * string)) : t :=
  mk (fonts self) v (width self) (height self) (x self) (y self) (indent self)
     (text_align self) (line_height self) (list_text self) (list_indent self)
     (list_style self) (last_part_index self) (last_word_index self)
     (content self) (finished self) (is_first_line self) (correct_indent self)
     (list_setup_done self) (started self) (lines self) (text self)
     (graphics self) (ids self) (current_height self)
     (current_line_used_fonts self) (current_line self) (last_indent self)
     (last_state self) (last_factor self) (last_fill self) (last_color self)
     (last_stroke_width self) (y_ self) (list_state self).
Definition set_list_indent (self : t) (v : option Q) : t :=
  mk (fonts self) (used_fonts self) (width self) (height self) (x self)
     (y self) (indent self) (text_align self) (line_height self)
     (list_text self) v (list_style self) (last_part_index self)
     (last_word_index self) (content self) (finished self)
     (is_first_line self) (correct_indent self) (list_setup_done self)
     (started self) (lines self) (text self) (graphics self) (ids self)
     (current_height self) (current_line_used_fonts self) (current_line self)
     (last_indent self) (last_state self) (last_factor self) (last_fill self)
     (last_color self) (last_stroke_width self) (y_ self) (list_state self).
Definition set_list_style (self : t) (v : list_style_t) : t :=
  mk (fonts self) (used_fonts self) (width self) (height self) (x self)
     (y self) (indent self) (text_align self) (line_height self)
     (list_text self) (list_indent self) v (last_part_index self)
     (last_word_index self) (content self) (finished self)
     (is_first_line self) (correct_indent self) (list_setup_done self)
     (started self) (lines self) (text self) (graphics self) (ids self)
     (current_height self) (current_line_used_fonts self) (current_line self)
     (last_indent self) (last_state self) (last_factor self) (last_fill self)
     (last_color self) (last_stroke_width self) (y_ self) (list_state self).
Definition set_list_state (self : t) (v : option PDFState.t) : t :=
  mk (fonts self) (used_fonts self) (width self) (height self) (x self)
     (y self) (indent self) (text_align self) (line_height self)
     (list_text self) (list_indent self) (list_style self)
     (last_part_index self) (last_word_index self) (content self)
     (finished self) (is_first_line self) (correct_indent self)
     (list_setup_done self) (started self) (lines self) (text self)
     (graphics self) (ids self) (current_height self)
     (current_line_used_fonts self) (current_line self) (last_indent self)
     (last_state self) (last_factor self) (last_fill self) (last_color self)
     (last_stroke_width self) (y_ self) v.
Definition set_last_part_index (self : t) (v : nat) : t :=
  mk (fonts self) (used_fonts self) (width self) (height self) (x self)
     (y self) (indent self) (text_align self) (line_height self)
     (list_text self) (list_indent self) (list_style self) v
     (last_word_index self) (content self) (finished self)
     (is_first_line self) (correct_indent self) (list_setup_done self)
     (started self) (lines self) (text self) (graphics self) (ids self)
     (current_height self) (current_line_used_fonts self) (current_line self)
     (last_indent self) (last_state self) (last_factor self) (last_fill self)
     (last_color self) (last_stroke_width self) (y_ self) (list_state self).
Definition set_last_word_index (self : t) (v : nat) : t :=
  mk (fonts self) (used_fonts self) (width self) (height self) (x self)
     (y self) (indent self) (text_align self) (line_height self)
     (list_text self) (list_indent self) (list_style self)
     (last_part_index self) v (content self) (finished self)
     (is_first_line self) (correct_indent self) (list_setup_done self)
     (started self) (lines self) (text self) (graphics self) (ids self)
     (current_height self) (current_line_used_fonts self) (current_line self)
     (last_indent self) (last_state self) (last_factor self) (last_fill self)
     (last_color self) (last_stroke_width self) (y_ self) (list_state self).
Definition set_content (self : t) (v : list part) : t :=
  mk (fonts self) (used_fonts self) (width self) (height self) (x self)
     (y self) (indent self) (text_align self) (line_height self)
     (list_text self) (list_indent self) (list_style self)
     (last_part_index self) (last_word_index self) v (finished self)
     (is_first_line self) (correct_indent self) (list_setup_done self)
     (started self) (lines self) (text self) (graphics self) (ids self)
     (current_height self) (current_line_used_fonts self) (current_line self)
     (last_indent self) (last_state self) (last_factor self) (last_fill self)
     (last_color self) (last_stroke_width self) (y_ self) (list_state self).
Definition set_finished (self : t) (v : bool) : t :=
  mk (fonts self) (used_fonts self) (width self) (height self) (x self)
     (y self) (indent self) (text_align self) (line_height self)
     (list_text self) (list_indent self) (list_style self)
     (last_part_index self) (last_word_index self) (content self) v
     (is_first_line self) (correct_indent self) (list_setup_done self)
     (started self) (lines self) (text self) (graphics self) (ids self)
     (current_height self) (current_line_used_fonts self) (current_line self)
     (last_indent self) (last_state self) (last_factor self) (last_fill self)
     (last_color self) (last_stroke_width self) (y_ self) (list_state self).
Definition set_is_first_line (self : t) (v : bool) : t :=
  mk (fonts self) (used_fonts self) (width self) (height self) (x self)
     (y self) (indent self) (text_align self) (line_height self)
     (list_text self) (list_indent self) (list_style self)
     (last_part_index self) (last_word_index self) (content self)
     (finished self) v (correct_indent self) (list_setup_done self)
     (started self) (lines self) (text self) (graphics self) (ids self)
     (current_height self) (current_line_used_fonts self) (current_line self)
     (last_indent self) (last_state self) (last_factor self) (last_fill self)
     (last_color self) (last_stroke_width self) (y_ self) (list_state self).
Definition set_correct_indent (self : t) (v : bool) : t :=
  mk (fonts self) (used_fonts self) (width self) (height self) (x self)
     (y self) (indent self) (text_align self) (line_height self)
     (list_text self) (list_indent self) (list_style self)
     (last_part_index self) (last_word_index self) (content self)
     (finished self) (is_first_line self) v (list_setup_done self)
     (started self) (lines self) (text self) (graphics self) (ids self)
     (current_height self) (current_line_used_fonts self) (current_line self)
     (last_indent self) (last_state self) (last_factor self) (last_fill self)
     (last_color self) (last_stroke_width self) (y_ self) (list_state self).
Definition set_list_setup_done (self : t) (v : bool) : t :=
  mk (fonts self) (used_fonts self) (width self) (height self) (x self)
     (y self) (indent self) (text_align self) (line_height self)
     (list_text self) (list_indent self) (list_style self)
     (last_part_index self) (last_word_index self) (content self)
     (finished self) (is_first_line self) (correct_indent self) v
     (started self) (lines self) (text self) (graphics self) (ids self)
     (current_height self) (current_line_used_fonts self) (current_line self)
     (last_indent self) (last_state self) (last_factor self) (last_fill self)
     (last_color self) (last_stroke_width self) (y_ self) (list_state self).
Definition set_started (self : t) (v : bool) : t :=
  mk (fonts self) (used_fonts self) (width self) (height self) (x self)
     (y self) (indent self) (text_align self) (line_height self)
     (list_text self) (list_indent self) (list_style self)
     (last_part_index self) (last_word_index self) (content self)
     (finished self) (is_first_line self) (correct_indent self)
     (list_setup_done self) v (lines self) (text self) (graphics self)
     (ids self) (current_height self) (current_line_used_fonts self)
     (current_line self) (last_indent self) (last_state self)
     (last_factor self) (last_fill self) (last_color self)
     (last_stroke_width self) (y_ self) (list_state self).
Definition set_lines (self : t) (v : list line_ref) : t :=
  mk (fonts self) (used_fonts self) (width self) (height self) (x self)
     (y self) (indent self) (text_align self) (line_height self)
     (list_text self) (list_indent self) (list_style self)
     (last_part_index self) (last_word_index self) (content self)
     (finished self) (is_first_line self) (correct_indent self)
     (list_setup_done self) (started self) v (text self) (graphics self)
     (ids self) (current_height self) (current_line_used_fonts self)
     (current_line self) (last_indent self) (last_state self)
     (last_factor self) (last_fill self) (last_color self)
     (last_stroke_width self) (y_ self) (list_state self).
Definition set_text (self : t) (v : string) : t :=
  mk (fonts self) (used_fonts self) (width self) (height self) (x self)
     (y self) (indent self) (text_align self) (line_height self)
     (list_text self) (list_indent self) (list_style self)
     (last_part_index self) (last_word_index self) (content self)
     (finished self) (is_first_line self) (correct_indent self)
     (list_setup_done self) (started self) (lines self) v (graphics self)
     (ids self) (current_height self) (current_line_used_fonts self)
     (current_line self) (last_indent self) (last_state self)
     (last_factor self) (last_fill self) (last_color self)
     (last_stroke_width self) (y_ self) (list_state self).
Definition set_graphics (self : t) (v : string) : t :=
  mk (fonts self) (used_fonts self) (width self) (height self) (x self)
     (y self) (indent self) (text_align self) (line_height self)
     (list_text self) (list_indent self) (list_style self)
     (last_part_index self) (last_word_index self) (content self)
     (finished self) (is_first_line self) (correct_indent self)
     (list_setup_done self) (started self) (lines self) (text self) v
     (ids self) (current_height self) (current_line_used_fonts self)
     (current_line self) (last_indent self) (last_state self)
     (last_factor self) (last_fill self) (last_color self)
     (last_stroke_width self) (y_ self) (list_state self).
Definition set_ids (self : t) (v : gmap string (list box)) : t :=
  mk (fonts self) (used_fonts self) (width self) (height self) (x self)
     (y self) (indent self) (text_align self) (line_height self)
     (list_text self) (list_indent self) (list_style self)
     (last_part_index self) (last_word_index self) (content self)
     (finished self) (is_first_line self) (correct_indent self)
     (list_setup_done self) (started self) (lines self) (text self)
     (graphics self) v (current_height self) (current_line_used_fonts self)
     (current_line self) (last_indent self) (last_state self)
     (last_factor self) (last_fill self) (last_color self)
     (last_stroke_width self) (y_ self) (list_state self).
Definition set_current_height (self : t) (v : Q) : t :=
  mk (fonts self) (used_fonts self) (width self) (height self) (x self)
     (y self) (indent self) (text_align self) (line_height self)
     (list_text self) (list_indent self) (list_style self)
     (last_part_index self) (last_word_index self) (content self)
     (finished self) (is_first_line self) (correct_indent self)
     (list_setup_done self) (started self) (lines self) (text self)
     (graphics self) (ids self) v (current_line_used_fonts self)
     (current_line self) (last_indent self) (last_state self)
     (last_factor self) (last_fill self) (last_color self)
     (last_stroke_width self) (y_ self) (list_state self).
Definition set_current_line_used_fonts (self : t) (v : gset (string * string)) : t :=
  mk (fonts self) (used_fonts self) (width self) (height self) (x self)
     (y self) (indent self) (text_align self) (line_height self)
     (list_text self) (list_indent self) (list_style self)
     (last_part_index self) (last_word_index self) (content self)
     (finished self) (is_first_line self) (correct_indent self)
     (list_setup_done self) (started self) (lines self) (text self)
     (graphics self) (ids self) (current_height self) v (current_line self)
     (last_indent self) (last_state self) (last_factor self) (last_fill self)
     (last_color self) (last_stroke_width self) (y_ self) (list_state self).
Definition set_current_line (self : t) (v : PDFTextLine.t) : t :=
  mk (fonts self) (used_fonts self) (width self) (height self) (x self)
     (y self) (indent self) (text_align self) (line_height self)
     (list_text self) (list_indent self) (list_style self)
     (last_part_index self) (last_word_index self) (content self)
     (finished self) (is_first_line self) (correct_indent self)
     (list_setup_done self) (started self) (lines self) (text self)
     (graphics self) (ids self) (current_height self)
     (current_line_used_fonts self) v (last_indent self) (last_state self)
     (last_factor self) (last_fill self) (last_color self)
     (last_stroke_width self) (y_ self) (list_state self).
Definition set_last_indent (self : t) (v : Q) : t :=
  mk (fonts self) (used_fonts self) (width self) (height self) (x self)
     (y self) (indent self) (text_align self) (line_height self)
     (list_text self) (list_indent self) (list_style self)
     (last_part_index self) (last_word_index self) (content self)
     (finished self) (is_first_line self) (correct_indent self)
     (list_setup_done self) (started self) (lines self) (text self)
     (graphics self) (ids self) (current_height self)
     (current_line_used_fonts self) (current_line self) v (last_state self)
     (last_factor self) (last_fill self) (last_color self)
     (last_stroke_width self) (y_ self) (list_state self).
Definition set_last_state (self : t) (v : option PDFState.t) : t :=
  mk (fonts self) (used_fonts self) (width self) (height self) (x self)
     (y self) (indent self) (text_align self) (line_height self)
     (list_text self) (list_indent self) (list_style self)
     (last_part_index self) (last_word_index self) (content self)
     (finished self) (is_first_line self) (correct_indent self)
     (list_setup_done self) (started self) (lines self) (text self)
     (graphics self) (ids self) (current_height self)
     (current_line_used_fonts self) (current_line self) (last_indent self) v
     (last_factor self) (last_fill self) (last_color self)
     (last_stroke_width self) (y_ self) (list_state self).
Definition set_last_factor (self : t) (v : option Q) : t :=
  mk (fonts self) (used_fonts self) (width self) (height self) (x self)
     (y self) (indent self) (text_align self) (line_height self)
     (list_text self) (list_indent self) (list_style self)
     (last_part_index self) (last_word_index self) (content self)
     (finished self) (is_first_line self) (correct_indent self)
     (list_setup_done self) (started self) (lines self) (text self)
     (graphics self) (ids self) (current_height self)
     (current_line_used_fonts self) (current_line self) (last_indent self)
     (last_state self) v (last_fill self) (last_color self)
     (last_stroke_width self) (y_ self) (list_state self).
Definition set_last_fill (self : t) (v : option PDFColor) : t :=
  mk (fonts self) (used_fonts self) (width self) (height self) (x self)
     (y self) (indent self) (text_align self) (line_height self)
     (list_text self) (list_indent self) (list_style self)
     (last_part_index self) (last_word_index self) (content self)
     (finished self) (is_first_line self) (correct_indent self)
     (list_setup_done self) (started self) (lines self) (text self)
     (graphics self) (ids self) (current_height self)
     (current_line_used_fonts self) (current_line self) (last_indent self)
     (last_state self) (last_factor self) v (last_color self)
     (last_stroke_width self) (y_ self) (list_state self).
Definition set_last_color (self : t) (v : option PDFColor) : t :=
  mk (fonts self) (used_fonts self) (width self) (height self) (x self)
     (y self) (indent self) (text_align self) (line_height self)
     (list_text self) (list_indent self) (list_style self)
     (last_part_index self) (last_word_index self) (content self)
     (finished self) (is_first_line self) (correct_indent self)
     (list_setup_done self) (started self) (lines self) (text self)
     (graphics self) (ids self) (current_height self)
     (current_line_used_fonts self) (current_line self) (last_indent self)
     (last_state self) (last_factor self) (last_fill self) v
     (last_stroke_width self) (y_ self) (list_state self).
Definition set_last_stroke_width (self : t) (v : option Q) : t :=
  mk (fonts self) (used_fonts self) (width self) (height self) (x self)
     (y self) (indent self) (text_align self) (line_height self)
     (list_text self) (list_indent self) (list_style self)
     (last_part_index self) (last_word_index self) (content self)
     (finished self) (is_first_line self) (correct_indent self)
     (list_setup_done self) (started self) (lines self) (text self)
     (graphics self) (ids self) (current_height self)
     (current_line_used_fonts self) (current_line self) (last_indent self)
     (last_state self) (last_factor self) (last_fill self) (last_color self) v
     (y_ self) (list_state self).
Definition set_y_ (self : t) (v : Q) : t :=
  mk (fonts self) (used_fonts self) (width self) (height self) (x self)
     (y self) (indent self) (text_align self) (line_height self)
     (list_text self) (list_indent self) (list_style self)
     (last_part_index self) (last_word_index self) (content self)
     (finished self) (is_first_line self) (correct_indent self)
     (list_setup_done self) (started self) (lines self) (text self)
     (graphics self) (ids self) (current_height self)
     (current_line_used_fonts self) (current_line self) (last_indent self)
     (last_state self) (last_factor self) (last_fill self) (last_color self)
     (last_stroke_width self) v (list_state self).
Definition set_width (self : t) (v : Q) : t :=
  mk (fonts self) (used_fonts self) v (height self) (x self) (y self)
     (indent self) (text_align self) (line_height self) (list_text self)
     (list_indent self) (list_style self) (last_part_index self)
     (last_word_index self) (content self) (finished self)
     (is_first_line self) (correct_indent self) (list_setup_done self)
     (started self) (lines self) (text self) (graphics self) (ids self)
     (current_height self) (current_line_used_fonts self) (current_line self)
     (last_indent self) (last_state self) (last_factor self) (last_fill self)
     (last_color self) (last_stroke_width self) (y_ self) (list_state self).
Definition set_height (self : t) (v : Q) : t :=
  mk (fonts self) (used_fonts self) (width self) v (x self) (y self)
     (indent self) (text_align self) (line_height self) (list_text self)
     (list_indent self) (list_style self) (last_part_index self)
     (last_word_index self) (content self) (finished self)
     (is_first_line self) (correct_indent self) (list_setup_done self)
     (started self) (lines self) (text self) (graphics self) (ids self)
     (current_height self) (current_line_used_fonts self) (current_line self)
     (last_indent self) (last_state self) (last_factor self) (last_fill self)
     (last_color self) (last_stroke_width self) (y_ self) (list_state self).
Definition set_x (self : t) (v : Q) : t :=
  mk (fonts self) (used_fonts self) (width self) (height self) v (y self)
     (indent self) (text_align self) (line_height self) (list_text self)
     (list_indent self) (list_style self) (last_part_index self)
     (last_word_index self) (content self) (finished self)
     (is_first_line self) (correct_indent self) (list_setup_done self)
     (started self) (lines self) (text self) (graphics self) (ids self)
     (current_height self) (current_line_used_fonts self) (current_line self)
     (last_indent self) (last_state self) (last_factor self) (last_fill self)
     (last_color self) (last_stroke_width self) (y_ self) (list_state self).
Definition set_y (self : t) (v : Q) : t :=
  mk (fonts self) (used_fonts self) (width self) (height self) (x self) v
     (indent self) (text_align self) (line_height self) (list_text self)
     (list_indent self) (list_style self) (last_part_index self)
     (last_word_index self) (content self) (finished self)
     (is_first_line self) (correct_indent self) (list_setup_done self)
     (started self) (lines self) (text self) (graphics self) (ids self)
     (current_height self) (current_line_used_fonts self) (current_line self)
     (last_indent self) (last_state self) (last_factor self) (last_fill self)
     (last_color self) (last_stroke_width self) (y_ self) (list_state self).

(** The object [PDFTextBase.__init__] leaves for a [content] list; the
    attributes that [init()] assigns before any use are given the values
    [init()] gives them. *)
Definition build (content : list part) (width height : option Q) (x y : Q)
    (fonts : fonts_t) (text_align : option string) (line_height : option Q)
    (indent : Q) (list_text : option string) (list_indent : option Q)
    (list_style : list_style_t) : t :=
  {| fonts := fonts;
     used_fonts := ∅;
     width := default width PARAGRAPH_DEFAULTS.width;
     height := (let h := default height PARAGRAPH_DEFAULTS.height in
                if Qltb 0 h then h else 0%Q);
     x := x;
     y := y;
     indent := indent;
     text_align := default text_align PARAGRAPH_DEFAULTS.text_align;
     line_height := default line_height PARAGRAPH_DEFAULTS.line_height;
     list_text := list_text;
     list_indent := list_indent;
     list_style := list_style;
     last_part_index := 0;
     last_word_index := 0;
     content := content;
     finished := false;
     is_first_line := true;
     correct_indent := true;
     list_setup_done := false;
     started := false;
     lines := [];
     text := "";
     graphics := "";
     ids := ∅;
     current_height := 0;
     current_line_used_fonts := ∅;
     current_line := PDFTextLine.init fonts 0 None None 0;
     last_indent := 0;
     last_state := None;
     last_factor := None;
     last_fill := None;
     last_color := None;
     last_stroke_width := None;
     y_ := 0;
     list_state := None |}.

(** [PDFTextBase.__init__]: a string becomes one part with the default
    style, anything but a list or a tuple is refused *)
Definition new (content : content_arg) (width height : option Q) (x y : Q)
    (fonts : fonts_t) (text_align : option string) (line_height : option Q)
    (indent : Q) (list_text : option string) (list_indent : option Q)
    (list_style : list_style_t) : result t :=
  content ← (match content with
             | CStr s =>
                 Ok [Dict (mkPart None (Some (TStr s)) (Some TEXT_DEFAULTS) None)]
             | CList l => Ok l
             | COther => Raise TypeError
             end);
  Ok (build content width height x y fonts text_align line_height indent
            list_text list_indent list_style).

(** The lines committed so far, each entry read through its reference. *)
Definition committed_lines (self : t) : list PDFTextLine.t :=
  map (fun r => match r with Frozen l => l | Current => current_line self end)
      (lines self).

(** [self.current_line = line]: the entries of [lines] that were the old
    object keep its value. *)
Definition replace_current_line (self : t) (line : PDFTextLine.t) : t :=
  set_current_line
    (set_lines self (map (fun r => Frozen match r with
                                          | Frozen l => l
                                          | Current => current_line self
                                          end) (lines self)))
    line.

(** [setup(x, y, width, height)] *)
Definition setup (self : t) (x y width height : option Q) : t :=
  let self := match x with Some v => set_x self v | None => self end in
  let self := match y with Some v => set_y self v | None => self end in
  let self := match width with Some v => set_width self v | None => self end in
  match height with Some v => set_height self v | None => self end.

(** A number that must not be [None] in arithmetic. *)
Definition number (o : option Q) : result Q :=
  match o with Some q => Ok q | None => Raise TypeError end.

(** [init()] *)
Definition init (self : t) : result t :=
  let self := set_started self false in
  let self := set_lines self [] in
  let self := set_text self "" in
  let self := set_graphics self "" in
  let self := set_ids self ∅ in
  let self := set_current_height self 0 in
  let self := set_current_line_used_fonts self ∅ in
  list_indent ← number (list_indent self);
  let line_width := (width self - list_indent)%Q in
  let line_width := if is_first_line self then (line_width - indent self)%Q
                    else line_width in
  let self := set_current_line self
                (PDFTextLine.init (fonts self) line_width
                   (Some (text_align self)) (Some (line_height self)) 0) in
  let self := set_last_indent self 0 in
  let self := set_last_state self None in
  let self := set_last_factor self None in
  let self := set_last_fill self None in
  let self := set_last_color self None in
  let self := set_last_stroke_width self None in
  Ok (set_y_ self 0).

(** [''.join(str(word) for word in part.words)] *)
Definition join_words (ws : list string) : string :=
  foldr String.append ""%string ws.

Definition Qopt_neb (a : option Q) (b : Q) : bool :=
  match a with Some q => Qneb q b | None => true end.

(** [output_text(part, factor)] *)
Definition output_text (self : t) (part : PDFTextLinePart.t) (factor : Q)
  : result (string * t) :=
  stream ← PDFState.compare (PDFTextLinePart.state part) (last_state self);
  let self := set_last_state self (Some (PDFTextLinePart.state part)) in
  let tw := round3 (PDFTextLinePart.space_width part * (factor - 1)) in
  let '(stream, self) :=
    if Qopt_neb (last_factor self) tw then
      (stream +:+ " " +:+ str_num tw +:+ " Tw", set_last_factor self (Some tw))
    else (stream, self) in
  let text := join_words (PDFTextLinePart.words part) in
  let stream := if negb (String.eqb text "")
                then stream +:+ " (" +:+ text +:+ ")Tj" else stream in
  Ok (stream, self).

(** [output_graphics(part, x, y, part_width)] *)
Definition output_graphics (self : t) (part : PDFTextLinePart.t)
    (x y part_width : Q) : string * t :=
  let st := PDFTextLinePart.state part in
  let bgc := PDFTextLinePart.background part in
  let '(graphics, self) :=
    if negb (color_is_none bgc) then
      let '(graphics, self) :=
        if color_ne bgc (last_fill self)
        then (" " +:+ color_str bgc, set_last_fill self (Some bgc))
        else (""%string, self) in
      (graphics +:+ " " +:+ str_num (round3 x) +:+ " "
         +:+ str_num (round3 (y + PDFState.rise st - PDFState.size st * (1 # 4)))
         +:+ " " +:+ str_num (round3 part_width) +:+ " "
         +:+ str_num (round3 (PDFState.size st)) +:+ " re F", self)
    else (""%string, self) in
  if PDFTextLinePart.underline part then
    let color := PDFColor_stroke (PDFState.color st) in
    let stroke_width := (PDFState.size st * (1 # 10))%Q in
    let y_u := round3 (y + PDFState.rise st - stroke_width) in
    let '(graphics, self) :=
      if color_ne color (last_color self)
      then (graphics +:+ " " +:+ color_str color, set_last_color self (Some color))
      else (graphics, self) in
    let '(graphics, self) :=
      if Qopt_neb (last_stroke_width self) stroke_width
      then (graphics +:+ " " +:+ str_num (round3 stroke_width) +:+ " w",
            set_last_stroke_width self (Some stroke_width))
      else (graphics, self) in
    (graphics +:+ " " +:+ str_num (round3 x) +:+ " " +:+ str_num y_u +:+ " m "
       +:+ str_num (round3 (x + part_width)) +:+ " " +:+ str_num y_u +:+ " l S",
     self)
  else (graphics, self).

(** [self.ids.setdefault(id_, []).append(b)] for every [id_] of a part *)
Definition add_boxes (ids : gmap string (list box)) (part_ids : option (list string))
    (b : box) : gmap string (list box) :=
  match part_ids with
  | None => ids
  | Some l => foldl (fun m id_ => <[id_ := default (m !! id_) [] ++ [b]]> m) ids l
  end.

(** The loop over [line.line_parts] that ends [add_line_to_stream]. *)
Fixpoint emit_parts (self : t) (parts : list PDFTextLinePart.t) (x factor : Q)
  : result t :=
  match parts with
  | [] => Ok self
  | part :: rest =>
      '(stream, self) ← output_text self part factor;
      let self := set_text self (text self +:+ stream) in
      let st := PDFTextLinePart.state part in
      let part_width := PDFTextLinePart.current_width part factor in
      let part_size := round3 (PDFState.size st) in
      let self := set_ids self
        (add_boxes (ids self) (PDFTextLinePart.ids part)
           (round3 x,
            round3 (y_ self + PDFState.rise st - part_size * (1 # 4)),
            round3 (x + part_width), round3 part_size)) in
      let '(part_graphics, self) := output_graphics self part x (y_ self) part_width in
      let self := set_graphics self (graphics self +:+ part_graphics) in
      emit_parts self rest (x + part_width)%Q factor
  end.

(** The move to the start of the line, first part of
    [add_line_to_stream]: the new state, [x], [full_line_height] and
    [factor_width]. *)
Definition position_line (self : t) (line : PDFTextLine.t)
  : result (t * Q * Q * Q) :=
  let '(words_width, spaces_width) := PDFTextLine.get_widths line in
  list_indent ← number (list_indent self);
  let x := if truthy (list_text self) then list_indent else 0%Q in
  let full_line_height := PDFTextLine.height line in
  let factor_width := (width self - list_indent - words_width)%Q in
  if negb (started self) then
    let self := set_started self true in
    if is_first_line self then
      let factor_width := (factor_width - indent self)%Q in
      let self := set_is_first_line self false in
      if truthy (list_text self) then
        match list_state self with
        | None => Raise AttributeError
        | Some list_state =>
            let full_line_height :=
              if Qltb full_line_height (PDFState.size list_state)
              then PDFState.size list_state else full_line_height in
            cmp ← PDFState.compare list_state (last_state self);
            let self := set_text self
              (text self +:+ " 0 -" +:+ str_num (round3 full_line_height)
                 +:+ " Td" +:+ cmp +:+ " (" +:+ default (list_text self) ""
                 +:+ ")Tj " +:+ str_num (list_indent + indent self) +:+ " 0 Td") in
            Ok (self, x, full_line_height, factor_width)
        end
      else
        let self := set_text self
          (text self +:+ " " +:+ str_num (round3 (indent self)) +:+ " -"
             +:+ str_num (round3 full_line_height) +:+ " Td") in
        Ok (self, x, full_line_height, factor_width)
    else
      let first_indent := if truthy (list_text self) then list_indent else 0%Q in
      let self := set_text self
        (text self +:+ " " +:+ str_num (round3 first_indent) +:+ " -"
           +:+ str_num (round3 full_line_height) +:+ " Td") in
      Ok (self, x, full_line_height, factor_width)
  else
    let adjusted_indent := 0%Q in
    let '(self, x, adjusted_indent) :=
      if String.eqb (text_align self) "r" || String.eqb (text_align self) "c" then
        let indent := (width self - words_width - spaces_width)%Q in
        let indent := if String.eqb (text_align self) "c" then (indent / 2)%Q
                      else indent in
        (set_last_indent self indent, (x + indent)%Q, (indent - last_indent self)%Q)
      else (self, x, adjusted_indent) in
    let '(self, adjusted_indent) :=
      if correct_indent self
      then (set_correct_indent self false, (adjusted_indent - indent self)%Q)
      else (self, adjusted_indent) in
    let full_line_height := (full_line_height * line_height self)%Q in
    let self := set_text self
      (text self +:+ " " +:+ str_num (round3 adjusted_indent) +:+ " -"
         +:+ str_num (round3 full_line_height) +:+ " Td") in
    Ok (self, x, full_line_height, factor_width).

(** [ignore_factor = self.text_align != 'j' or is_last or spaces_width == 0] *)
Definition ignore_factor (self : t) (line : PDFTextLine.t) (is_last : bool) : bool :=
  negb (String.eqb (text_align self) "j") || is_last
  || Qeq_bool (PDFTextLine.get_widths line).2 0.

(** [factor = 1 if ignore_factor else factor_width / spaces_width] *)
Definition stream_factor (self : t) (line : PDFTextLine.t) (is_last : bool)
    (factor_width : Q) : Q :=
  if ignore_factor self line is_last then 1%Q
  else (factor_width / (PDFTextLine.get_widths line).2)%Q.

(** [add_line_to_stream(line, is_last)] *)
Definition add_line_to_stream (self : t) (line : PDFTextLine.t) (is_last : bool)
  : result t :=
  '(self', x, full_line_height, factor_width) ← position_line self line;
  let self' := set_y_ self' (y_ self' - full_line_height)%Q in
  let factor := stream_factor self line is_last factor_width in
  emit_parts self' (PDFTextLine.line_parts line) x factor.

(** [add_current_line(is_last)]; the source does not hand [is_last] on to
    [add_line_to_stream], whose own [is_last] stays [False] *)
Definition add_current_line (self : t) (is_last : bool) : result (bool * t) :=
  let line_height := (PDFTextLine.height (current_line self) * line_height self)%Q in
  if Qltb (height self) (line_height + current_height self) then Ok (false, self)
  else
    let self := set_current_height self (current_height self + line_height)%Q in
    let self := set_lines self (lines self ++ [Current]) in
    let self := set_used_fonts self
                  (used_fonts self ∪ current_line_used_fonts self) in
    let self := set_current_line_used_fonts self ∅ in
    self ← add_line_to_stream self (current_line self) false;
    Ok (true, self).

(** [setup_list()] *)
Definition setup_list (self : t) : result t :=
  next ← (match PDFTextLine.next_line (current_line self) with
          | Some n => Ok n
          | None => Raise AttributeError
          end);
  first ← (match PDFTextLine.line_parts next with
           | p :: _ => Ok p
           | [] => Raise IndexError
           end);
  let style := PDFTextLinePart.style first in
  list_style ← (match list_style self with
                | LSNone => Ok Style.empty
                | LSStr s => parse_style_str s (fonts self)
                | LSDict d => Ok d
                | LSOther => Raise TypeError
                end);
  let self := set_list_style self (LSDict list_style) in
  let style := Style.update style list_style in
  line_part ← PDFTextLinePart.init style (fonts self) None;
  let st := PDFTextLinePart.state line_part in
  let self := set_current_line_used_fonts self
    (current_line_used_fonts self
       ∪ {[ (PDFState.font_family st, PDFState.font_mode st) ]}) in
  self ← (match list_indent self with
          | None =>
              w ← PDFTextLinePart.get_word_width line_part
                     (default (list_text self) "");
              Ok (set_list_indent self (Some w))
          | Some _ => Ok self
          end);
  Ok (set_list_state self (Some st)).

(** The loop of [add_part] over the words from [word_index] on;
    [n_words] is [len(words)]. *)
Fixpoint words_loop (self : t) (part_index n_words : nat) (words : list string)
    (word_index : nat) : result (bool * t) :=
  match words with
  | [] => Ok (true, self)
  | word :: rest =>
      list_indent ← number (list_indent self);
      '(status, line) ← PDFTextLine.add_word (current_line self) word
                           (width self - list_indent)%Q;
      let self := set_current_line self line in
      match status with
      | PDFTextLine.added =>
          let self := set_last_part_index self (part_index + 1) in
          let self := set_last_word_index self 0 in
          words_loop self part_index n_words rest (S word_index)
      | PDFTextLine.finished new_line =>
          '(continue_, self) ← add_current_line self
             ((Z.of_nat part_index =? Z.of_nat (length (content self)) - 1)%Z
              && (Z.of_nat word_index =? Z.of_nat n_words - 1)%Z);
          let self := replace_current_line self new_line in
          if continue_ : bool
          then words_loop self part_index n_words rest (S word_index)
          else Ok (false, self)
      | _ => words_loop self part_index n_words rest (S word_index)
      end
  end.

(** [add_part(part, part_index)]; the value ['continue'] that the source
    returns for a part without text counts as true *)
Definition add_part (self : t) (part : part_dict) (part_index : nat)
  : result (bool * t) :=
  match p_text part with
  | None | Some TOther => Ok (true, self)
  | Some words =>
      let style := Style.update TEXT_DEFAULTS (default (p_style part) Style.empty) in
      '(new_line_part, line) ← PDFTextLine.add_line_part (current_line self)
                                  style (p_ids part);
      let self := set_current_line self line in
      self ← (if negb (list_setup_done self) && truthy (list_text self)
              then setup_list (set_list_setup_done self true)
              else Ok self);
      let st := PDFTextLinePart.state new_line_part in
      let self := set_current_line_used_fonts self
        (current_line_used_fonts self
           ∪ {[ (PDFState.font_family st, PDFState.font_mode st) ]}) in
      let '(words, self) :=
        match words with
        | TStr s =>
            let tokens := tokenize s in
            (tokens,
             set_content self
               (<[part_index :=
                    Dict (mkPart (p_type part) (Some (TList tokens))
                                 (p_style part) (p_ids part))]> (content self)))
        | TList l => (l, self)
        | TOther => ([], self)
        end in
      words_loop self part_index (length words)
                 (drop (last_word_index self) words) (last_word_index self)
  end.

(** The loop of [run] over the part indices; the flag is false when the
    loop left the method with [return False]. *)
Fixpoint parts_loop (self : t) (indices : list nat) : result (bool * t) :=
  match indices with
  | [] => Ok (true, self)
  | part_index :: rest =>
      match content self !! part_index with
      | None => Raise IndexError
      | Some NotDict => Raise TypeError
      | Some (Dict part) =>
          match p_type part with
          | Some type_ =>
              if String.eqb type_ "br" then
                '(continue_, self) ← add_current_line self false;
                if continue_ : bool then
                  let self := set_last_part_index self (part_index + 1) in
                  let self := set_last_word_index self 0 in
                  parts_loop self rest
                else Ok (false, self)
              else parts_loop self rest
          | None =>
              '(continue_, self) ← add_part self part part_index;
              if continue_ : bool then parts_loop self rest else Ok (false, self)
          end
      end
  end.

(** [run()] *)
Definition run (self : t) : result (bool * t) :=
  self ← init self;
  '(completed, self) ← parts_loop self
     (seq (last_part_index self) (length (content self) - last_part_index self));
  if completed : bool then
    '(continue_, self) ← add_current_line self true;
    let self := if continue_ : bool then set_finished self true else self in
    Ok (finished self, self)
  else Ok (false, self).

End defs.
End PDFTextBase.

(** ** [class PDFText]: flattening the rich-text tree *)

(** Python's [==] on untyped values; a [bool] is the number 0 or 1, and
    two dictionaries are equal when they have the same keys with equal
    values. *)
Definition num_of_bool (b : bool) : Q := if b then 1%Q else 0%Q.

Fixpoint assoc {A} (key : string) (d : list (string * A)) : option A :=
  match d with
  | [] => None
  | (k, v) :: rest => if String.eqb k key then Some v else assoc key rest
  end.

Fixpoint pyval_eqb (v w : pyval) {struct v} : bool :=
  match v, w with
  | VNone, VNone => true
  | VBool a, VBool b => Bool.eqb a b
  | VBool a, VNum q => Qeq_bool (num_of_bool a) q
  | VNum q, VBool b => Qeq_bool q (num_of_bool b)
  | VNum p, VNum q => Qeq_bool p q
  | VStr s, VStr t => String.eqb s t
  | VList l, VList m =>
      (fix eq_all (l : list pyval) (m : list pyval) : bool :=
         match l, m with
         | [], [] => true
         | x :: l', y :: m' => pyval_eqb x y && eq_all l' m'
         | _, _ => false
         end) l m
  | VDict d, VDict e =>
      (length d =? length e)%nat &&
      (fix sub (d : list (string * pyval)) : bool :=
         match d with
         | [] => true
         | (k, x) :: d' =>
             match assoc k e with
             | Some y => pyval_eqb x y && sub d'
             | None => false
             end
         end) d
  | _, _ => false
  end.

(** [==] on optional entries of a dictionary. *)
Definition opt_eqb {A} (eqb : A -> A -> bool) (a b : option A) : bool :=
  match a, b with
  | Some x, Some y => eqb x y
  | None, None => true
  | _, _ => false
  end.

(** [==] on style dictionaries. *)
Definition style_eqb (a b : Style.t) : bool :=
  opt_eqb String.eqb (Style.f a) (Style.f b)
  && opt_eqb Bool.eqb (Style.b a) (Style.b b)
  && opt_eqb Bool.eqb (Style.i a) (Style.i b)
  && opt_eqb Qeq_bool (Style.s a) (Style.s b)
  && opt_eqb pyval_eqb (Style.c a) (Style.c b)
  && opt_eqb Qeq_bool (Style.r a) (Style.r b)
  && opt_eqb Bool.eqb (Style.u a) (Style.u b)
  && opt_eqb pyval_eqb (Style.bg a) (Style.bg b).

(** [==] on lists of strings. *)
Fixpoint strings_eqb (l m : list string) : bool :=
  match l, m with
  | [], [] => true
  | x :: l', y :: m' => String.eqb x y && strings_eqb l' m'
  | _, _ => false
  end.

(** [s.split('\n')] *)
Fixpoint split_lines (s piece : string) : list string :=
  match s with
  | EmptyString => [piece]
  | String ch rest =>
      if Ascii.eqb ch (ascii_of_nat 10) then piece :: split_lines rest ""
      else split_lines rest (piece +:+ String ch "")
  end.

Module PDFText.

(** A text part [{'style': style, 'text': text, 'ids': ids}]. *)
Record text_part := mkTextPart {
  tp_style : Style.t;
  tp_text : string;
  tp_ids : list string
}.

Definition text_part_eqb (a b : text_part) : bool :=
  style_eqb (tp_style a) (tp_style b)
  && String.eqb (tp_text a) (tp_text b)
  && strings_eqb (tp_ids a) (tp_ids b).

(** The object while it parses. The text parts are objects that the
    parser mutates after it has listed them: [store] holds them by
    address, in order of creation, and [content] lists addresses. *)
Record parser := mkParser {
  store : list text_part;
  content : list nat
}.

Definition deref (st : parser) (a : nat) : result text_part :=
  match store st !! a with
  | Some p => Ok p
  | None => Raise AttributeError
  end.

(** [self.content.remove(part)] for the part at address [a]: the first
    entry that is this object, or is equal to it, goes. *)
Fixpoint remove_first (st : list text_part) (a : nat) (p : text_part)
    (content : list nat) : result (list nat) :=
  match content with
  | [] => Raise ValueError
  | b :: rest =>
      match st !! b with
      | Some q =>
          if Nat.eqb b a || text_part_eqb q p then Ok rest
          else rest ← remove_first st a p rest; Ok (b :: rest)
      | None => Raise AttributeError
      end
  end.

(** [_new_text_part(style, ids, last_part)]: the address of the new part *)
Definition _new_text_part (st : parser) (style : Style.t) (ids : list string)
    (last_part : option nat) : result (nat * parser) :=
  st ← (match last_part with
        | Some a =>
            p ← deref st a;
            if String.eqb (tp_text p) "" then
              content ← remove_first (store st) a p (content st);
              Ok (mkParser (store st) content)
            else Ok st
        | None => Ok st
        end);
  let a := length (store st) in
  Ok (a, mkParser (store st ++ [mkTextPart style "" ids]) (content st ++ [a])).

(** [text_part['ids'].append(id_)] *)
Definition append_id (st : parser) (a : nat) (id_ : string) : result parser :=
  p ← deref st a;
  Ok (mkParser (<[a := mkTextPart (tp_style p) (tp_text p) (tp_ids p ++ [id_])]>
                  (store st))
               (content st)).

(** [text_part['text'] += s] *)
Definition append_text (st : parser) (a : nat) (s : string) : result parser :=
  p ← deref st a;
  Ok (mkParser (<[a := mkTextPart (tp_style p) (tp_text p +:+ s) (tp_ids p)]>
                  (store st))
               (content st)).

(** The anchor of a tag: [prefix + value] when the key holds a string,
    nothing when it is absent or [None], [TypeError] otherwise. *)
Definition tag (st : parser) (a : nat) (prefix : string) (v : option pyval)
  : result parser :=
  match v with
  | None | Some VNone => Ok st
  | Some (VStr s) => append_id st a (prefix +:+ s)
  | Some _ => Raise TypeError
  end.

Section elements.

(** The recursive call on an element that is a dictionary. *)
Variable recurse : parser -> pyval -> Style.t -> list string -> result parser.
Variable style : Style.t.

(** One turn of the loop over [elements]; the state of the loop is the
    address in [text_part] and [is_last_string]. An embedded line break
    reaches [self.elements], an attribute the object does not have. *)
Definition element_step (st : parser) (text_part : nat) (is_last_string : bool)
    (element : pyval) : result (parser * nat * bool) :=
  match element with
  | VStr s =>
      if negb (String.eqb s "") then
        let lines := split_lines s "" in
        '(text_part, st) ←
          (if negb is_last_string then
             p ← deref st text_part;
             _new_text_part st style (tp_ids p) (Some text_part)
           else Ok (text_part, st));
        match lines with
        | [] => Raise IndexError
        | first :: others =>
            st ← append_text st text_part first;
            match others with
            | [] => Ok (st, text_part, true)
            | _ :: _ => Raise AttributeError
            end
        end
      else Raise TypeError
  | VDict _ =>
      p ← deref st text_part;
      st ← recurse st element style (tp_ids p);
      Ok (st, text_part, false)
  | _ => Raise TypeError
  end.

Fixpoint elements_loop (st : parser) (text_part : nat) (is_last_string : bool)
    (elements : list pyval) : result (parser * nat) :=
  match elements with
  | [] => Ok (st, text_part)
  | element :: rest =>
      '(st, text_part, is_last_string) ←
        element_step st text_part is_last_string element;
      elements_loop st text_part is_last_string rest
  end.

End elements.

Section defs.
Context `{Externals}.

(** [self.pdf], by what the parser asks of it:
    [str(self.pdf.context.get(v, ''))] *)
Variable pdf : option (pyval -> string).
Variable fonts : fonts_t.

(** The part of [_recursive_content_parse] from
    [style.update(process_style(...))] on, once [elements] is known;
    [content] is the dictionary. *)
Definition parse_elements
    (recurse : parser -> pyval -> Style.t -> list string -> result parser)
    (st : parser) (content : list (string * pyval)) (style : Style.t)
    (ids : list string) (elements : list pyval) : result parser :=
  upd ← process_style (assoc "style" content)
          (match pdf with Some _ => true | None => false end);
  let style := Style.update style upd in
  '(text_part, st) ← _new_text_part st style ids None;
  st ← tag st text_part "$label:" (assoc "label" content);
  st ← tag st text_part "$ref:" (assoc "ref" content);
  st ← tag st text_part "$uri:" (assoc "uri" content);
  '(st, text_part) ← elements_loop recurse style st text_part false elements;
  p ← deref st text_part;
  if String.eqb (tp_text p) "" then
    content ← remove_first (store st) text_part p (PDFText.content st);
    Ok (mkParser (store st) content)
  else Ok st.

(** A string element never reaches the recursive call. *)
Definition no_recursion (st : parser) (element : pyval) (style : Style.t)
    (ids : list string) : result parser := Raise TypeError.

(** [_recursive_content_parse] on a dictionary. *)
Fixpoint parse_scope (st : parser) (content : pyval) (parent_style : Style.t)
    (ids : list string) {struct content} : result parser :=
  match content with
  | VDict d =>
      match d, pdf with
      | [("var"%string, v)], Some context =>
          upd ← parse_style_str "" fonts;
          parse_elements no_recursion st [(".", VList [VStr (context v)])]%string
                         (Style.update parent_style upd) ids [VStr (context v)]
      | _, _ =>
          (fix scan (items : list (string * pyval)) : result parser :=
             match items with
             | [] => parse_elements no_recursion st d parent_style ids []
             | (key, value) :: rest =>
                 match key with
                 | String "." shorthand =>
                     upd ← parse_style_str shorthand fonts;
                     let style := Style.update parent_style upd in
                     match value with
                     | VStr _ => parse_elements parse_scope st d style ids [value]
                     | VList l => parse_elements parse_scope st d style ids l
                     | _ => Raise TypeError
                     end
                 | _ => scan rest
                 end
             end) d
      end
  | _ => Raise TypeError
  end.

(** [_recursive_content_parse(content, parent_style, ids)] *)
Definition _recursive_content_parse (st : parser) (content : pyval)
    (parent_style : Style.t) (ids : list string) : result parser :=
  match content with
  | VStr _ => parse_scope st (VDict [(".", VList [content])]%string) parent_style ids
  | VList _ => parse_scope st (VDict [(".", content)]%string) parent_style ids
  | VDict _ => parse_scope st content parent_style ids
  | _ => Raise TypeError
  end.

(** The content list handed to [PDFTextBase.__init__]. *)
Definition parts_of (st : parser) : result (list part) :=
  mapM (fun a => p ← deref st a;
                 Ok (Dict (mkPart None (Some (TStr (tp_text p)))
                                  (Some (tp_style p)) (Some (tp_ids p)))))
       (content st).

(** [PDFText.__init__] *)
Definition new (content : pyval) (width height : option Q) (x y : Q)
    (text_align : option string) (line_height : option Q) (indent : Q)
    (list_text : option string) (list_indent : option Q)
    (list_style : list_style_t) : result PDFTextBase.t :=
  st ← _recursive_content_parse (mkParser [] []) content TEXT_DEFAULTS [];
  parts ← parts_of st;
  PDFTextBase.new (CList parts) width height x y fonts text_align line_height
                  indent list_text list_indent list_style.

End defs.
End PDFText.

(** ** [class PDF]: the entry point [create_text] *)

(** An argument of a call, by the kinds of value [create_text] passes. *)
Inductive arg :=
| AValue (v : pyval)
| ANumber (q : Q)
| AString (s : string)
| AFonts (f : fonts_t).

(** Python's binding of the arguments of a call to the parameters of a
    function (after [self]): positional arguments fill the parameters from
    the left, a keyword argument fills the parameter of its name, and a
    parameter filled twice, an unknown keyword or a surplus positional
    argument raises [TypeError]. *)
Fixpoint bind_positional (params : list string) (args : list arg)
  : result (list (string * arg)) :=
  match args, params with
  | [], _ => Ok []
  | _ :: _, [] => Raise TypeError
  | a :: args', p :: params' =>
      bound ← bind_positional params' args';
      Ok ((p, a) :: bound)
  end.

Fixpoint bind_keywords (params : list string) (bound : list (string * arg))
    (kwargs : list (string * arg)) : result (list (string * arg)) :=
  match kwargs with
  | [] => Ok bound
  | (k, a) :: rest =>
      if negb (bool_decide (k ∈ params)) then Raise TypeError
      else match assoc k bound with
           | Some _ => Raise TypeError
           | None => bind_keywords params (bound ++ [(k, a)]) rest
           end
  end.

(** The parameters in [required] must all be filled. *)
Definition bind_call (params required : list string) (args : list arg)
    (kwargs : list (string * arg)) : result (list (string * arg)) :=
  bound ← bind_positional params args;
  bound ← bind_keywords params bound kwargs;
  if forallb (fun p => match assoc p bound with Some _ => true | None => false end)
             required
  then Ok bound else Raise TypeError.

Module PDF.
Section defs.
Context `{Externals}.

(** The attributes of a [PDF] that [create_text] reads. *)
Record t := mk {
  page_width : Q;
  page_height : Q;
  margins : list Q;
  width : Q;
  height : Q;
  text_align : string;
  line_height : Q;
  fonts_data : fonts_t;
  x : Q;
  _y : Q
}.

(** The margins as [__init__] leaves them: a number or a list of one
    entry is repeated four times, a list of two twice; with three entries
    [self.margins] is [None] and with any other count it is unset, and the
    constructor fails on its next line reading [self.margins[1]]. *)
Definition init_margins (margins : list Q) : result (list Q) :=
  match margins with
  | [_] => Ok (margins ++ margins ++ margins ++ margins)
  | [_; _] => Ok (margins ++ margins)
  | [_; _; _] => Raise TypeError
  | _ => Raise AttributeError
  end.

Definition nth_margin (self_margins : list Q) (n : nat) : result Q :=
  match self_margins !! n with Some m => Ok m | None => Raise IndexError end.

(** [PDF.__init__], for the attributes above; [page_size] is what
    [get_page_size('a4')] returns and [fonts] the table [STANDARD_FONTS] of
    [pdf.py], whose width tables come from [standard_fonts]. The
    constructor ends with [add_page()], which sets [x] and [_y]. *)
Definition init (page_size : Q * Q) (fonts : fonts_t) (margins : list Q)
    (text_align : string) (line_height : Q) : result t :=
  let '(page_width, page_height) := page_size in
  margins ← init_margins margins;
  m0 ← nth_margin margins 0;
  m1 ← nth_margin margins 1;
  m2 ← nth_margin margins 2;
  m3 ← nth_margin margins 3;
  Ok {| page_width := page_width;
        page_height := page_height;
        margins := margins;
        width := page_width - m1 - m3;
        height := page_height - m0 - m2;
        text_align := text_align;
        line_height := line_height;
        fonts_data := fonts;
        x := m3;
        _y := page_height - m0 |}.

(** The property [y] *)
Definition y (self : t) : Q := (page_height self - _y self)%Q.

(** [default_text_style(width, height, text_align, line_height, indent)]:
    a dictionary with the keys [width height text_align line_height
    indent], in this order *)
Definition default_text_style (self : t) (width_ height_ : option Q)
    (text_align_ : option string) (line_height_ : option Q) (indent : Q)
  : result (list (string * arg)) :=
  w ← (match width_ with
       | None => m3 ← nth_margin (margins self) 3;
                 Ok (width self + m3 - x self)%Q
       | Some w => Ok w
       end);
  h ← (match height_ with
       | None => m0 ← nth_margin (margins self) 0;
                 Ok (height self + m0 - y self)%Q
       | Some h => Ok h
       end);
  Ok [("width", ANumber w); ("height", ANumber h);
      ("text_align", AString (default text_align_ (text_align self)));
      ("line_height", ANumber (default line_height_ (line_height self)));
      ("indent", ANumber indent)]%string.

(** The parameters of [PDFText.__init__] after [self]; the first three
    have no default. *)
Definition PDFText_params : list string :=
  ["content"; "width"; "height"; "x"; "y"; "fonts"; "text_align";
   "line_height"; "indent"; "list_text"; "list_indent"; "list_style";
   "pdf"]%string.
Definition PDFText_required : list string :=
  ["content"; "width"; "height"]%string.

(** Reading a bound argument at the type the engine computes with. *)
Definition as_number (a : option arg) (dflt : option Q) : result (option Q) :=
  match a with
  | None => Ok dflt
  | Some (ANumber q) => Ok (Some q)
  | Some (AValue VNone) => Ok None
  | Some _ => Raise TypeError
  end.
Definition as_string (a : option arg) : result (option string) :=
  match a with
  | None | Some (AValue VNone) => Ok None
  | Some (AString s) => Ok (Some s)
  | Some _ => Raise TypeError
  end.

(** The body of [PDFText.__init__] on bound arguments. *)
Definition PDFText_call (bound : list (string * arg)) : result PDFTextBase.t :=
  content ← (match assoc "content" bound with
             | Some (AValue v) => Ok v
             | Some (AString s) => Ok (VStr s)
             | Some (ANumber q) => Ok (VNum q)
             | _ => Raise TypeError
             end);
  w ← as_number (assoc "width" bound) None;
  h ← as_number (assoc "height" bound) None;
  x ← as_number (assoc "x" bound) (Some 0%Q);
  y ← as_number (assoc "y" bound) (Some 0%Q);
  fonts ← (match assoc "fonts" bound with
           | Some (AFonts f) => Ok f
           | _ => Raise TypeError
           end);
  ta ← as_string (assoc "text_align" bound);
  lh ← as_number (assoc "line_height" bound) None;
  indent ← as_number (assoc "indent" bound) (Some 0%Q);
  list_text ← as_string (assoc "list_text" bound);
  list_indent ← as_number (assoc "list_indent" bound) (Some 0%Q);
  x ← PDFTextBase.number x;
  y ← PDFTextBase.number y;
  indent ← PDFTextBase.number indent;
  PDFText.new None fonts content w h x y ta lh indent list_text list_indent LSNone.

(** [create_text(content, width, height, text_align, line_height, indent)]:
    the call [PDFText(content, self.fonts_data, **style)], then
    [pdf_text.process()], a method that [PDFText] does not have *)
Definition create_text (self : t) (content : pyval) (width_ height_ : option Q)
    (text_align_ : option string) (line_height_ : option Q) (indent : Q)
  : result PDFTextBase.t :=
  style ← default_text_style self width_ height_ text_align_ line_height_ indent;
  bound ← bind_call PDFText_params PDFText_required
             [AValue content; AFonts (fonts_data self)] style;
  pdf_text ← PDFText_call bound;
  Raise AttributeError.

(** [text(content, width, height, text_align, line_height, indent, move)]:
    [create_text], then [add_text], which asks the object for [build],
    another method it does not have *)
Definition text (self : t) (content : pyval) (width_ height_ : option Q)
    (text_align_ : option string) (line_height_ : option Q) (indent : Q)
    (move : string) : result unit :=
  pdf_text ← create_text self content width_ height_ text_align_ line_height_
                         indent;
  Raise AttributeError.

(** The setter of the property [y]: [self._y = self.page_height - value] *)
Definition set_y (self : t) (value : Q) : t :=
  mk (page_width self) (page_height self) (margins self) (width self)
     (height self) (text_align self) (line_height self) (fonts_data self)
     (x self) (page_height self - value)%Q.

(** [move_x(x)] *)
Definition move_x (self : t) (dx : Q) : t :=
  mk (page_width self) (page_height self) (margins self) (width self)
     (height self) (text_align self) (line_height self) (fonts_data self)
     (x self + dx)%Q (_y self).

(** [move_y(y)]: [self.y += y], through the getter and the setter of [y] *)
Definition move_y (self : t) (dy : Q) : t := set_y self (y self + dy)%Q.

(** [move(x, y)] *)
Definition move (self : t) (dx dy : Q) : t := move_y (move_x self dx) dy.

(** [p_style['width'] -= par_indent] *)
Definition sub_width (style : list (string * arg)) (par_indent : Q)
  : result (list (string * arg)) :=
  match assoc "width" style with
  | Some (ANumber w) =>
      Ok (map (fun kv => if String.eqb kv.1 "width"
                         then (kv.1, ANumber (w - par_indent)%Q) else kv) style)
  | Some _ => Raise TypeError
  | None => Raise KeyError
  end.

(** [create_list(content, width, height, text_align, line_height, indent,
    style, list_style, par_indent, move, root)]: it sets [self.style], which
    nothing else reads, narrows the default style by [par_indent], and makes
    the same call [PDFText(content, self.fonts_data, **p_style)] and
    [pdf_text.process()] as [create_text]; the arguments [style],
    [list_style], [move] and [root] are not used *)
Definition create_list (self : t) (content : pyval) (width_ height_ : option Q)
    (text_align_ : option string) (line_height_ : option Q) (indent : Q)
    (par_indent : Q) : result unit :=
  p_style ← default_text_style self width_ height_ text_align_ line_height_ indent;
  p_style ← sub_width p_style par_indent;
  bound ← bind_call PDFText_params PDFText_required
             [AValue content; AFonts (fonts_data self)] p_style;
  pdf_text ← PDFText_call bound;
  Raise AttributeError.

End defs.
End PDF.

(** ** A fixture: one font whose characters are all 600/1000 em wide *)

Module Fixture.

(** Numbers print as decimals with at most three places. *)
Definition digits3 (n : Z) : string :=
  (if (n <? 100)%Z then "0" else "") +:+ (if (n <? 10)%Z then "0" else "")
  +:+ pretty n.

Definition show_num (q : Q) : string :=
  let m := round_half_even (q * 1000) in
  let a := Z.abs m in
  (if (m <? 0)%Z then "-" else "") +:+ pretty (a / 1000)%Z
  +:+ (if (a mod 1000 =? 0)%Z then "" else "." +:+ digits3 (a mod 1000)%Z).

(** Colours are grey levels; [None] is the colour built from [None]. *)
Definition grey_ne (a : option Q) (b : option (option Q)) : bool :=
  match b with
  | None => true
  | Some b =>
      match a, b with
      | Some x, Some y => Qneb x y
      | None, None => false
      | _, _ => true
      end
  end.

#[export] Instance externals : Externals := {|
  PDFColor := option Q;
  PDFColor_of := fun v => match v with VNum q => Some q | _ => None end;
  PDFColor_stroke := fun c => c;
  color_ne := grey_ne;
  color_is_none := fun c => match c with None => true | Some _ => false end;
  color_str := fun c => match c with
                        | Some q => show_num q +:+ " g"
                        | None => ""
                        end;
  str_num := show_num;
  parse_style_str := fun _ _ => Ok Style.empty;
  process_style := fun _ _ => Ok Style.empty
|}.

Definition metric : gmap ascii Q :=
  list_to_map (map (fun n => (ascii_of_nat n, 600%Q)) (seq 0 256)).

Definition fonts : fonts_t :=
  {[ "Helvetica"%string :=
       {[ "n"%string := mkFontEntry "F1" "Helvetica" metric ]} ]}.

(** [{'s': 10}] *)
Definition size10 : Style.t :=
  Style.mk None None None (Some 10%Q) None None None None.

(** The state of the default style at size 10. *)
Definition state10 : PDFState.t :=
  PDFState.mk fonts "Helvetica" "n" 10 (Some (1 # 10)%Q) 0.

(** A part [{'style': {'s': 10}, 'text': text}]. *)
Definition part10 (text : text_val) : part :=
  Dict (mkPart None (Some text) (Some size10) None).

(** A block over the fixture font, with no indent and no list marker. *)
Definition block (content : list part) (width height : Q) (text_align : string)
  : PDFTextBase.t :=
  PDFTextBase.build content (Some width) (Some height) 0 0 fonts
    (Some text_align) None 0 None (Some 0%Q) LSNone.

(** The words of the parts of a line, as [output_text] shows them. *)
Definition shown (l : PDFTextLine.t) : list (list string) :=
  map PDFTextLinePart.words (PDFTextLine.line_parts l).

(** A line fed word by word, as the loop of [add_part] feeds it, on a
    line that does not close: the status of each word and the line. *)
Fixpoint feed (l : PDFTextLine.t) (words : list string) (new_width : Q)
  : result (list PDFTextLine.status * PDFTextLine.t) :=
  match words with
  | [] => Ok ([], l)
  | word :: rest =>
      '(status, l) ← PDFTextLine.add_word l word new_width;
      '(statuses, l) ← feed l rest new_width;
      Ok (status :: statuses, l)
  end.

(** The ['status'] string of an answer of [add_word]. *)
Definition status_name (st : PDFTextLine.status) : string :=
  match st with
  | PDFTextLine.added => "added"
  | PDFTextLine.ignored => "ignored"
  | PDFTextLine.preadded => "preadded"
  | PDFTextLine.finished _ => "finished"
  end.

(** A line 1000pt wide with one part of size 10, then fed [words]. *)
Definition fed (words : list string)
  : result (list PDFTextLine.status * PDFTextLine.t) :=
  '(_, l) ← PDFTextLine.add_line_part
              (PDFTextLine.init fonts 1000 (Some "l"%string) None 0)
              (Style.update TEXT_DEFAULTS size10) None;
  feed l words 1000.

(** The statuses, the tokens and the flag [is_last_word_space] of the line
    of [fed words]. *)
Definition fed_summary (words : list string)
  : option (list string * list string * bool) :=
  match fed words with
  | Ok (statuses, l) =>
      Some (map status_name statuses,
            concat (map PDFTextLinePart.words (PDFTextLine.line_parts l)),
            PDFTextLine.is_last_word_space l)
  | Raise _ => None
  end.

(** The line of [fed words], an empty line should a call raise. *)
Definition line_fed (words : list string) : PDFTextLine.t :=
  match fed words with
  | Ok (_, l) => l
  | Raise _ => PDFTextLine.init fonts 1000 (Some "l"%string) None 0
  end.

(** A fresh part of size 10: what [PDFTextLinePart.__init__] builds from
    the default style at size 10. *)
Definition fresh10 : PDFTextLinePart.t :=
  PDFTextLinePart.mk fonts (Style.update TEXT_DEFAULTS size10) state10 false
    None None 0 [] 6 0.

(** The document [PDF()] builds by default, on a page of 595.276 by
    841.89 points with margins of 56.693. *)
Definition page : Q * Q := (595276 # 1000, 84189 # 100)%Q.
Definition margin : Q := 56693 # 1000.
Definition pdf : PDF.t :=
  PDF.mk page.1 page.2 [margin; margin; margin; margin]
    (page.1 - margin - margin) (page.2 - margin - margin) "l" (11 # 10) fonts
    margin (page.2 - margin).


(** What a layout call leaves, by what a caller can read of it. *)
Record outcome := mkOutcome {
  o_finished : bool;
  o_lines : list (list (list string));
  o_closed : list bool;
  o_pending : list (list string);
  o_cursor : nat * nat;
  o_text : string
}.

Definition outcome_of (r : result (bool * PDFTextBase.t)) : option outcome :=
  match r with
  | Ok (fin, s) =>
      Some {| o_finished := fin;
              o_lines := map shown (PDFTextBase.committed_lines s);
              o_closed := map (fun r => match r with
                                        | PDFTextBase.Frozen _ => true
                                        | PDFTextBase.Current => false
                                        end) (PDFTextBase.lines s);
              o_pending := match PDFTextLine.next_line (PDFTextBase.current_line s) with
                           | Some buffer => shown buffer
                           | None => []
                           end;
              o_cursor := (PDFTextBase.last_part_index s,
                           PDFTextBase.last_word_index s);
              o_text := PDFTextBase.text s |}
  | Raise _ => None
  end.

(** A line 1000pt wide whose one part, of size 10, carries the anchor
    ["$label:a"] and the words "AA" and a space; an empty line should a call
    raise. *)
Definition anchored_line : PDFTextLine.t :=
  match ('(_, l) ← PDFTextLine.add_line_part
                     (PDFTextLine.init fonts 1000 (Some "l"%string) None 0)
                     (Style.update TEXT_DEFAULTS size10) (Some ["$label:a"%string]);
         feed l ["AA"; " "]%string 1000) with
  | Ok (_, l) => l
  | Raise _ => PDFTextLine.init fonts 1000 (Some "l"%string) None 0
  end.

(** The fresh part of size 10 holding the word "AB". *)
Definition part_AB : PDFTextLinePart.t :=
  PDFTextLinePart.set_words fresh10 ["AB"%string].

End Fixture.

(** * Specifications *)

(** ** What [compare] is to emit *)

Module PDFStateSpec.
Section spec.
Context `{EXT : Externals}.
Import PDFState.




End spec.
End PDFStateSpec.

(** ** Widths of a line, and the invariant of the wrapper *)

Module LineSpec.
Section spec.
Context `{EXT : Externals}.
Import PDFTextLine.

(** The tokens of a list of parts, in order. *)
Definition toks (parts : list PDFTextLinePart.t) : list string :=
  concat (map PDFTextLinePart.words parts).
Definition tokens (l : t) : list string := toks (line_parts l).

Definition sumW (parts : list PDFTextLinePart.t) : Q :=
  foldr (fun p acc => (PDFTextLinePart.width p + acc)%Q) 0%Q parts.
Definition sumS (parts : list PDFTextLinePart.t) : Q :=
  foldr (fun p acc => (PDFTextLinePart.spaces_width p + acc)%Q) 0%Q parts.

(** The part [p] with one more space. *)
Definition spaced (p : PDFTextLinePart.t) : PDFTextLinePart.t :=
  PDFTextLinePart.set_spaces_width
    (PDFTextLinePart.set_words p (PDFTextLinePart.words p ++ [" "%string]))
    (PDFTextLinePart.spaces_width p + PDFTextLinePart.space_width p)%Q.

(** A part of the pending buffer holds words only. *)
Definition pend_ok (p : PDFTextLinePart.t) : Prop :=
  (PDFTextLinePart.spaces_width p == 0)%Q ∧ " "%string ∉ PDFTextLinePart.words p.

(** The line is narrower than its [max_width], spaces counted at the
    factor of the line: 1, or the floor 0.7 of a justified line. *)
Definition width_bound (l : t) : Prop :=
  ((get_widths l).1 + (get_widths l).2 * factor l < max_width l)%Q.

(** The line holds no space token: it is a single group of words. *)
Definition no_space (l : t) : Prop := " "%string ∉ tokens l.

Definition ends_with_space (l : t) : Prop := last (tokens l) = Some " "%string.

(** What holds of a line closed by wrapping. *)
Definition wrapped_ok (l : t) : Prop :=
  ¬ ends_with_space l → no_space l ∨ width_bound l.

(** The claim as the specification words it, at factor [f]: within
    [max_width], or a single word wider than [max_width]. *)
Definition claimed_bound (f : Q) (l : t) : Prop :=
  ((get_widths l).1 + (get_widths l).2 * f <= max_width l)%Q
  ∨ ∃ w, tokens l = [w] ∧ (max_width l < (get_widths l).1)%Q.

Definition claimed_bound_b (f : Q) (l : t) : bool :=
  Qle_bool ((get_widths l).1 + (get_widths l).2 * f) (max_width l)
  || match tokens l with
     | [_] => Qltb (max_width l) (get_widths l).1
     | _ => false
     end.

(** A started line ends with a space, and without it the line is a single
    group of words or within its width. *)
Definition closable (l : t) : Prop :=
  ∃ front lp ws0,
    line_parts l = front ++ [lp]
    ∧ PDFTextLinePart.words lp = ws0 ++ [" "%string]
    ∧ (last (toks front ++ ws0) ≠ Some " "%string →
       " "%string ∉ toks front ++ ws0
       ∨ (sumW (line_parts l)
          + (sumS (line_parts l) - PDFTextLinePart.space_width lp) * factor l
          < max_width l)%Q).

(** A started line and its pending buffer: words are pending only after
    a word was read, and then the line with them passed the width test. *)
Definition started_inv (l next : t) : Prop :=
  closable l
  ∧ (is_last_word_space l = true → tokens next = [])
  ∧ (tokens next ≠ [] →
     (sumW (line_parts l) + sumS (line_parts l) * factor l
      + sumW (line_parts next) < max_width l)%Q).

(** The invariant of a line under [add_line_part] and [add_word]. *)
Definition inv (l : t) : Prop :=
  match next_line l with
  | None => line_parts l = [] ∧ started l = false ∧ is_last_word_space l = true
  | Some next =>
      Forall pend_ok (line_parts next)
      ∧ started next = false ∧ is_last_word_space next = true
      ∧ if started l then started_inv l next
        else line_parts l = [] ∧ is_last_word_space l = true
  end.

End spec.
End LineSpec.

(** ** The lines of a block *)

Module FlowSpec.
Section spec.
Context `{EXT : Externals}.
Import PDFTextBase.

(** Every committed line that is no longer the current line, that is,
    every line that was closed by wrapping, is as [wrapped_ok] says. *)
Definition frozen_ok (s : t) : Prop :=
  ∀ l, Frozen l ∈ lines s → LineSpec.wrapped_ok l.

(** [s'] has the lines and the current line of [s]. *)
Definition same_lines (s s' : t) : Prop :=
  lines s' = lines s ∧ current_line s' = current_line s.


End spec.
End FlowSpec.

(** The line feed character. *)
Definition newline : ascii := ascii_of_nat 10.

(** The characters of a string. *)
Definition chars (s : string) : list ascii := list_ascii_of_string s.

(** ** The tokens of a text string *)

Module TokenSpec.

(** [s] with every run of blanks reduced to one blank; [in_space] tells
    that a blank was just kept. *)
Fixpoint squeeze (s : string) (in_space : bool) : string :=
  match s with
  | EmptyString => EmptyString
  | String ch rest =>
      if Ascii.eqb ch " " then
        if in_space then squeeze rest true else String " " (squeeze rest true)
      else String ch (squeeze rest false)
  end.

(** The only whitespace of [s] is the blank. *)
Definition blank_only (s : string) : Prop :=
  Forall (fun ch => PDFTextLine.isspace_char ch = true → ch = " "%char) (chars s).

(** What a token of a text string is: the blank, or a word without one. *)
Definition token_ok (w : string) : Prop :=
  w ≠ ""%string
  ∧ (w = " "%string ∨ (PDFTextLine.isspace w = false ∧ " "%char ∉ chars w)).

(** The comprehension of [add_part] on the pieces of [re.split]. *)
Definition tok (pieces : list string) : list string :=
  map (fun w => if PDFTextLine.isspace w then " "%string else w)
      (filter (fun w => w ≠ ""%string) pieces).

(** A run of blanks. *)
Definition blanks (s : string) : Prop := Forall (fun ch => ch = " "%char) (chars s).

End TokenSpec.

(** ** The anchors of a scope of rich text *)

Module ParseSpec.

(** The anchor a key of a scope gives, when it holds a string. *)
Definition tag_id (prefix : string) (v : option pyval) : list string :=
  match v with
  | Some (VStr s) => [prefix +:+ s]
  | _ => []
  end.

(** The anchors of a scope, in the order the parser adds them. *)
Definition tag_ids (content : list (string * pyval)) : list string :=
  tag_id "$label:" (assoc "label" content)
  ++ tag_id "$ref:" (assoc "ref" content)
  ++ tag_id "$uri:" (assoc "uri" content).

(** The key is absent, or holds [None] or a string. *)
Definition tag_ok (v : option pyval) : Prop :=
  match v with
  | None | Some VNone | Some (VStr _) => True
  | Some _ => False
  end.

(** A string the parser takes whole: not empty, and without line break. *)
Definition plain (s : string) : Prop := s ≠ ""%string ∧ newline ∉ chars s.

End ParseSpec.

(** ** The accounts of a line part *)

Module PartSpec.
Section spec.
Context `{EXT : Externals}.
Import PDFTextLinePart.

(** The widths of the words of [ws] that are not the space, summed. *)
Fixpoint words_width (p : t) (ws : list string) : result Q :=
  match ws with
  | [] => Ok 0%Q
  | w :: rest =>
      if String.eqb w " " then words_width p rest
      else x ← get_word_width p w; r ← words_width p rest; Ok (x + r)%Q
  end.

(** The number of space tokens of [ws]. *)
Fixpoint spaces (ws : list string) : nat :=
  match ws with
  | [] => 0
  | w :: rest => (if String.eqb w " " then 1 else 0) + spaces rest
  end.

(** [width] is the sum of the widths of the words and [spaces_width] the
    width of a space times the number of spaces. *)
Definition accounted (p : t) : Prop :=
  ∃ W, words_width p (words p) = Ok W
    ∧ (width p == W)%Q
    ∧ (spaces_width p == inject_Z (Z.of_nat (spaces (words p))) * space_width p)%Q.

(** A call of [add_word] or of [pop_word]. *)
Inductive call :=
| Add (word : string)
| Pop (index : option Z).

(** The part after a sequence of calls. *)
Fixpoint after (p : t) (calls : list call) : result t :=
  match calls with
  | [] => Ok p
  | Add word :: rest => p ← add_word p word; after p rest
  | Pop index :: rest => '(_, p) ← pop_word p index; after p rest
  end.

End spec.
End PartSpec.

(** ** The words of a line, and what a layout call keeps *)

Module RunSpec.
Section spec.
Context `{EXT : Externals}.

(** The tokens of the pending buffer of a line. *)
Definition pending (l : PDFTextLine.t) : list string :=
  match PDFTextLine.next_line l with
  | Some next => LineSpec.tokens next
  | None => []
  end.

(** The line does not start with whitespace. *)
Definition lead (l : PDFTextLine.t) : Prop :=
  ∀ w rest, LineSpec.tokens l = w :: rest → PDFTextLine.isspace w = false.

(** A part that holds words only, no whitespace token. *)
Definition words_only (p : PDFTextLinePart.t) : Prop :=
  Forall (fun w => PDFTextLine.isspace w = false) (PDFTextLinePart.words p).

(** What [add_line_part] and [add_word] keep of the start of a line: the
    pending buffer holds words only, a started line starts with a word, and
    a line that has seen its first word has it pending. *)
Definition lead_inv (l : PDFTextLine.t) : Prop :=
  match PDFTextLine.next_line l with
  | None => PDFTextLine.firstWordAdded l = false
  | Some next =>
      Forall words_only (PDFTextLine.line_parts next)
      ∧ if PDFTextLine.started l then LineSpec.tokens l ≠ [] ∧ lead l
        else PDFTextLine.firstWordAdded l = true → LineSpec.tokens next ≠ []
  end.

(** The font [(family, mode)] is in the table. *)
Definition font_known (fonts : fonts_t) (fm : string * string) : Prop :=
  ∃ family entry, fonts !! fm.1 = Some family ∧ family !! fm.2 = Some entry.

(** A line and its pending buffer read the table [fonts]. *)
Definition line_fonts (fonts : fonts_t) (l : PDFTextLine.t) : Prop :=
  PDFTextLine.fonts l = fonts
  ∧ match PDFTextLine.next_line l with
    | Some next => PDFTextLine.fonts next = fonts
    | None => True
    end.

Import PDFTextBase.

(** [s'] is [s] in all that is not the streams, the anchors and the
    cursor of the emission. *)
Definition layout_same (s s' : t) : Prop :=
  fonts s' = fonts s ∧ used_fonts s' = used_fonts s
  ∧ width s' = width s ∧ height s' = height s ∧ x s' = x s ∧ y s' = y s
  ∧ indent s' = indent s ∧ text_align s' = text_align s
  ∧ line_height s' = line_height s ∧ list_text s' = list_text s
  ∧ list_indent s' = list_indent s ∧ list_style s' = list_style s
  ∧ last_part_index s' = last_part_index s
  ∧ last_word_index s' = last_word_index s ∧ content s' = content s
  ∧ finished s' = finished s ∧ list_setup_done s' = list_setup_done s
  ∧ lines s' = lines s ∧ current_height s' = current_height s
  ∧ current_line_used_fonts s' = current_line_used_fonts s
  ∧ current_line s' = current_line s ∧ list_state s' = list_state s.

(** [add_part] up to its loop over the words: the new line part, the list
    marker set up on first use, and the font of the part noted. *)
Definition open_part (self : t) (part : part_dict) : result t :=
  let style := Style.update TEXT_DEFAULTS (default (p_style part) Style.empty) in
  '(new_line_part, line) ← PDFTextLine.add_line_part (current_line self)
                              style (p_ids part);
  let self := set_current_line self line in
  self ← (if negb (list_setup_done self) && truthy (list_text self)
          then setup_list (set_list_setup_done self true)
          else Ok self);
  let st := PDFTextLinePart.state new_line_part in
  Ok (set_current_line_used_fonts self
        (current_line_used_fonts self
           ∪ {[ (PDFState.font_family st, PDFState.font_mode st) ]})).

(** The fonts noted as used are in the table, which the current line and
    its pending buffer read. *)
Definition fonts_inv (tbl : fonts_t) (s : t) : Prop :=
  fonts s = tbl
  ∧ line_fonts tbl (current_line s)
  ∧ ∀ fm, fm ∈ used_fonts s ∪ current_line_used_fonts s → font_known tbl fm.

(** The lines listed and the current line start with a word. *)
Definition lead_state (s : t) : Prop :=
  (∀ l, Frozen l ∈ lines s → lead l)
  ∧ LineSpec.inv (current_line s)
  ∧ lead_inv (current_line s).

(** The height used is within the height [h] of the block. *)
Definition within_height (h : Q) (s : t) : Prop :=
  (current_height s <= height s)%Q ∧ height s = h.

(** The fonts noted are in the table [tbl] and include [before]. *)
Definition fonts_state (tbl : fonts_t) (before : gset (string * string)) (s : t)
  : Prop :=
  fonts_inv tbl s ∧ before ⊆ used_fonts s.

(** The cursor is at the start of a part, or where [self] has it. *)
Definition cursor_state (self s : t) : Prop :=
  last_word_index s = 0%nat
  ∨ (last_word_index s = last_word_index self
     ∧ last_part_index s = last_part_index self).

(** A style that asks for no underline and no background. *)
Definition plain_style (st : Style.t) : Prop :=
  default (Style.u st) false = false
  ∧ color_is_none (PDFColor_of (default (Style.bg st) VNone)) = true.

(** A line part without underline and background, and of such a style. *)
Definition plain_part (p : PDFTextLinePart.t) : Prop :=
  plain_style (PDFTextLinePart.style p)
  ∧ PDFTextLinePart.underline p = false
  ∧ color_is_none (PDFTextLinePart.background p) = true.

Definition plain_line (l : PDFTextLine.t) : Prop :=
  Forall plain_part (PDFTextLine.line_parts l)
  ∧ match PDFTextLine.next_line l with
    | Some next => Forall plain_part (PDFTextLine.line_parts next)
    | None => True
    end.

(** No part of the content asks for an underline or a background, the
    default style counted in. *)
Definition plain_content (content : list part) : Prop :=
  ∀ d, Dict d ∈ content →
       plain_style (Style.update TEXT_DEFAULTS (default (p_style d) Style.empty)).

(** Nothing is drawn, and nothing is there to draw. *)
Definition plain_state (s : t) : Prop :=
  graphics s = ""%string
  ∧ plain_line (current_line s)
  ∧ plain_content (content s).

End spec.
End RunSpec.

(** * Proofs *)

#[local] Set Warnings "-clear-no-such-hyp".

(** ** Numbers, lists and strings *)

Lemma Qltb_true (x y : Q) : Qltb x y = true ↔ (x < y)%Q.
Proof.
  unfold Qltb. rewrite negb_true_iff. split.
  - intros Hb. apply Qnot_le_lt. intros Hle. apply Qle_bool_iff in Hle. congruence.
  - intros Hlt. destruct (Qle_bool y x) eqn:E; [|done].
    apply Qle_bool_iff in E. apply Qle_not_lt in E. contradiction.
Qed.


Lemma list_pop_last {A} (l : list A) (x : A) :
  list_pop (l ++ [x]) (-1) = Ok (x, l).
Proof.
  unfold list_pop. rewrite length_app. simpl.
  replace (-1 <? 0)%Z with true by reflexivity.
  replace (-1 + Z.of_nat (length l + 1))%Z with (Z.of_nat (length l)) by lia.
  replace ((Z.of_nat (length l) <? 0)%Z) with false by (symmetry; apply Z.ltb_ge; lia).
  replace ((Z.of_nat (length l + 1) <=? Z.of_nat (length l))%Z) with false
    by (symmetry; apply Z.leb_gt; lia).
  simpl. rewrite Nat2Z.id.
  rewrite lookup_app_r by lia. rewrite Nat.sub_diag. simpl.
  rewrite take_app_length. rewrite drop_ge by (rewrite length_app; simpl; lia).
  by rewrite app_nil_r.
Qed.

Lemma split_last_snoc {A} (l : list A) (x : A) : split_last (l ++ [x]) = Some (l, x).
Proof. induction l as [|y l IH]; simpl; [done|]. by rewrite IH. Qed.

Lemma split_last_Some {A} (l front : list A) (x : A) :
  split_last l = Some (front, x) → l = front ++ [x].
Proof.
  revert front. induction l as [|y l IH]; intros front; simpl; [done|].
  destruct (split_last l) as [[f z]|] eqn:E.
  - intros [= <- <-]. simpl. f_equal. by apply IH.
  - intros [= <- <-]. destruct l; [done|]. simpl in E.
    by destruct (split_last l) as [[??]|].
Qed.

Lemma append_empty_r (piece : string) : piece +:+ "" = piece.
Proof.
  induction piece as [|a piece IH]; [reflexivity|].
  change (String a (piece +:+ "") = String a piece). by rewrite IH.
Qed.

Lemma append_snoc (piece : string) (ch : ascii) (pre : string) :
  (piece +:+ String ch "") +:+ pre = piece +:+ String ch pre.
Proof.
  induction piece as [|a piece IH]; [reflexivity|].
  change (String a ((piece +:+ String ch "") +:+ pre)
          = String a (piece +:+ String ch pre)).
  by rewrite IH.
Qed.

(** ** [PDFState.compare] *)

Module PDFStateFacts.
Section facts.
Context `{EXT : Externals}.
Import PDFState PDFStateSpec.





End facts.
End PDFStateFacts.

(** ** [PDFTextLinePart] *)

Module LinePartFacts.
Section facts.
Context `{EXT : Externals}.
Import PDFTextLinePart.

Lemma sum_widths_same (p q : t) (w : string) (acc : Q) :
  fonts p = fonts q → state p = state q →
  sum_widths p acc w = sum_widths q acc w.
Proof.
  intros Hf Hs. revert acc. induction w as [|ch w IH]; intros acc; simpl; [done|].
  unfold get_char_width. rewrite Hf, Hs.
  destruct (char_width (fonts q) (state q) ch); simpl; [apply IH|done].
Qed.

Lemma get_word_width_same (p q : t) (w : string) :
  fonts p = fonts q → state p = state q →
  get_word_width p w = get_word_width q w.
Proof. apply sum_widths_same. Qed.

(** C10. When the font table covers the characters of [w], [add_word(w)]
    then [pop_word()] returns [w] and leaves the words, the word width and
    the spaces width of the part as they were, and every other attribute
    too. *)
Theorem add_word_pop_word (p : t) (w : string) (x : Q) :
  get_word_width p w = Ok x →
  ∃ p1 p2,
    add_word p w = Ok p1
    ∧ pop_word p1 None = Ok (Some w, p2)
    ∧ words p2 = words p
    ∧ (width p2 == width p)%Q
    ∧ (spaces_width p2 == spaces_width p)%Q
    ∧ fonts p2 = fonts p ∧ style p2 = style p ∧ state p2 = state p
    ∧ underline p2 = underline p ∧ background p2 = background p
    ∧ ids p2 = ids p ∧ space_width p2 = space_width p.
Proof.
  intros Hx. unfold add_word, pop_word.
  destruct (String.eqb w " ") eqn:Ew.
  - eexists _, _. split; [reflexivity|]. cbn [words set_spaces_width set_words].
    destruct (words p ++ [w]) eqn:El; [by destruct (words p)|]. rewrite <- El.
    rewrite list_pop_last. cbn. rewrite Ew. split; [reflexivity|]. cbn.
    repeat split; ring.
  - rewrite (get_word_width_same _ p) by done. rewrite Hx. cbn.
    eexists _, _. split; [reflexivity|]. cbn [words set_width set_words].
    destruct (words p ++ [w]) eqn:El; [by destruct (words p)|]. rewrite <- El.
    rewrite list_pop_last. cbn. rewrite Ew.
    rewrite (get_word_width_same _ p) by done. rewrite Hx. cbn.
    split; [reflexivity|]. cbn. repeat split; ring.
Qed.

Lemma init_fresh style fonts ids p :
  init style fonts ids = Ok p →
  words p = [] ∧ width p = 0%Q ∧ spaces_width p = 0%Q.
Proof.
  unfold init.
  destruct (PDFState.init style fonts) as [st|]; [|done]. simpl.
  destruct (char_width fonts st " ") as [sw|]; [|done]. simpl.
  by intros [= <-].
Qed.

Lemma add_space p : add_word p " " = Ok (LineSpec.spaced p).
Proof. reflexivity. Qed.

Lemma add_nonspace p w p' :
  w ≠ " "%string → add_word p w = Ok p' →
  words p' = words p ++ [w] ∧ spaces_width p' = spaces_width p.
Proof.
  intros Hw. unfold add_word.
  apply String.eqb_neq in Hw. rewrite Hw.
  destruct (get_word_width _ w) as [x|]; [|done]. simpl.
  by intros [= <-].
Qed.

Lemma pop_space p ws0 :
  words p = ws0 ++ [" "%string] →
  pop_word p (Some (-1)%Z)
  = Ok (Some " "%string,
        set_spaces_width (set_words p ws0) (spaces_width p - space_width p)%Q).
Proof.
  intros Hws. unfold pop_word. rewrite Hws.
  destruct (ws0 ++ [" "%string]) eqn:El; [by destruct ws0|]. rewrite <- El.
  simpl default. rewrite list_pop_last. reflexivity.
Qed.

End facts.
End LinePartFacts.

(** ** [PDFTextLine]: the invariant of the wrapper *)

Module LineFacts.
Section facts.
Context `{EXT : Externals}.
Import PDFTextLine LineSpec.

Lemma widths_loop_sums parts a b :
  ((widths_loop parts a b).1 == a + sumW parts)%Q
  ∧ ((widths_loop parts a b).2 == b + sumS parts)%Q.
Proof.
  revert a b. induction parts as [|p parts IH]; intros a b; simpl.
  - split; ring.
  - destruct (IH (a + PDFTextLinePart.width p)%Q
                 (b + PDFTextLinePart.spaces_width p)%Q) as [-> ->].
    split; ring.
Qed.

Lemma get_widths_sums l :
  ((get_widths l).1 == sumW (line_parts l))%Q
  ∧ ((get_widths l).2 == sumS (line_parts l))%Q.
Proof.
  unfold get_widths. destruct (widths_loop_sums (line_parts l) 0 0) as [-> ->].
  split; ring.
Qed.

Lemma sumW_app ps qs : (sumW (ps ++ qs) == sumW ps + sumW qs)%Q.
Proof. induction ps as [|p ps IH]; simpl; [ring|]. rewrite IH. ring. Qed.

Lemma sumS_app ps qs : (sumS (ps ++ qs) == sumS ps + sumS qs)%Q.
Proof. induction ps as [|p ps IH]; simpl; [ring|]. rewrite IH. ring. Qed.

Lemma sums_snoc front lp :
  (sumW (front ++ [lp]) == sumW front + PDFTextLinePart.width lp)%Q
  ∧ (sumS (front ++ [lp]) == sumS front + PDFTextLinePart.spaces_width lp)%Q.
Proof. rewrite sumW_app, sumS_app. simpl. split; ring. Qed.

Lemma toks_app ps qs : toks (ps ++ qs) = toks ps ++ toks qs.
Proof. unfold toks. by rewrite map_app, concat_app. Qed.

Lemma toks_snoc front lp :
  toks (front ++ [lp]) = toks front ++ PDFTextLinePart.words lp.
Proof. rewrite toks_app. unfold toks at 2. simpl. by rewrite app_nil_r. Qed.

Lemma sumS_pend_ok ps : Forall pend_ok ps → (sumS ps == 0)%Q.
Proof.
  induction 1 as [|p ps [Hp _] _ IH]; simpl; [reflexivity|]. rewrite Hp, IH. ring.
Qed.

Lemma toks_pend_ok ps : Forall pend_ok ps → " "%string ∉ toks ps.
Proof.
  induction 1 as [|p ps [_ Hp] _ IH]; simpl; [apply not_elem_of_nil|].
  unfold toks. simpl. rewrite elem_of_app. tauto.
Qed.

Lemma min_width_sums l :
  (min_width l == sumW (line_parts l) + sumS (line_parts l) * factor l)%Q.
Proof.
  unfold min_width. destruct (get_widths_sums l) as [-> ->]. reflexivity.
Qed.

Lemma init_pend_ok style fonts ids p :
  PDFTextLinePart.init style fonts ids = Ok p → pend_ok p.
Proof.
  intros Hp. destruct (LinePartFacts.init_fresh _ _ _ _ Hp) as (Hw & _ & Hs).
  split; [by rewrite Hs|]. rewrite Hw. apply not_elem_of_nil.
Qed.

Lemma claimed_bound_b_spec f l : claimed_bound f l ↔ claimed_bound_b f l = true.
Proof.
  unfold claimed_bound, claimed_bound_b.
  rewrite orb_true_iff, Qle_bool_iff. split.
  - intros [H|(w & -> & H)]; [by left|right]. by apply Qltb_true.
  - intros [H|H]; [by left|right].
    destruct (tokens l) as [|w [|]]; try done.
    exists w. split; [done|]. by apply Qltb_true.
Qed.

Lemma isspace_not_space w : isspace w = false → w ≠ " "%string.
Proof. intros Hw ->. discriminate Hw. Qed.

Lemma inv_init fonts mw ta lh tm : inv (init fonts mw ta lh tm).
Proof. by unfold inv. Qed.

Lemma inv_add_line_part l style ids p l' :
  inv l → add_line_part l style ids = Ok (p, l') → inv l'.
Proof.
  unfold add_line_part. intros Hinv.
  destruct (PDFTextLinePart.init style (fonts l) ids) as [q|] eqn:Eq; [|done].
  simpl. intros [= <- <-].
  pose proof (init_pend_ok _ _ _ _ Eq) as Hq.
  destruct (LinePartFacts.init_fresh _ _ _ _ Eq) as (Hqw & HqW & HqS).
  unfold inv in *. simpl.
  destruct (next_line l) as [next|]; simpl.
  - destruct Hinv as (Hok & Hst & Hil & Hrest).
    split; [apply Forall_app; split; [done|by constructor]|].
    do 2 (split; [done|]).
    destruct (started l); [|done].
    destruct Hrest as (Hcl & H4 & H5). split; [exact Hcl|].
    unfold tokens in *. simpl. rewrite toks_app. unfold toks at 2 4. simpl.
    rewrite Hqw, !app_nil_r. split; [done|].
    intros Hne. rewrite sumW_app. simpl. rewrite HqW. specialize (H5 Hne).
    unfold factor in *. simpl. lra.
  - destruct Hinv as (Hp & Hst & Hil). rewrite Hst.
    split; [by constructor|]. done.
Qed.

Lemma add_accumulated_spec l next l' :
  next_line l = Some next → add_accumulated l = Ok l' →
  ∃ front lp fresh,
    line_parts l ++ line_parts next = front ++ [lp]
    ∧ pend_ok fresh ∧ PDFTextLinePart.words fresh = []
    ∧ l' = set_next_line (set_line_parts l (front ++ [spaced lp]))
                         (Some (set_line_parts next [fresh])).
Proof.
  intros Hn. unfold add_accumulated. rewrite Hn.
  destruct (split_last (line_parts l ++ line_parts next)) as [[front lp]|] eqn:Es;
    [|done].
  apply split_last_Some in Es. rewrite LinePartFacts.add_space. simpl.
  destruct (PDFTextLinePart.init _ _ _) as [fresh|] eqn:Ef; [|done]. simpl.
  intros [= <-]. exists front, lp, fresh.
  split; [done|]. split; [by eapply init_pend_ok|].
  split; [by eapply LinePartFacts.init_fresh|]. done.
Qed.

(** Joining the pending words keeps the invariant, when the line starts
    with them or when they passed the width test. *)
Lemma inv_accumulate l next l' :
  next_line l = Some next →
  Forall pend_ok (line_parts next) →
  started next = false → is_last_word_space next = true →
  started l = true →
  (line_parts l = [] ∨ (started_inv l next ∧ is_last_word_space l = false)) →
  add_accumulated l = Ok l' → inv l'.
Proof.
  intros Hn Hok Hst Hil Hstarted Hcase Hacc.
  destruct (add_accumulated_spec _ _ _ Hn Hacc)
    as (front & lp & fresh & Hsplit & Hfresh & Hfw & ->).
  unfold inv. simpl. split; [by constructor|]. do 2 (split; [done|]).
  rewrite Hstarted.
  pose proof (sumS_pend_ok _ Hok) as HS0.
  pose proof (f_equal sumW Hsplit) as HW. pose proof (f_equal sumS Hsplit) as HS.
  pose proof (sumW_app (line_parts l) (line_parts next)) as HWa.
  pose proof (sumS_app (line_parts l) (line_parts next)) as HSa.
  destruct (sums_snoc front lp) as [HWs HSs].
  destruct (sums_snoc front (spaced lp)) as [HWs' HSs']. simpl in HWs', HSs'.
  rewrite HW in HWa. rewrite HS in HSa.
  split; [|split].
  - exists front, (spaced lp), (PDFTextLinePart.words lp).
    simpl. do 2 (split; [done|]).
    intros Hlast. rewrite <- toks_snoc, <- Hsplit, toks_app in Hlast |- *.
    destruct Hcase as [Hnil|[Hsi Hnl]].
    + left. rewrite Hnil. simpl. by apply toks_pend_ok.
    + right. destruct Hsi as ((front0 & lp0 & ws0 & H1 & H2 & H3) & H4 & H5).
      destruct (toks (line_parts next)) as [|tk tks] eqn:Et.
      * exfalso. apply Hlast. rewrite app_nil_r, H1, toks_snoc, H2, app_assoc.
        apply last_snoc.
      * assert (tokens next ≠ []) as Hne by (unfold tokens; by rewrite Et).
        specialize (H5 Hne). unfold factor in *. simpl.
        set (f := if negb (text_align l =? "j")%string then 1%Q
                  else justify_min_factor l) in *.
        rewrite HWs', HSs'. rewrite HWs in HWa. rewrite HSs in HSa.
        rewrite HS0 in HSa.
        assert (sumS front + (PDFTextLinePart.spaces_width lp
                              + PDFTextLinePart.space_width lp)
                - PDFTextLinePart.space_width lp == sumS (line_parts l))%Q as ->
          by lra.
        lra.
  - intros _. unfold tokens, toks. simpl. by rewrite Hfw.
  - intros Hne. exfalso. apply Hne. unfold tokens, toks. simpl. by rewrite Hfw.
Qed.

Lemma pend_word_spec next w next' :
  w ≠ " "%string → Forall pend_ok (line_parts next) →
  pend_word next w = Ok next' →
  Forall pend_ok (line_parts next')
  ∧ tokens next' = tokens next ++ [w]
  ∧ started next' = started next
  ∧ is_last_word_space next' = is_last_word_space next.
Proof.
  intros Hw Hok. unfold pend_word.
  destruct (split_last (line_parts next)) as [[front lp]|] eqn:Es; [|done].
  apply split_last_Some in Es.
  destruct (PDFTextLinePart.add_word lp w) as [lp'|] eqn:Ea; [|done]. simpl.
  intros [= <-]. destruct (LinePartFacts.add_nonspace _ _ _ Hw Ea) as [Hws Hsp].
  rewrite Es in Hok. apply Forall_app in Hok as [Hfront Hlp].
  apply Forall_singleton in Hlp as [Hlp1 Hlp2].
  unfold tokens. simpl. rewrite Es, !toks_snoc, Hws, app_assoc.
  split; [|done].
  apply Forall_app. split; [done|]. apply Forall_singleton. split.
  - by rewrite Hsp.
  - rewrite Hws, elem_of_app, list_elem_of_singleton. intros [?|?]; [done|].
    by apply Hw.
Qed.

(** Closing a line drops its last space and hands the pending words to a
    fresh next line. *)
Lemma finish_line_spec l next nw st l' :
  closable l →
  finish_line l next nw = Ok (st, l') →
  ∃ nl, st = finished nl
    ∧ wrapped_ok l'
    ∧ line_parts nl = [] ∧ started nl = started next
    ∧ is_last_word_space nl = is_last_word_space next
    ∧ ∃ buffer, next_line nl = Some buffer
        ∧ line_parts buffer = line_parts next
        ∧ started buffer = false ∧ is_last_word_space buffer = true.
Proof.
  intros (front & lp & ws0 & H1 & H2 & H3). unfold finish_line.
  rewrite H1, split_last_snoc, H2, last_snoc. simpl String.eqb. cbv iota.
  rewrite (LinePartFacts.pop_space _ _ H2). simpl.
  intros [= <- <-]. eexists. split; [reflexivity|]. simpl.
  split; [|eauto 10].
  unfold wrapped_ok, ends_with_space, no_space, width_bound, tokens. simpl.
  rewrite toks_snoc. simpl. intros Hlast. destruct (H3 Hlast) as [Hns|Hb]; [by left|].
  right.
  match goal with |- context [get_widths ?x] =>
    destruct (get_widths_sums x) as [-> ->] end. simpl.
  unfold factor in *. simpl.
  set (f := if negb (text_align l =? "j")%string then 1%Q
            else justify_min_factor l) in *.
  match goal with |- context [sumW (front ++ [?x])] =>
    destruct (sums_snoc front x) as [-> ->] end. simpl.
  rewrite H1 in Hb. destruct (sums_snoc front lp) as [HW HS].
  rewrite HW, HS in Hb.
  assert (sumS front + PDFTextLinePart.spaces_width lp
          - PDFTextLinePart.space_width lp
          == sumS front + (PDFTextLinePart.spaces_width lp
                           - PDFTextLinePart.space_width lp))%Q as Heq by ring.
  rewrite Heq in Hb. exact Hb.
Qed.

(** [add_word] keeps the invariant; the line it closes is within its
    width, and the line it hands back satisfies the invariant. *)
Lemma inv_add_word l w nw st l' :
  inv l → add_word l w nw = Ok (st, l') →
  match st with
  | finished nl => wrapped_ok l' ∧ inv nl
  | _ => inv l'
  end.
Proof.
  intros Hinv. unfold add_word.
  destruct (next_line l) as [next|] eqn:Hn; [|done].
  unfold inv in Hinv. rewrite Hn in Hinv.
  destruct Hinv as (Hok & Hst & Hil & Hrest).
  destruct (started l) eqn:Hstarted; simpl.
  - destruct (isspace w) eqn:Hsp.
    + destruct (is_last_word_space l) eqn:Hlast.
      * intros [= <- <-]. unfold inv. rewrite Hn, Hstarted. done.
      * destruct (add_accumulated l) as [l1|] eqn:Ea; [|done]. simpl.
        intros [= <- <-]. eapply inv_accumulate; eauto.
    + apply isspace_not_space in Hsp.
      destruct (pend_word next w) as [next'|] eqn:Ep; [|done]. simpl.
      destruct (pend_word_spec _ _ _ Hsp Hok Ep) as (Hok' & Htok & Hst' & Hil').
      destruct Hrest as (Hcl & H4 & H5).
      assert (closable (set_next_line (set_is_last_word_space l false)
                                      (Some next'))) as Hcl'.
      { destruct Hcl as (front & lp & ws0 & H1 & H2 & H3).
        by exists front, lp, ws0. }
      destruct (Qltb _ _) eqn:Eq.
      * intros [= <- <-]. apply Qltb_true in Eq. simpl in Eq.
        unfold inv. simpl. rewrite Hst', Hil', Hstarted.
        do 3 (split; [done|]). split; [exact Hcl'|]. split; [done|].
        intros _. rewrite !min_width_sums in Eq. simpl in Eq.
        rewrite (sumS_pend_ok _ Hok') in Eq. unfold factor in *. simpl in *. lra.
      * intros Hfin.
        destruct (finish_line_spec _ _ _ _ _ Hcl' Hfin)
          as (nl & -> & Hw & Hnl1 & Hnl2 & Hnl3 & buffer & Hb1 & Hb2 & Hb3 & Hb4).
        split; [done|]. unfold inv. rewrite Hb1, Hb2, Hnl2, Hst', Hst.
        rewrite Hnl3, Hil'. done.
  - destruct Hrest as [Hparts Hilws].
    destruct (isspace w) eqn:Hsp.
    + destruct (firstWordAdded l) eqn:Hfwa.
      * destruct (add_accumulated _) as [l1|] eqn:Ea; [|done]. simpl.
        intros [= <- <-]. eapply inv_accumulate; [| | | | |left|exact Ea]; eauto.
      * intros [= <- <-]. unfold inv. rewrite Hn, Hstarted. done.
    + apply isspace_not_space in Hsp.
      destruct (pend_word next w) as [next'|] eqn:Ep; [|done]. simpl.
      destruct (pend_word_spec _ _ _ Hsp Hok Ep) as (Hok' & Htok & Hst' & Hil').
      intros [= <- <-]. unfold inv. simpl. rewrite Hst', Hil', Hstarted. done.
Qed.

End facts.
End LineFacts.

(** ** [PDFTextBase]: committing and emitting lines *)

Module FlowFacts.
Section facts.
Context `{EXT : Externals}.
Import PDFTextBase FlowSpec.

(** C7. When the current line does not fit the height left,
    [add_current_line] returns [False] without raising, and the object is
    unchanged: its lines, cumulative height, text and graphics streams and
    used fonts, as every other attribute, are what they were. *)
Theorem add_current_line_overflow (self : t) (is_last : bool) :
  (height self
   < PDFTextLine.height (current_line self) * line_height self
     + current_height self)%Q →
  ∃ s', add_current_line self is_last = Ok (false, s')
    ∧ s' = self
    ∧ lines s' = lines self ∧ current_height s' = current_height self
    ∧ text s' = text self ∧ graphics s' = graphics self
    ∧ used_fonts s' = used_fonts self ∧ finished s' = finished self.
Proof.
  intros Hover. unfold add_current_line.
  apply Qltb_true in Hover. rewrite Hover. by exists self.
Qed.

Lemma same_lines_trans s1 s2 s3 :
  same_lines s1 s2 → same_lines s2 s3 → same_lines s1 s3.
Proof. intros [??] [??]. split; congruence. Qed.

Lemma output_text_frame s part f str s' :
  output_text s part f = Ok (str, s') → same_lines s s'.
Proof.
  unfold output_text. unfold mbind, result_bind.
  destruct (PDFState.compare _ _); [|done].
  destruct (Qopt_neb _ _); intros [= <- <-]; done.
Qed.

Lemma output_graphics_frame s part x y w g s' :
  output_graphics s part x y w = (g, s') → same_lines s s'.
Proof.
  unfold output_graphics.
  repeat (case_match; simplify_eq/=); intros; simplify_eq/=; done.
Qed.

Lemma emit_parts_frame parts : ∀ s x f s',
  emit_parts s parts x f = Ok s' → same_lines s s'.
Proof.
  induction parts as [|part parts IH]; intros s x f s'; simpl.
  - by intros [= <-].
  - unfold mbind, result_bind.
    destruct (output_text s part f) as [[str s1]|] eqn:Eo; [|done].
    apply output_text_frame in Eo.
    destruct (output_graphics _ _ _ _ _) as [g s2] eqn:Eg.
    apply output_graphics_frame in Eg. intros Hrest. apply IH in Hrest.
    eapply same_lines_trans; [exact Eo|].
    eapply same_lines_trans; [|exact Hrest].
    destruct Eg as [Eg1 Eg2]. split; [exact Eg1|exact Eg2].
Qed.

Lemma position_line_frame s line s' x flh fw :
  position_line s line = Ok (s', x, flh, fw) → same_lines s s'.
Proof.
  unfold position_line. unfold mbind, result_bind.
  repeat (case_match; simplify_eq/=); intros; simplify_eq/=; done.
Qed.

Lemma add_line_to_stream_frame s line il s' :
  add_line_to_stream s line il = Ok s' → same_lines s s'.
Proof.
  unfold add_line_to_stream. unfold mbind, result_bind.
  destruct (position_line s line) as [[[[s1 x] flh] fw]|] eqn:Ep; [|done].
  apply position_line_frame in Ep. intros He. apply emit_parts_frame in He.
  eapply same_lines_trans; [exact Ep|]. exact He.
Qed.

Lemma setup_list_frame s s' : setup_list s = Ok s' → same_lines s s'.
Proof.
  unfold setup_list. unfold mbind, result_bind.
  repeat (case_match; simplify_eq/=); intros; simplify_eq/=; done.
Qed.

Lemma add_current_line_frame s il b s' :
  add_current_line s il = Ok (b, s') →
  current_line s' = current_line s
  ∧ (lines s' = lines s ∨ lines s' = lines s ++ [Current]).
Proof.
  unfold add_current_line. destruct (Qltb _ _).
  - intros [= <- <-]. auto.
  - unfold mbind, result_bind.
    destruct (add_line_to_stream _ _ _) as [s1|] eqn:Ea; [|done].
    apply add_line_to_stream_frame in Ea as [Hl Hc]. intros [= <- <-].
    simpl in *. rewrite Hl, Hc. auto.
Qed.

Lemma frozen_ok_add_current_line s il b s' :
  frozen_ok s → add_current_line s il = Ok (b, s') → frozen_ok s'.
Proof.
  intros Hok Ha. apply add_current_line_frame in Ha as [_ [Hl|Hl]];
    unfold frozen_ok; rewrite Hl; [done|].
  intros l. rewrite elem_of_app, list_elem_of_singleton.
  intros [Hin|?]; [by apply Hok|done].
Qed.

Lemma frozen_ok_replace s nl :
  frozen_ok s → LineSpec.wrapped_ok (current_line s) →
  frozen_ok (replace_current_line s nl).
Proof.
  intros Hok Hcur l. unfold replace_current_line. simpl.
  rewrite list_elem_of_fmap. intros ([l0|] & [= ->] & Hin); [by apply Hok|done].
Qed.

Lemma words_loop_inv words : ∀ s part_index n word_index b s',
  frozen_ok s → LineSpec.inv (current_line s) →
  words_loop s part_index n words word_index = Ok (b, s') →
  frozen_ok s' ∧ LineSpec.inv (current_line s').
Proof.
  induction words as [|word words IH]; intros s pi n wi b s' Hok Hinv; simpl.
  - by intros [= <- <-].
  - unfold mbind, result_bind.
    destruct (number (list_indent s)) as [li|]; [|done].
    destruct (PDFTextLine.add_word _ _ _) as [[st line]|] eqn:Ea; [|done].
    pose proof (LineFacts.inv_add_word _ _ _ _ _ Hinv Ea) as Hst.
    destruct st as [| | |nl].
    + apply IH; done.
    + apply IH; done.
    + apply IH; done.
    + destruct Hst as [Hw Hnl].
      destruct (add_current_line _ _) as [[c s1]|] eqn:Ec; [|done].
      pose proof (frozen_ok_add_current_line _ _ _ _
                    (Hok : frozen_ok (set_current_line s line)) Ec) as Hok1.
      apply add_current_line_frame in Ec as [Hc _]. simpl in Hc.
      assert (frozen_ok (replace_current_line s1 nl)) as Hok2.
      { apply frozen_ok_replace; [done|by rewrite Hc]. }
      destruct c.
      * apply IH; done.
      * by intros [= <- <-].
Qed.

Lemma add_part_inv s part part_index b s' :
  frozen_ok s → LineSpec.inv (current_line s) →
  add_part s part part_index = Ok (b, s') →
  frozen_ok s' ∧ LineSpec.inv (current_line s').
Proof.
  intros Hok Hinv. unfold add_part.
  destruct (p_text part) as [words|]; [|by intros [= <- <-]].
  destruct words as [str|l|]; [| |by intros [= <- <-]].
  all: unfold mbind, result_bind.
  all: destruct (PDFTextLine.add_line_part _ _ _) as [[lp line]|] eqn:Ea; [|done].
  all: pose proof (LineFacts.inv_add_line_part _ _ _ _ _ Hinv Ea) as Hinv1.
  all: destruct (if negb (list_setup_done (set_current_line s line))
                      && truthy (list_text (set_current_line s line))
                 then setup_list (set_list_setup_done (set_current_line s line) true)
                 else Ok (set_current_line s line)) as [s1|] eqn:Es; [|done].
  all: assert (same_lines (set_current_line s line) s1) as Hsame
    by (destruct (negb _ && _); [by apply setup_list_frame in Es
                                |by injection Es as <-]).
  all: destruct Hsame as [Hl Hc]; simpl in Hl, Hc.
  all: intros Hloop; apply words_loop_inv in Hloop; [done| |].
  all: try (intros l0; simpl; rewrite Hl; apply Hok).
  all: simpl; by rewrite Hc.
Qed.

Lemma parts_loop_inv indices : ∀ s b s',
  frozen_ok s → LineSpec.inv (current_line s) →
  parts_loop s indices = Ok (b, s') →
  frozen_ok s' ∧ LineSpec.inv (current_line s').
Proof.
  induction indices as [|i indices IH]; intros s b s' Hok Hinv; simpl.
  - by intros [= <- <-].
  - destruct (content s !! i) as [[|part]|]; [done| |done].
    destruct (p_type part) as [ty|].
    + destruct (String.eqb ty "br").
      * unfold mbind, result_bind.
        destruct (add_current_line s false) as [[c s1]|] eqn:Ec; [|done].
        pose proof (frozen_ok_add_current_line _ _ _ _ Hok Ec) as Hok1.
        apply add_current_line_frame in Ec as [Hc _].
        destruct c.
        -- apply IH; [done|]. simpl. by rewrite Hc.
        -- intros [= <- <-]. by rewrite Hc.
      * by apply IH.
    + unfold mbind, result_bind.
      destruct (add_part s part i) as [[c s1]|] eqn:Ep; [|done].
      apply add_part_inv in Ep as [Hok1 Hinv1]; [|done..].
      destruct c; [by apply IH|by intros [= <- <-]].
Qed.

(** C1, in the form that holds of the code. Every line that a layout call has committed and closed
    by wrapping (every committed line but the one still open when the call
    returns) is narrower than its [max_width], its spaces counted at the
    factor the wrapper tests with (1, or 0.7 when justifying), unless it
    holds no space token at all, being its first group of words placed
    unsplit, or still ends with a space token. *)
Theorem run_wrapped_lines_fit (self : t) (fin : bool) (s : t) :
  run self = Ok (fin, s) →
  ∀ l, Frozen l ∈ lines s → LineSpec.wrapped_ok l.
Proof.
  unfold run, mbind, result_bind.
  destruct (init self) as [s0|] eqn:Ei; [|done].
  assert (frozen_ok s0 ∧ LineSpec.inv (current_line s0)) as [Hok Hinv].
  { revert Ei. unfold init, mbind, result_bind.
    destruct (number _); [|done]. intros [= <-]. simpl. split.
    - intros l Hin. by apply elem_of_nil in Hin.
    - apply LineFacts.inv_init. }
  destruct (parts_loop _ _) as [[c s1]|] eqn:Ep; [|done].
  apply parts_loop_inv in Ep as [Hok1 Hinv1]; [|done..].
  destruct c; [|by intros [= <- <-]].
  destruct (add_current_line s1 true) as [[c s2]|] eqn:Ec; [|done].
  pose proof (frozen_ok_add_current_line _ _ _ _ Hok1 Ec) as Hok2.
  destruct c; by intros [= <- <-].
Qed.



End facts.
End FlowFacts.

(** ** [PDFText]: a string with an embedded line break *)

Module ParseFacts.
Section facts.
Context `{EXT : Externals}.
Import PDFText.

Lemma split_lines_break (pre post piece : string) :
  newline ∉ list_ascii_of_string pre →
  split_lines (pre +:+ String newline post) piece
  = (piece +:+ pre) :: split_lines post "".
Proof.
  revert piece. induction pre as [|ch pre IH]; intros piece Hn; simpl.
  - by rewrite append_empty_r.
  - simpl in Hn. apply not_elem_of_cons in Hn as [Hne Hn].
    destruct (Ascii.eqb_spec ch (ascii_of_nat 10)) as [->|_];
      [exfalso; apply Hne; reflexivity|].
    rewrite IH by done. by rewrite append_snoc.
Qed.

Lemma split_lines_nonempty s piece : split_lines s piece ≠ [].
Proof.
  revert piece. induction s as [|ch s IH]; intros piece; simpl; [done|].
  destruct (Ascii.eqb ch _); [done|apply IH].
Qed.

(** C5, on the code. A content string with an embedded line break does
    not parse: once its first line is stored, the parser reaches for
    [self.elements], which does not exist, and [AttributeError] escapes.
    No break marker is produced and no segment after the break is built. *)
Theorem embedded_break_raises (pdf : option (pyval → string)) (fonts : fonts_t)
    (pre post : string) (upd1 upd2 : Style.t) :
  parse_style_str "" fonts = Ok upd1 →
  process_style None (match pdf with Some _ => true | None => false end) = Ok upd2 →
  newline ∉ list_ascii_of_string pre →
  _recursive_content_parse pdf fonts (mkParser [] [])
    (VStr (pre +:+ String newline post)) TEXT_DEFAULTS []
  = Raise AttributeError.
Proof.
  intros H1 H2 Hpre. unfold _recursive_content_parse.
  cbn -[TEXT_DEFAULTS Style.update split_lines String.app].
  destruct pdf as [ctx|]; cbn -[TEXT_DEFAULTS Style.update split_lines String.app];
    rewrite H1; cbn -[TEXT_DEFAULTS Style.update split_lines String.app];
    unfold parse_elements; cbn -[TEXT_DEFAULTS Style.update split_lines String.app];
    rewrite H2; cbn -[TEXT_DEFAULTS Style.update split_lines String.app].
  all: unfold element_step.
  all: assert ((pre +:+ String newline post =? "")%string = false) as ->
    by (destruct pre; reflexivity).
  all: cbn -[TEXT_DEFAULTS Style.update split_lines String.app].
  all: rewrite split_lines_break by done.
  all: destruct (split_lines post "") eqn:Es; [by apply split_lines_nonempty in Es|].
  all: reflexivity.
Qed.

End facts.
End ParseFacts.

(** ** [PDF.create_text] *)

Module PDFFacts.
Section facts.
Context `{EXT : Externals}.
Import PDF.

Lemma init_margins_length (ms ms' : list Q) :
  init_margins ms = Ok ms' → length ms' = 4%nat.
Proof.
  destruct ms as [|a [|b [|c [|d ms]]]]; simpl; intros Heq; by inversion Heq.
Qed.

Lemma init_margins_kept page_size fonts ms ta lh self :
  init page_size fonts ms ta lh = Ok self → length (margins self) = 4%nat.
Proof.
  unfold init. destruct page_size as [pw ph].
  destruct (init_margins ms) as [ms'|] eqn:Em; [|done].
  apply init_margins_length in Em.
  destruct ms' as [|a [|b [|c [|d [|]]]]]; try done. simpl.
  intros Heq. by inversion Heq.
Qed.

(** C9. On every document that [PDF.__init__] has built, every call of
    [create_text], and so of [text], raises [TypeError], whatever the
    content and the other arguments: binding the call
    [PDFText(content, self.fonts_data, **style)] gives [width] the font
    table by position and a second value by keyword. *)
Theorem create_text_raises_TypeError page_size fonts ms ta lh (self : t)
    (content : pyval) (width_ height_ : option Q) (text_align_ : option string)
    (line_height_ : option Q) (indent : Q) (move : string) :
  init page_size fonts ms ta lh = Ok self →
  create_text self content width_ height_ text_align_ line_height_ indent
    = Raise TypeError
  ∧ text self content width_ height_ text_align_ line_height_ indent move
    = Raise TypeError
  ∧ ∃ style,
      default_text_style self width_ height_ text_align_ line_height_ indent
        = Ok style
      ∧ assoc "width" style ≠ None
      ∧ bind_positional PDFText_params [AValue content; AFonts (fonts_data self)]
        = Ok [("content"%string, AValue content);
              ("width"%string, AFonts (fonts_data self))]
      ∧ bind_call PDFText_params PDFText_required
          [AValue content; AFonts (fonts_data self)] style = Raise TypeError.
Proof.
  intros Hinit. apply init_margins_kept in Hinit.
  assert (∃ style,
      default_text_style self width_ height_ text_align_ line_height_ indent
        = Ok style
      ∧ assoc "width" style ≠ None
      ∧ bind_positional PDFText_params [AValue content; AFonts (fonts_data self)]
        = Ok [("content"%string, AValue content);
              ("width"%string, AFonts (fonts_data self))]
      ∧ bind_call PDFText_params PDFText_required
          [AValue content; AFonts (fonts_data self)] style = Raise TypeError)
    as (style & Hs & Hw & Hp & Hb).
  { unfold default_text_style, nth_margin.
    destruct (margins self) as [|a [|b [|c [|d [|]]]]]; try done.
    destruct width_, height_; eexists; (split; [reflexivity|]); done. }
  assert (create_text self content width_ height_ text_align_ line_height_ indent
          = Raise TypeError) as Hc.
  { unfold create_text. rewrite Hs. simpl. by rewrite Hb. }
  split; [done|]. split; [|eauto]. unfold text. by rewrite Hc.
Qed.

End facts.
End PDFFacts.

(** * Scenarios on the fixture *)

Module Scenarios.
Import Fixture.

(** C1 on the fixture: "AA B CCCCC" wrapped at 30pt. *)
Lemma run_wrapped_lines_fit_witness :
  match PDFTextBase.run (block [part10 (TStr "AA B CCCCC")] 30 1000 "l") with
  | Ok (fin, s) =>
      (fin = true
       ∧ map shown (PDFTextBase.committed_lines s) = [[["AA"; " "]; ["B"]]; []]%string
       ∧ length (PDFTextBase.lines s) = 2%nat)
      ∧ ∀ l, PDFTextBase.Frozen l ∈ PDFTextBase.lines s → LineSpec.wrapped_ok l
  | Raise _ => False
  end.
Proof.
  pose proof (FlowFacts.run_wrapped_lines_fit
                (block [part10 (TStr "AA B CCCCC")] 30 1000 "l")) as Hfit.
  assert (match PDFTextBase.run (block [part10 (TStr "AA B CCCCC")] 30 1000 "l") with
          | Ok (fin, s) =>
              fin = true
              ∧ map shown (PDFTextBase.committed_lines s)
                = [[["AA"; " "]; ["B"]]; []]%string
              ∧ length (PDFTextBase.lines s) = 2%nat
          | Raise _ => False
          end) as Hrun by (vm_compute; auto).
  destruct (PDFTextBase.run _) as [[fin s]|e]; [|exact Hrun].
  split; [exact Hrun|]. exact (Hfit fin s eq_refl).
Defined.

(** C1 as the specification words it fails at factor 1 (left alignment): a word
    of two parts, and a last line with its trailing space. *)
Lemma committed_line_wider_than_max_width :
  match PDFTextBase.run (block [part10 (TStr "AAA"); part10 (TStr "BBB CC")]
                               30 1000 "l") with
  | Ok (_, s) =>
      match PDFTextBase.committed_lines s !! 0%nat with
      | Some l =>
          PDFTextBase.ignore_factor s l false = true
          ∧ LineSpec.tokens l = ["AAA"; "BBB"]%string
          ∧ ¬ LineSpec.claimed_bound 1 l
      | None => False
      end
  | Raise _ => False
  end
  ∧ match PDFTextBase.run (block [part10 (TStr "AA B ")] 29 1000 "l") with
    | Ok (_, s) =>
        match PDFTextBase.committed_lines s !! 0%nat with
        | Some l =>
            PDFTextBase.ignore_factor s l false = true
            ∧ LineSpec.tokens l = ["AA"; " "; "B"; " "]%string
            ∧ ¬ LineSpec.claimed_bound 1 l
        | None => False
        end
    | Raise _ => False
    end.
Proof.
  split.
  - assert (match PDFTextBase.run (block [part10 (TStr "AAA"); part10 (TStr "BBB CC")]
                                         30 1000 "l") with
            | Ok (_, s) =>
                match PDFTextBase.committed_lines s !! 0%nat with
                | Some l =>
                    PDFTextBase.ignore_factor s l false = true
                    ∧ LineSpec.tokens l = ["AAA"; "BBB"]%string
                    ∧ LineSpec.claimed_bound_b 1 l = false
                | None => False
                end
            | Raise _ => False
            end) as H by (vm_compute; auto).
    destruct (PDFTextBase.run _) as [[fin s]|e]; [|exact H].
    destruct (PDFTextBase.committed_lines s !! 0%nat) as [l|]; [|exact H].
    destruct H as (H1 & H2 & H3). split; [exact H1|]. split; [exact H2|].
    rewrite LineFacts.claimed_bound_b_spec, H3. discriminate.
  - assert (match PDFTextBase.run (block [part10 (TStr "AA B ")] 29 1000 "l") with
            | Ok (_, s) =>
                match PDFTextBase.committed_lines s !! 0%nat with
                | Some l =>
                    PDFTextBase.ignore_factor s l false = true
                    ∧ LineSpec.tokens l = ["AA"; " "; "B"; " "]%string
                    ∧ LineSpec.claimed_bound_b 1 l = false
                | None => False
                end
            | Raise _ => False
            end) as H by (vm_compute; auto).
    destruct (PDFTextBase.run _) as [[fin s]|e]; [|exact H].
    destruct (PDFTextBase.committed_lines s !! 0%nat) as [l|]; [|exact H].
    destruct H as (H1 & H2 & H3). split; [exact H1|]. split; [exact H2|].
    rewrite LineFacts.claimed_bound_b_spec, H3. discriminate.
Qed.


(** C2, on the code: "AAAA BBBB" at 30pt commits two lines and finishes,
    already with a budget of one line height; the first line shows "AAAA",
    the second shows nothing: "BBBB" stays in the pending buffer and is
    never written to the text stream. *)
Lemma scenario_last_word_is_not_committed :
  outcome_of (PDFTextBase.run (block [part10 (TStr "AAAA BBBB")] 30 1000 "l"))
  = Some {| o_finished := true;
            o_lines := [[["AAAA"]]; []];
            o_closed := [true; false];
            o_pending := [["BBBB"]];
            o_cursor := (1%nat, 0%nat);
            o_text := " 0 -10 Td /F1 10 Tf 0.100 g 0 Ts 0 Tw (AAAA)Tj 0 -0 Td" |}
  ∧ outcome_of (PDFTextBase.run (block [part10 (TStr "AAAA BBBB")] 30 22 "l"))
    = outcome_of (PDFTextBase.run (block [part10 (TStr "AAAA BBBB")] 30 1000 "l"))
  ∧ outcome_of (PDFTextBase.run (block [part10 (TStr "AAAA BBBB")] 30 11 "l"))
    = outcome_of (PDFTextBase.run (block [part10 (TStr "AAAA BBBB")] 30 1000 "l")).
Proof.
  split; [vm_compute; reflexivity|]. split; vm_compute; reflexivity.
Qed.

(** C4, on the code: with a budget of 5 against a first line of height 11
    the call returns false with no line committed, but the cursor has
    moved past the only part; the next call, with a budget of 1000, lays
    out no word at all and reports the block finished. *)
Lemma overflow_moves_the_cursor :
  outcome_of (PDFTextBase.run (block [part10 (TStr "AAAA BBBB")] 30 5 "l"))
  = Some {| o_finished := false;
            o_lines := [];
            o_closed := [];
            o_pending := [["BBBB"]];
            o_cursor := (1%nat, 0%nat);
            o_text := "" |}
  ∧ outcome_of
      ('(_, s) ← PDFTextBase.run (block [part10 (TStr "AAAA BBBB")] 30 5 "l");
       PDFTextBase.run (PDFTextBase.setup s None None None (Some 1000%Q)))
    = Some {| o_finished := true;
              o_lines := [[]];
              o_closed := [false];
              o_pending := [];
              o_cursor := (1%nat, 0%nat);
              o_text := " 0 -0 Td" |}
  ∧ outcome_of (PDFTextBase.run (block [part10 (TStr "AAAA")] 30 5 "l"))
    = Some {| o_finished := true;
              o_lines := [[]];
              o_closed := [false];
              o_pending := [["AAAA"]];
              o_cursor := (1%nat, 0%nat);
              o_text := " 0 -0 Td" |}.
Proof.
  split; [vm_compute; reflexivity|]. split; vm_compute; reflexivity.
Qed.

(** C6, on the code: on a started line a second space after a word is
    added, not ignored; [is_last_word_space] is never set again once a
    word has cleared it. *)
Lemma second_space_is_added :
  fed_summary ["A"; " "; "B"; " "; " "]%string
  = Some (["added"; "added"; "preadded"; "added"; "added"],
          ["A"; " "; "B"; " "; " "], false)%string
  ∧ fed_summary ["A"; " "; " "]%string
    = Some (["added"; "added"; "ignored"], ["A"; " "], true)%string
  ∧ outcome_of (PDFTextBase.run
                  (block [part10 (TList ["A"; " "; "B"; " "; " "; "C"]%string)]
                         1000 1000 "l"))
    = Some {| o_finished := true;
              o_lines := [[["A"; " "]; ["B"; " "]; [" "]]];
              o_closed := [false];
              o_pending := [["C"]];
              o_cursor := (1%nat, 0%nat);
              o_text := " 0 -10 Td /F1 10 Tf 0.100 g 0 Ts 0 Tw (A )Tj (B )Tj ( )Tj" |}.
Proof.
  split; [vm_compute; reflexivity|]. split; vm_compute; reflexivity.
Qed.

(** C5 on the fixture, and the same input through the
    constructor: the content "a", line break, "b". *)
Lemma embedded_break_raises_witness :
  PDFText._recursive_content_parse None fonts (PDFText.mkParser [] [])
    (VStr ("a" +:+ String newline "b")) TEXT_DEFAULTS [] = Raise AttributeError
  ∧ PDFText.new None fonts (VStr ("a" +:+ String newline "b")) None None 0 0
      None None 0 None (Some 0%Q) LSNone = Raise AttributeError.
Proof.
  assert (PDFText._recursive_content_parse None fonts (PDFText.mkParser [] [])
            (VStr ("a" +:+ String newline "b")) TEXT_DEFAULTS []
          = Raise AttributeError) as H.
  { apply (ParseFacts.embedded_break_raises None fonts "a" "b"
             Style.empty Style.empty); [reflexivity|reflexivity|].
    vm_compute. intros Hin. inversion Hin as [|? ? ? Hin']; inversion Hin'. }
  split; [exact H|]. unfold PDFText.new. by rewrite H.
Defined.

(** C10 on the fixture: the word "AB" on a fresh part of size 10. *)
Lemma add_word_pop_word_witness :
  PDFTextLinePart.get_word_width fresh10 "AB" = Ok (0 + 10 * 600 / 1000 + 10 * 600 / 1000)%Q
  ∧ ∃ p1 p2,
      PDFTextLinePart.add_word fresh10 "AB" = Ok p1
      ∧ PDFTextLinePart.pop_word p1 None = Ok (Some "AB"%string, p2)
      ∧ PDFTextLinePart.words p2 = PDFTextLinePart.words fresh10
      ∧ (PDFTextLinePart.width p2 == PDFTextLinePart.width fresh10)%Q
      ∧ (PDFTextLinePart.spaces_width p2 == PDFTextLinePart.spaces_width fresh10)%Q
      ∧ PDFTextLinePart.fonts p2 = PDFTextLinePart.fonts fresh10
      ∧ PDFTextLinePart.style p2 = PDFTextLinePart.style fresh10
      ∧ PDFTextLinePart.state p2 = PDFTextLinePart.state fresh10
      ∧ PDFTextLinePart.underline p2 = PDFTextLinePart.underline fresh10
      ∧ PDFTextLinePart.background p2 = PDFTextLinePart.background fresh10
      ∧ PDFTextLinePart.ids p2 = PDFTextLinePart.ids fresh10
      ∧ PDFTextLinePart.space_width p2 = PDFTextLinePart.space_width fresh10.
Proof.
  assert (PDFTextLinePart.get_word_width fresh10 "AB"
          = Ok (0 + 10 * 600 / 1000 + 10 * 600 / 1000)%Q) as Hw
    by (vm_compute; reflexivity).
  split; [exact Hw|].
  exact (LinePartFacts.add_word_pop_word fresh10 "AB" _ Hw).
Defined.

(** C7 on the fixture: a line holding "AAAA " of size 10 against a budget
    of 5. *)
Lemma add_current_line_overflow_witness :
  let self := PDFTextBase.set_current_line (block [] 30 5 "l")
                (line_fed ["AAAA"; " "]%string) in
  shown (PDFTextBase.current_line self) = [["AAAA"; " "]]%string
  ∧ ∃ s', PDFTextBase.add_current_line self true = Ok (false, s')
      ∧ s' = self
      ∧ PDFTextBase.lines s' = PDFTextBase.lines self
      ∧ PDFTextBase.current_height s' = PDFTextBase.current_height self
      ∧ PDFTextBase.text s' = PDFTextBase.text self
      ∧ PDFTextBase.graphics s' = PDFTextBase.graphics self
      ∧ PDFTextBase.used_fonts s' = PDFTextBase.used_fonts self
      ∧ PDFTextBase.finished s' = PDFTextBase.finished self.
Proof.
  intros self. split; [vm_compute; reflexivity|].
  apply FlowFacts.add_current_line_overflow. vm_compute. reflexivity.
Defined.

(** C9 on the fixture: the default document and the content ["hello"]. *)
Lemma create_text_raises_TypeError_witness :
  PDF.init page fonts [margin] "l" (11 # 10) = Ok pdf
  ∧ PDF.create_text pdf (VStr "hello") None None None None 0 = Raise TypeError
  ∧ PDF.text pdf (VStr "hello") None None None None 0 "bottom" = Raise TypeError.
Proof.
  assert (PDF.init page fonts [margin] "l" (11 # 10) = Ok pdf) as Hinit
    by reflexivity.
  split; [exact Hinit|].
  destruct (PDFFacts.create_text_raises_TypeError page fonts [margin] "l" (11 # 10)
              pdf (VStr "hello") None None None None 0 "bottom" Hinit)
    as (H1 & H2 & _).
  split; [exact H1|exact H2].
Defined.
End Scenarios.

(** ** Strings and tokens *)

Module TokenFacts.
Import TokenSpec.

Lemma chars_app (a b : string) : chars (a +:+ b) = chars a ++ chars b.
Proof.
  induction a as [|ch a IH]; [reflexivity|].
  change (ch :: chars (a +:+ b) = ch :: (chars a ++ chars b)). by rewrite IH.
Qed.

Lemma split_lines_whole (s piece : string) :
  newline ∉ chars s → split_lines s piece = [piece +:+ s].
Proof.
  revert piece. induction s as [|ch s IH]; intros piece Hs; simpl.
  - by rewrite append_empty_r.
  - simpl in Hs. apply not_elem_of_cons in Hs as [Hne Hs].
    destruct (Ascii.eqb_spec ch (ascii_of_nat 10)) as [->|_];
      [exfalso; apply Hne; reflexivity|].
    rewrite IH by done. by rewrite append_snoc.
Qed.

Lemma tok_cons (p : string) (ps : list string) :
  tok (p :: ps)
  = (if decide (p ≠ ""%string)
     then [if PDFTextLine.isspace p then " "%string else p] else []) ++ tok ps.
Proof. unfold tok. rewrite filter_cons. by destruct (decide (p ≠ ""%string)). Qed.

Lemma blanks_snoc (p : string) : blanks p → blanks (p +:+ " ").
Proof.
  unfold blanks. rewrite chars_app. intros H. apply Forall_app. split; [done|].
  by repeat constructor.
Qed.

Lemma all_space_blanks (p : string) : blanks p → PDFTextLine.all_space p = true.
Proof.
  induction p as [|ch p IH]; [done|]. unfold blanks. simpl.
  intros H. apply Forall_cons in H as [-> H]. simpl. by apply IH.
Qed.

Lemma isspace_blanks (p : string) :
  blanks p → p ≠ ""%string → PDFTextLine.isspace p = true.
Proof. destruct p; [done|]. intros H _. by apply all_space_blanks in H. Qed.

Lemma isspace_word (p : string) (ch : ascii) :
  PDFTextLine.isspace_char ch = false → ch ∈ chars p → PDFTextLine.isspace p = false.
Proof.
  intros Hch Hin.
  assert (PDFTextLine.all_space p = false) as H.
  { induction p as [|c p IH]; [by apply elem_of_nil in Hin|].
    simpl in Hin. apply elem_of_cons in Hin as [<-|Hin]; simpl.
    - by rewrite Hch.
    - rewrite IH by done. apply andb_false_r. }
  destruct p; [done|exact H].
Qed.

Lemma isspace_free (p : string) :
  Forall (fun ch => PDFTextLine.isspace_char ch = false) (chars p) →
  PDFTextLine.isspace p = false.
Proof.
  destruct p as [|c p]; [done|]. intros Hp. apply Forall_cons in Hp as [Hc _].
  apply (isspace_word _ c Hc). simpl. left.
Qed.

Lemma not_blank_not_space (ch : ascii) :
  (PDFTextLine.isspace_char ch = true → ch = " "%char) → ch ≠ " "%char →
  PDFTextLine.isspace_char ch = false.
Proof.
  intros H Hne. destruct (PDFTextLine.isspace_char ch); [by destruct Hne; apply H|done].
Qed.

(** The pieces of the scan are runs of blanks or free of blanks. *)
Lemma scan_pieces (s piece : string) (in_space : bool) :
  (if in_space then blanks piece else " "%char ∉ chars piece) →
  Forall (fun p => blanks p ∨ " "%char ∉ chars p) (re_split_scan s piece in_space).
Proof.
  revert piece in_space. induction s as [|ch s IH]; intros piece in_space Hp; simpl.
  - destruct in_space.
    + constructor; [by left|]. constructor; [|done]. left. constructor.
    + constructor; [by right|done].
  - destruct (Ascii.eqb_spec ch " ") as [->|Hne], in_space.
    + apply IH. by apply blanks_snoc.
    + constructor; [by right|]. apply IH. by repeat constructor.
    + constructor; [by left|]. apply IH. simpl.
      rewrite list_elem_of_singleton. congruence.
    + apply IH. rewrite chars_app, elem_of_app. intros [?|Hin]; [done|].
      apply list_elem_of_singleton in Hin. congruence.
Qed.

(** X7. The tokens [add_part] cuts a text string into are never empty, and a
    token is the blank or a word that holds no blank: a run of blanks, and
    any piece made of whitespace only, has become one blank. *)
Theorem tokenize_tokens (s : string) : Forall token_ok (tokenize s).
Proof.
  unfold tokenize. change (Forall token_ok (tok (re_split_spaces s))).
  pose proof (scan_pieces s "" false (not_elem_of_nil _)) as H.
  unfold re_split_spaces. induction H as [|p ps Hp _ IH]; [constructor|].
  rewrite tok_cons. destruct (decide (p ≠ ""%string)) as [Hne|_]; [|exact IH].
  simpl. constructor; [|exact IH].
  destruct (PDFTextLine.isspace p) eqn:Esp.
  - split; [done|by left].
  - split; [done|]. right. split; [done|].
    destruct Hp as [Hb|Hn]; [|done]. by rewrite isspace_blanks in Esp.
Qed.

Lemma join_tok_cons (p : string) (ps : list string) :
  PDFTextBase.join_words (tok (p :: ps))
  = (if PDFTextLine.isspace p then " "%string else p)
    +:+ PDFTextBase.join_words (tok ps).
Proof.
  rewrite tok_cons. destruct (decide (p ≠ ""%string)) as [Hne|He]; [reflexivity|].
  destruct p; [reflexivity|]. by destruct He.
Qed.

Lemma join_tok_scan (s piece : string) (in_space : bool) :
  blank_only s →
  (if in_space then blanks piece ∧ piece ≠ ""%string
   else Forall (fun ch => PDFTextLine.isspace_char ch = false) (chars piece)) →
  PDFTextBase.join_words (tok (re_split_scan s piece in_space))
  = (if in_space then " "%string else piece) +:+ squeeze s in_space.
Proof.
  revert piece in_space. induction s as [|ch s IH]; intros piece in_space Hs Hp; simpl.
  - destruct in_space.
    + destruct Hp as [Hb Hne]. rewrite join_tok_cons, (isspace_blanks _ Hb Hne).
      reflexivity.
    + rewrite join_tok_cons, (isspace_free _ Hp). reflexivity.
  - unfold blank_only in Hs. simpl in Hs. apply Forall_cons in Hs as [Hch Hs].
    destruct (Ascii.eqb_spec ch " ") as [->|Hne], in_space.
    + destruct Hp as [Hb Hne]. rewrite IH; [done|done|].
      split; [by apply blanks_snoc|by destruct piece].
    + rewrite join_tok_cons, (isspace_free _ Hp).
      rewrite (IH " "%string true); [reflexivity|done|by repeat constructor].
    + destruct Hp as [Hb Hne']. rewrite join_tok_cons, (isspace_blanks _ Hb Hne').
      rewrite (IH (String ch "") false); [reflexivity|done|].
      repeat constructor. by apply not_blank_not_space.
    + rewrite IH; [by rewrite append_snoc|done|].
      rewrite chars_app. apply Forall_app. split; [done|].
      repeat constructor. by apply not_blank_not_space.
Qed.

(** X8. When the blank is the only whitespace of a text string, its tokens
    joined give the string back with every run of blanks reduced to one
    blank: tokenising loses nothing else. *)
Theorem tokenize_join (s : string) :
  blank_only s → PDFTextBase.join_words (tokenize s) = squeeze s false.
Proof.
  intros Hs. unfold tokenize.
  change (PDFTextBase.join_words (tok (re_split_spaces s)) = squeeze s false).
  unfold re_split_spaces. rewrite join_tok_scan; [reflexivity|done|constructor].
Qed.

(** X8 on the words "ab", two blanks, "c". *)
Lemma tokenize_join_witness :
  tokenize "ab  c" = ["ab"; " "; "c"]%string
  ∧ PDFTextBase.join_words (tokenize "ab  c") = "ab c"%string.
Proof.
  split; [reflexivity|].
  apply (tokenize_join "ab  c").
  repeat constructor; intros H; vm_compute in H; discriminate H.
Defined.

End TokenFacts.

(** ** [PDFState.__init__] *)

Module StateFacts.
Section facts.
Context `{EXT : Externals}.
Import PDFState.

(** X1. On a style whose entries are of the types a style has here,
    [PDFState.__init__] raises nothing but [KeyError], and raises it
    exactly when the style lacks one of the keys [f], [s] and [c] or names
    a family that the font table does not have. Otherwise the state takes
    the family and the size of the style, its rise is the rise of the style
    times the size, and its mode is one of [n], [b], [i] and [bi], the mode
    [n] standing in for a mode that the family does not have; so the font of
    the state is in the table whenever the family has the mode [n]. *)
Theorem init_state (style : Style.t) (fonts : fonts_t) :
  match init style fonts with
  | Ok st =>
      ∃ family,
        Style.f style = Some (font_family st)
        ∧ Style.s style = Some (size st)
        ∧ (∃ c, Style.c style = Some c ∧ color st = PDFColor_of c)
        ∧ fonts !! font_family st = Some family
        ∧ PDFState.fonts st = fonts
        ∧ (rise st == default (Style.r style) 0 * size st)%Q
        ∧ font_mode st ∈ ["n"; "b"; "i"; "bi"]%string
        ∧ (family !! font_mode st = None →
           font_mode st = "n"%string ∧ font_ref st = Raise KeyError)
        ∧ (is_Some (family !! "n"%string) → ∃ r, font_ref st = Ok r)
  | Raise e =>
      e = KeyError
      ∧ (Style.f style = None ∨ Style.s style = None ∨ Style.c style = None
         ∨ ∃ fam, Style.f style = Some fam ∧ fonts !! fam = None)
  end.
Proof.
  unfold init, mbind, result_bind.
  destruct (Style.f style) as [fam|]; simpl; [|by auto].
  destruct (fonts !! fam) as [family|] eqn:Ef; simpl; [|by eauto 10].
  destruct (Style.s style) as [sz|]; simpl; [|by auto].
  destruct (Style.c style) as [c|]; simpl; [|by auto 10].
  exists family. do 2 (split; [done|]). split; [by eauto|].
  do 2 (split; [done|]). split; [reflexivity|].
  unfold font_ref. simpl. rewrite Ef. simpl.
  set (requested := (if (_ =? "")%string then _ else _)).
  assert (requested ∈ ["n"; "b"; "i"; "bi"]%string) as Hreq.
  { subst requested. destruct (default (Style.b style) false),
      (default (Style.i style) false); simpl; set_solver. }
  destruct (family !! requested) as [entry|] eqn:Em.
  - split; [done|]. rewrite Em. split; [done|]. simpl. eauto.
  - split; [set_solver|]. split.
    + intros Hn. rewrite Hn. done.
    + intros [entry Hn]. rewrite Hn. simpl. eauto.
Qed.

End facts.
End StateFacts.

(** ** [PDFTextLinePart]: widths and accounts *)

Module PartFacts.
Section facts.
Context `{EXT : Externals}.
Import PDFTextLinePart PartSpec.

Lemma sum_widths_shift (p : t) (w : string) (acc acc' : Q) :
  match sum_widths p acc w, sum_widths p acc' w with
  | Ok a, Ok b => (a - acc == b - acc')%Q
  | Raise e, Raise e' => e = e'
  | _, _ => False
  end.
Proof.
  revert acc acc'. induction w as [|ch w IH]; intros acc acc'; simpl.
  - ring.
  - destruct (get_char_width p ch) as [x|e]; simpl; [|done].
    specialize (IH (acc + x)%Q (acc' + x)%Q).
    destruct (sum_widths p (acc + x) w), (sum_widths p (acc' + x) w); try done.
    lra.
Qed.

Lemma sum_widths_app (p : t) (a b : string) (acc : Q) :
  sum_widths p acc (a +:+ b) = (x ← sum_widths p acc a; sum_widths p x b).
Proof.
  revert acc. induction a as [|ch a IH]; intros acc; [reflexivity|].
  change (sum_widths p acc (String ch (a +:+ b))
          = (x ← sum_widths p acc (String ch a); sum_widths p x b)).
  simpl. destruct (get_char_width p ch) as [x|e]; simpl; [apply IH|done].
Qed.

(** X2. The width of a word is additive: when the font table covers the
    characters of two strings, the width of their concatenation is the sum
    of their widths; and it is covered exactly when both are. *)
Theorem get_word_width_app (p : t) (a b : string) :
  match get_word_width p (a +:+ b) with
  | Ok z =>
      ∃ x y, get_word_width p a = Ok x ∧ get_word_width p b = Ok y
        ∧ (z == x + y)%Q
  | Raise e => get_word_width p a = Raise e
               ∨ (∃ x, get_word_width p a = Ok x) ∧ get_word_width p b = Raise e
  end.
Proof.
  unfold get_word_width. rewrite sum_widths_app. unfold mbind, result_bind.
  destruct (sum_widths p 0 a) as [x|e]; [|by left].
  pose proof (sum_widths_shift p b x 0) as H.
  destruct (sum_widths p x b) as [z|e], (sum_widths p 0 b) as [y|e']; try done.
  - exists x, y. do 2 (split; [done|]). lra.
  - right. subst e'. eauto.
Qed.

(** X3. The width a part says it would have with one more word is the width it
    has once the word is added, at every factor. *)
Theorem tentative_width_add_word (p p' : t) (w : string) (f : Q) :
  add_word p w = Ok p' →
  ∃ x, tentative_width p w f = Ok x ∧ (x == current_width p' f)%Q.
Proof.
  unfold add_word, tentative_width, current_width.
  destruct (String.eqb w " ").
  - intros [= <-]. simpl. eexists. split; [reflexivity|]. ring.
  - rewrite (LinePartFacts.get_word_width_same _ p) by done.
    destruct (get_word_width p w) as [x|]; simpl; [|done].
    intros [= <-]. simpl. eexists. split; [reflexivity|]. ring.
Qed.

Lemma words_width_same (p q : t) (ws : list string) :
  fonts p = fonts q → state p = state q → words_width p ws = words_width q ws.
Proof.
  intros Hf Hs. induction ws as [|w ws IH]; simpl; [done|].
  rewrite IH, (LinePartFacts.get_word_width_same p q) by done. done.
Qed.

Lemma words_width_app (p : t) (l1 l2 : list string) :
  match words_width p (l1 ++ l2) with
  | Ok W => ∃ W1 W2, words_width p l1 = Ok W1 ∧ words_width p l2 = Ok W2
                     ∧ (W == W1 + W2)%Q
  | Raise _ => ∀ W1 W2, ¬ (words_width p l1 = Ok W1 ∧ words_width p l2 = Ok W2)
  end.
Proof.
  induction l1 as [|w l1 IH]; simpl.
  - destruct (words_width p l2) as [W|e].
    + exists 0%Q, W. do 2 (split; [done|]). ring.
    + intros W1 W2 [_ ?]. done.
  - destruct (String.eqb w " "); [exact IH|].
    unfold mbind, result_bind.
    destruct (get_word_width p w) as [x|e]; [|by intros ?? [? _]].
    destruct (words_width p (l1 ++ l2)) as [W|e].
    + destruct IH as (W1 & W2 & -> & -> & HW).
      exists (x + W1)%Q, W2. do 2 (split; [done|]). lra.
    + intros W1 W2 [H1 H2].
      destruct (words_width p l1) as [V1|]; [|done].
      by apply (IH V1 W2).
Qed.

Lemma spaces_app (l1 l2 : list string) : spaces (l1 ++ l2) = (spaces l1 + spaces l2)%nat.
Proof. induction l1 as [|w l1 IH]; simpl; [done|]. rewrite IH. lia. Qed.

Lemma list_pop_split {A} (l : list A) (index : Z) (x : A) (rest : list A) :
  list_pop l index = Ok (x, rest) →
  ∃ l1 l2, l = l1 ++ x :: l2 ∧ rest = l1 ++ l2.
Proof.
  unfold list_pop.
  destruct (_ || _)%bool; [done|].
  set (k := Z.to_nat _).
  destruct (l !! k) as [y|] eqn:Ek; [|done].
  intros [= <- <-]. exists (take k l), (drop (S k) l). split; [|done].
  by rewrite <- (take_drop_middle l k y) at 1.
Qed.

Lemma list_pop_raises {A} (l : list A) (index : Z) (e : exn) :
  list_pop l index = Raise e → e = IndexError.
Proof.
  unfold list_pop. destruct (_ || _)%bool; [congruence|].
  destruct (l !! _); [done|congruence].
Qed.

Lemma accounted_init style fonts ids p : init style fonts ids = Ok p → accounted p.
Proof.
  intros Hp. destruct (LinePartFacts.init_fresh _ _ _ _ Hp) as (Hw & HW & HS).
  exists 0%Q. rewrite Hw, HW, HS. simpl. split; [done|]. split; ring.
Qed.

Lemma accounted_add_word p w p' : accounted p → add_word p w = Ok p' → accounted p'.
Proof.
  intros (W & HW & Hw & Hs). unfold add_word.
  pose proof (words_width_app p (words p) [w]) as Happ.
  destruct (String.eqb w " ") eqn:Ew.
  - intros [= <-]. unfold accounted. simpl.
    rewrite (words_width_same _ p) by done.
    simpl in Happ. rewrite Ew in Happ.
    destruct (words_width p (words p ++ [w])) as [V|e].
    + destruct Happ as (W1 & W2 & H1 & [= <-] & HV). exists V.
      rewrite HW in H1. injection H1 as <-.
      split; [done|]. split; [lra|].
      rewrite spaces_app, Hs. simpl. rewrite Ew.
      rewrite Nat2Z.inj_add, inject_Z_plus. simpl. ring.
    + exfalso. by apply (Happ W 0%Q).
  - rewrite (LinePartFacts.get_word_width_same _ p) by done.
    destruct (get_word_width p w) as [x|] eqn:Ex; simpl; [|done].
    intros [= <-]. unfold accounted. simpl.
    rewrite (words_width_same _ p) by done.
    simpl in Happ. rewrite Ew, Ex in Happ. simpl in Happ.
    destruct (words_width p (words p ++ [w])) as [V|e].
    + destruct Happ as (W1 & W2 & H1 & [= <-] & HV). exists V.
      rewrite HW in H1. injection H1 as <-.
      split; [done|]. split; [lra|].
      rewrite spaces_app, Hs. simpl. rewrite Ew. simpl.
      rewrite Nat.add_0_r. reflexivity.
    + exfalso. by apply (Happ W (x + 0)%Q).
Qed.

Lemma accounted_pop_word p index :
  accounted p →
  match pop_word p index with
  | Ok (_, p') => accounted p'
  | Raise e => e = IndexError
  end.
Proof.
  intros Hacc. pose proof Hacc as (W & HW & Hw & Hs). unfold pop_word.
  destruct (words p) as [|w0 ws0] eqn:Ewords; [done|]. rewrite <- Ewords in *.
  unfold mbind, result_bind.
  destruct (list_pop (words p) (default index (-1)%Z)) as [[word rest]|e] eqn:Epop;
    [|by apply list_pop_raises in Epop].
  apply list_pop_split in Epop as (l1 & l2 & Hl & ->).
  pose proof (words_width_app p l1 (word :: l2)) as H1.
  rewrite <- Hl, HW in H1. destruct H1 as (W1 & W2 & HW1 & HW2 & HWW).
  pose proof (words_width_app p l1 l2) as H2.
  rewrite Hl in Hs. rewrite spaces_app in Hs. simpl in HW2, Hs.
  destruct (String.eqb word " ") eqn:Ew.
  - unfold accounted. simpl. rewrite (words_width_same _ p) by done.
    destruct (words_width p (l1 ++ l2)) as [V|e].
    + destruct H2 as (V1 & V2 & HV1 & HV2 & HV). exists V. split; [done|].
      rewrite HW1 in HV1. rewrite HW2 in HV2.
      injection HV1 as <-. injection HV2 as <-.
      split; [lra|]. rewrite Hs, spaces_app.
      rewrite !Nat2Z.inj_add, !inject_Z_plus. simpl. ring.
    + exfalso. by apply (H2 W1 W2).
  - rewrite (LinePartFacts.get_word_width_same _ p) by done.
    unfold mbind, result_bind in HW2.
    destruct (get_word_width p word) as [x|]; [|done].
    destruct (words_width p l2) as [V2|] eqn:EV2; [|done].
    injection HW2 as <-.
    unfold accounted. simpl. rewrite (words_width_same _ p) by done.
    destruct (words_width p (l1 ++ l2)) as [V|e].
    + destruct H2 as (U1 & U2 & HU1 & HU2 & HV). exists V. split; [done|].
      rewrite HW1 in HU1. injection HU1 as <-. injection HU2 as <-.
      split; [lra|]. rewrite Hs, spaces_app. simpl. reflexivity.
    + exfalso. by apply (H2 W1 V2).
Qed.

(** X4. After any sequence of calls of [add_word] and [pop_word], at any
    index, on a part as [__init__] builds it, [width] is the sum of the
    widths of the words the part holds and [spaces_width] is the width of a
    space times the number of spaces it holds. *)
Theorem accounts_kept style fonts ids (p0 p : t) (calls : list call) :
  init style fonts ids = Ok p0 → after p0 calls = Ok p → accounted p.
Proof.
  intros Hinit. apply accounted_init in Hinit. revert p0 Hinit.
  induction calls as [|c calls IH]; intros p0 Hacc; simpl.
  - by intros [= <-].
  - destruct c as [w|index]; unfold mbind, result_bind.
    + destruct (add_word p0 w) as [p1|] eqn:Ea; [|done].
      apply IH. by eapply accounted_add_word.
    + pose proof (accounted_pop_word p0 index Hacc) as Hpop.
      destruct (pop_word p0 index) as [[o p1]|]; [|done]. by apply IH.
Qed.

End facts.
End PartFacts.

(** ** [PDFTextLine]: extent, and the words of a line *)

Module WrapFacts.
Section facts.
Context `{EXT : Externals}.
Import PDFTextLine LineSpec RunSpec.

Lemma Qltb_false (x y : Q) : Qltb x y = false ↔ (y <= x)%Q.
Proof.
  unfold Qltb. rewrite negb_false_iff. apply Qle_bool_iff.
Qed.

Lemma height_loop_bounds parts : ∀ top h,
  (top <= (height_loop parts top h).1)%Q
  ∧ (h <= (height_loop parts top h).2)%Q
  ∧ ∀ p, p ∈ parts →
      (PDFState.size (PDFTextLinePart.state p) <= (height_loop parts top h).2)%Q
      ∧ ((0 <= top)%Q →
         (PDFState.rise (PDFTextLinePart.state p) <= (height_loop parts top h).1)%Q).
Proof.
  induction parts as [|q parts IH]; intros top h; simpl.
  - split; [lra|]. split; [lra|]. intros p Hp. by apply elem_of_nil in Hp.
  - set (rs := PDFState.rise (PDFTextLinePart.state q)).
    set (sz := PDFState.size (PDFTextLinePart.state q)).
    set (top1 := if Qltb 0 rs && Qltb top rs then rs else top).
    set (h1 := if Qltb h sz then sz else h).
    destruct (IH top1 h1) as (Ht & Hh & Hp).
    assert (top <= top1 ∧ ((0 <= top)%Q → rs <= top1))%Q as [Ht1 Hr1].
    { subst top1. destruct (Qltb 0 rs) eqn:E0, (Qltb top rs) eqn:E1; simpl;
        rewrite ?Qltb_true, ?Qltb_false in *; split; intros; lra. }
    assert (h <= h1 ∧ sz <= h1)%Q as [Hh1 Hs1].
    { subst h1. destruct (Qltb h sz) eqn:E; rewrite ?Qltb_true, ?Qltb_false in *; lra. }
    split; [lra|]. split; [lra|].
    intros p Hin. apply elem_of_cons in Hin as [->|Hin].
    + fold rs sz. split; [lra|]. intros H0. specialize (Hr1 H0). lra.
    + destruct (Hp p Hin) as [H1 H2]. split; [exact H1|].
      intros H0. apply H2. lra.
Qed.

Lemma bottom_loop_bounds parts : ∀ b,
  (b <= bottom_loop parts b)%Q
  ∧ ∀ p, p ∈ parts → (0 <= b)%Q →
      (- PDFState.rise (PDFTextLinePart.state p) <= bottom_loop parts b)%Q.
Proof.
  induction parts as [|q parts IH]; intros b; simpl.
  - split; [lra|]. intros p Hp. by apply elem_of_nil in Hp.
  - set (rs := PDFState.rise (PDFTextLinePart.state q)).
    set (b1 := if Qltb rs 0 && Qltb b (- rs) then (- rs)%Q else b).
    destruct (IH b1) as (Hb & Hp).
    assert (b <= b1 ∧ ((0 <= b)%Q → - rs <= b1))%Q as [Hb1 Hr1].
    { subst b1. destruct (Qltb rs 0) eqn:E0, (Qltb b (- rs)) eqn:E1; simpl;
        rewrite ?Qltb_true, ?Qltb_false in *; split; intros; lra. }
    split; [lra|].
    intros p Hin H0. apply elem_of_cons in Hin as [->|Hin].
    + fold rs. specialize (Hr1 H0). lra.
    + apply Hp; [done|lra].
Qed.

(** X5. Every part of a line lies within the extent of the line: its size
    plus its rise, above the top margin, is at most [height], and its
    descent below the base line, the opposite of a negative rise, is at
    most [bottom]; [height] is never less than the top margin and [bottom]
    never negative. *)
Theorem line_extent (l : t) (p : PDFTextLinePart.t) :
  p ∈ line_parts l →
  (PDFState.size (PDFTextLinePart.state p) + PDFState.rise (PDFTextLinePart.state p)
   + top_margin l <= height l)%Q
  ∧ (- PDFState.rise (PDFTextLinePart.state p) <= bottom l)%Q
  ∧ (top_margin l <= height l)%Q
  ∧ (0 <= bottom l)%Q.
Proof.
  intros Hp. unfold height, bottom.
  destruct (height_loop_bounds (line_parts l) 0 0) as (Ht & Hh & Hparts).
  destruct (Hparts p Hp) as [Hs Hr].
  destruct (bottom_loop_bounds (line_parts l) 0) as (Hb & Hbp).
  destruct (height_loop (line_parts l) 0 0) as [top h]. simpl in *.
  specialize (Hr ltac:(lra)). specialize (Hbp p Hp ltac:(lra)).
  split; [lra|]. split; [lra|]. split; lra.
Qed.

Lemma pend_word_tokens next w next' :
  pend_word next w = Ok next' →
  tokens next' = tokens next ++ [w]
  ∧ started next' = started next ∧ fonts next' = fonts next
  ∧ firstWordAdded next' = firstWordAdded next
  ∧ (PDFTextLine.isspace w = false →
     Forall words_only (line_parts next) → Forall words_only (line_parts next')).
Proof.
  unfold pend_word.
  destruct (split_last (line_parts next)) as [[front lp]|] eqn:Es; [|done].
  apply split_last_Some in Es.
  destruct (PDFTextLinePart.add_word lp w) as [lp'|] eqn:Ea; [|done]. simpl.
  intros [= <-].
  assert (PDFTextLinePart.words lp' = PDFTextLinePart.words lp ++ [w]) as Hws.
  { revert Ea. unfold PDFTextLinePart.add_word.
    destruct (String.eqb w " "); [by intros [= <-]|].
    destruct (PDFTextLinePart.get_word_width _ w); [|done]. by intros [= <-]. }
  unfold tokens. simpl. rewrite Es, !LineFacts.toks_snoc, Hws, app_assoc.
  do 4 (split; [done|]).
  intros Hw Hok. apply Forall_app in Hok as [Hfront Hlp].
  apply Forall_app. split; [done|]. apply Forall_singleton.
  rewrite Forall_singleton in Hlp. unfold words_only in *. rewrite Hws.
  apply Forall_app. split; [done|]. by apply Forall_singleton.
Qed.

Lemma add_accumulated_tokens l next l' :
  next_line l = Some next → add_accumulated l = Ok l' →
  tokens l' = tokens l ++ tokens next ++ [" "%string]
  ∧ pending l' = []
  ∧ started l' = started l ∧ firstWordAdded l' = firstWordAdded l
  ∧ fonts l' = fonts l
  ∧ ∃ next', next_line l' = Some next' ∧ Forall words_only (line_parts next')
      ∧ fonts next' = fonts next.
Proof.
  intros Hn Ha.
  destruct (LineFacts.add_accumulated_spec _ _ _ Hn Ha)
    as (front & lp & fresh & Hsplit & _ & Hfw & ->).
  unfold tokens, pending. simpl. rewrite LineFacts.toks_snoc. simpl.
  rewrite app_assoc, <- LineFacts.toks_snoc, <- Hsplit, LineFacts.toks_app.
  split; [by rewrite app_assoc|].
  split; [unfold tokens, toks; simpl; by rewrite Hfw|].
  do 3 (split; [done|]). eexists. split; [reflexivity|]. simpl.
  split; [|done]. apply Forall_singleton. unfold words_only. rewrite Hfw. constructor.
Qed.

Lemma finish_line_tokens l next nw st l' :
  finish_line l next nw = Ok (st, l') →
  (tokens l' = tokens l ∨ tokens l' ++ [" "%string] = tokens l)
  ∧ fonts l' = fonts l
  ∧ ∃ nl buffer, st = finished nl ∧ line_parts nl = [] ∧ next_line nl = Some buffer
      ∧ line_parts buffer = line_parts next
      ∧ started nl = started next ∧ firstWordAdded nl = true
      ∧ fonts nl = fonts next ∧ fonts buffer = fonts l
      ∧ next_line l' = Some nl.
Proof.
  unfold finish_line.
  destruct (split_last (line_parts l)) as [[front lp]|] eqn:Es; [|done].
  apply split_last_Some in Es. unfold mbind, result_bind.
  destruct (last (PDFTextLinePart.words lp)) as [w|] eqn:El.
  - destruct (String.eqb_spec w " ") as [->|Hne].
    + destruct (PDFTextLinePart.pop_word lp (Some (-1)%Z)) as [[o lp']|] eqn:Ep; [|done].
      intros [= <- <-]. simpl.
      apply last_Some in El as [ws0 Hws].
      rewrite (LinePartFacts.pop_space _ _ Hws) in Ep. injection Ep as <- <-.
      split; [|eauto 20]. right. unfold tokens. simpl.
      rewrite Es, !LineFacts.toks_snoc. simpl. by rewrite Hws, app_assoc.
    + intros [= <- <-]. simpl. split; [by left|]. eauto 20.
  - intros [= <- <-]. simpl. split; [by left|]. eauto 20.
Qed.

(** X6. [add_word] loses no word and changes no order: a word that is not
    whitespace goes to the end of the pending buffer; whitespace is ignored
    or moves the pending words to the end of the line, followed by one
    space; and closing a line drops at most its last space and hands the
    pending words, with the new one, to the next line. *)
Theorem add_word_keeps_words (l : t) (w : string) (nw : Q) (st : status) (l' : t) :
  add_word l w nw = Ok (st, l') →
  match st with
  | ignored => PDFTextLine.isspace w = true ∧ l' = l
  | added =>
      (PDFTextLine.isspace w = true
       ∧ tokens l' = tokens l ++ pending l ++ [" "%string] ∧ pending l' = [])
      ∨ (PDFTextLine.isspace w = false
         ∧ tokens l' = tokens l ∧ pending l' = pending l ++ [w])
  | preadded =>
      PDFTextLine.isspace w = false
      ∧ tokens l' = tokens l ∧ pending l' = pending l ++ [w]
  | finished nl =>
      PDFTextLine.isspace w = false
      ∧ (tokens l' = tokens l ∨ tokens l' ++ [" "%string] = tokens l)
      ∧ tokens nl = [] ∧ pending nl = pending l ++ [w]
  end.
Proof.
  unfold add_word.
  destruct (next_line l) as [next|] eqn:Hn; [|done].
  assert (pending l = tokens next) as Hpend by (unfold pending; by rewrite Hn).
  unfold mbind, result_bind.
  destruct (started l) eqn:Hst, (PDFTextLine.isspace w) eqn:Hsp; simpl.
  - destruct (is_last_word_space l); [by intros [= <- <-]|].
    destruct (add_accumulated l) as [l1|] eqn:Ea; [|done]. intros [= <- <-].
    destruct (add_accumulated_tokens _ _ _ Hn Ea) as (H1 & H2 & _).
    left. rewrite Hpend. done.
  - destruct (pend_word next w) as [next'|] eqn:Ep; [|done].
    destruct (pend_word_tokens _ _ _ Ep) as (Ht & _).
    destruct (Qltb _ _).
    + intros [= <- <-]. unfold pending. simpl. rewrite Hn. done.
    + intros Hf. destruct (finish_line_tokens _ _ _ _ _ Hf)
        as (Hl & _ & nl & buffer & -> & Hnl & Hb & Hbp & _).
      split; [done|]. split; [exact Hl|].
      unfold pending, tokens. rewrite Hnl, Hb, Hbp. split; [done|].
      fold (tokens next'). rewrite Ht, Hn. done.
  - destruct (firstWordAdded l); [|by intros [= <- <-]].
    destruct (add_accumulated _) as [l1|] eqn:Ea; [|done]. intros [= <- <-].
    destruct (add_accumulated_tokens _ _ _ (Hn : next_line (set_started l true) = _) Ea)
      as (H1 & H2 & _).
    left. rewrite Hpend. done.
  - destruct (pend_word next w) as [next'|] eqn:Ep; [|done].
    destruct (pend_word_tokens _ _ _ Ep) as (Ht & _).
    intros [= <- <-]. right. unfold pending. simpl. rewrite Hn. done.
Qed.

(** *** The start of a line *)

Lemma lead_of_inv l : inv l → lead_inv l → lead l.
Proof.
  unfold inv, lead_inv. destruct (next_line l) as [next|].
  - intros (_ & _ & _ & Hi) (_ & Hl). destruct (started l); [by destruct Hl|].
    destruct Hi as [Hp _]. intros w rest. unfold tokens. by rewrite Hp.
  - intros (Hp & _) _ w rest. unfold tokens. by rewrite Hp.
Qed.

Lemma lead_inv_init fonts mw ta lh tm : lead_inv (init fonts mw ta lh tm).
Proof. by unfold lead_inv. Qed.

Lemma lead_inv_add_line_part l style ids p l' :
  inv l → lead_inv l → add_line_part l style ids = Ok (p, l') → lead_inv l'.
Proof.
  unfold add_line_part. intros Hinv Hlead.
  destruct (PDFTextLinePart.init style (fonts l) ids) as [q|] eqn:Eq; [|done].
  simpl. intros [= <- <-].
  destruct (LinePartFacts.init_fresh _ _ _ _ Eq) as (Hqw & _).
  assert (words_only q) as Hq by (unfold words_only; rewrite Hqw; constructor).
  unfold lead_inv, inv in *. simpl.
  destruct (next_line l) as [next|]; simpl.
  - destruct Hlead as [Hok Hl]. split; [apply Forall_app; split; [done|by constructor]|].
    destruct (started l); [exact Hl|].
    unfold tokens in *. simpl. rewrite LineFacts.toks_app. unfold toks at 2. simpl.
    by rewrite Hqw, !app_nil_r.
  - destruct Hinv as (_ & -> & _). split; [by constructor|]. by rewrite Hlead.
Qed.

Lemma lead_app l ts : tokens l ≠ [] → lead l →
  ∀ w rest, tokens l ++ ts = w :: rest → PDFTextLine.isspace w = false.
Proof.
  intros Hne Hl w rest. destruct (tokens l) as [|t tl] eqn:Et; [done|].
  simpl. intros [= <- <-]. by eapply Hl.
Qed.

(** [add_word] keeps the start of the line; the line it closes starts
    with a word. *)
Lemma lead_inv_add_word l w nw st l' :
  inv l → lead_inv l → add_word l w nw = Ok (st, l') →
  match st with
  | finished nl => lead l' ∧ lead_inv nl
  | _ => lead_inv l'
  end.
Proof.
  intros Hinv Hlead. pose proof (lead_of_inv _ Hinv Hlead) as Hl. unfold add_word.
  destruct (next_line l) as [next|] eqn:Hn; [|done].
  unfold inv in Hinv. unfold lead_inv in Hlead. rewrite Hn in Hinv, Hlead.
  destruct Hinv as (_ & Hnst & _ & Hrest). destruct Hlead as [Hok Hstart].
  unfold mbind, result_bind.
  destruct (started l) eqn:Hst, (PDFTextLine.isspace w) eqn:Hsp; simpl.
  - destruct (is_last_word_space l).
    { intros [= <- <-]. unfold lead_inv. by rewrite Hn, Hst. }
    destruct (add_accumulated l) as [l1|] eqn:Ea; [|done]. intros [= <- <-].
    destruct (add_accumulated_tokens _ _ _ Hn Ea)
      as (H1 & _ & H3 & _ & _ & next' & Hn' & Hok' & _).
    unfold lead_inv. rewrite Hn', H3, Hst. split; [done|].
    destruct Hstart as [Hne _]. split.
    + rewrite H1. by destruct (tokens l).
    + intros w0 rest. rewrite H1. by apply lead_app.
  - destruct (pend_word next w) as [next'|] eqn:Ep; [|done].
    destruct (pend_word_tokens _ _ _ Ep) as (Ht & Hs' & _ & _ & Hwo).
    specialize (Hwo Hsp Hok).
    destruct (Qltb _ _).
    + intros [= <- <-]. unfold lead_inv. simpl. rewrite Hst. done.
    + intros Hf. destruct (finish_line_tokens _ _ _ _ _ Hf)
        as (Htl & _ & nl & buffer & -> & Hnl & Hb & Hbp & Hnst' & Hfw & _).
      assert (tokens l' = tokens l ∨ tokens l' ++ [" "%string] = tokens l) as Htl'
        by exact Htl.
      split.
      * intros w0 rest Hw0. destruct Hstart as [Hne Hld].
        destruct Htl' as [Heq|Heq].
        -- rewrite Heq in Hw0. by eapply Hld.
        -- apply (Hld w0 (rest ++ [" "%string])). by rewrite <- Heq, Hw0.
      * unfold lead_inv. rewrite Hb, Hbp, Hnst', Hs', Hnst. split; [done|].
        intros _. unfold tokens. rewrite Hbp. fold (tokens next'). rewrite Ht.
        by destruct (tokens next).
  - destruct (firstWordAdded l) eqn:Hfw.
    + destruct (add_accumulated _) as [l1|] eqn:Ea; [|done]. intros [= <- <-].
      destruct (add_accumulated_tokens _ _ _ (Hn : next_line (set_started l true) = _) Ea)
        as (H1 & _ & H3 & _ & _ & next' & Hn' & Hok' & _).
      unfold lead_inv. rewrite Hn', H3. simpl. split; [done|].
      destruct Hrest as [Hparts _]. specialize (Hstart eq_refl).
      change (tokens (set_started l true)) with (tokens l) in H1.
      assert (tokens l = []) as Hnil by (unfold tokens; by rewrite Hparts).
      rewrite Hnil in H1. simpl in H1. split.
      * rewrite H1. by destruct (tokens next).
      * intros w0 rest. rewrite H1.
        destruct (tokens next) as [|t tl] eqn:Et; [done|]. simpl. intros [= <- <-].
        assert (Forall (fun w => PDFTextLine.isspace w = false) (tokens next)) as Hall.
        { unfold tokens, toks. apply Forall_concat, Forall_fmap.
          eapply Forall_impl; [exact Hok|]. done. }
        rewrite Et in Hall. by apply Forall_cons in Hall as [? _].
    + intros [= <- <-]. unfold lead_inv. rewrite Hn, Hst, Hfw. done.
  - destruct (pend_word next w) as [next'|] eqn:Ep; [|done].
    destruct (pend_word_tokens _ _ _ Ep) as (Ht & Hs' & _ & _ & Hwo).
    intros [= <- <-]. unfold lead_inv. simpl. rewrite Hst.
    split; [by apply Hwo|]. intros _. rewrite Ht. by destruct (tokens next).
Qed.

End facts.
End WrapFacts.

(** ** [PDFTextBase]: what emitting a line and a layout call keep *)

Module RunFacts.
Section facts.
Context `{EXT : Externals}.
Import PDFTextBase RunSpec.

Ltac layout_solve :=
  unfold layout_same in *; simpl in *; destruct_and?; repeat split; congruence.

Lemma output_text_layout s part f str s' :
  output_text s part f = Ok (str, s') → layout_same s s'.
Proof.
  unfold output_text. unfold mbind, result_bind.
  destruct (PDFState.compare _ _); [|done].
  destruct (Qopt_neb _ _); intros [= <- <-]; layout_solve.
Qed.

Lemma output_graphics_layout s part x y w g s' :
  output_graphics s part x y w = (g, s') → layout_same s s'.
Proof.
  unfold output_graphics.
  repeat (case_match; simplify_eq/=); intros; simplify_eq/=;
    layout_solve.
Qed.

Lemma emit_parts_layout parts : ∀ s x f s',
  emit_parts s parts x f = Ok s' → layout_same s s'.
Proof.
  induction parts as [|part parts IH]; intros s x f s'; simpl.
  - intros [= <-]. layout_solve.
  - unfold mbind, result_bind.
    destruct (output_text s part f) as [[str s1]|] eqn:Eo; [|done].
    apply output_text_layout in Eo.
    destruct (output_graphics _ _ _ _ _) as [g s2] eqn:Eg.
    apply output_graphics_layout in Eg. intros Hrest. apply IH in Hrest.
    layout_solve.
Qed.

Lemma position_line_layout s line s' x flh fw :
  position_line s line = Ok (s', x, flh, fw) → layout_same s s'.
Proof.
  unfold position_line. unfold mbind, result_bind.
  repeat (case_match; simplify_eq/=); intros; simplify_eq/=;
    layout_solve.
Qed.

Lemma emit_line_keeps s line il s' :
  add_line_to_stream s line il = Ok s' →
  fonts s' = fonts s ∧ used_fonts s' = used_fonts s ∧ height s' = height s
  ∧ lines s' = lines s ∧ current_height s' = current_height s
  ∧ current_line_used_fonts s' = current_line_used_fonts s
  ∧ current_line s' = current_line s ∧ content s' = content s
  ∧ last_part_index s' = last_part_index s
  ∧ last_word_index s' = last_word_index s.
Proof.
  unfold add_line_to_stream. unfold mbind, result_bind.
  destruct (position_line s line) as [[[[s1 x] flh] fw]|] eqn:Ep; [|done].
  apply position_line_layout in Ep. intros He. apply emit_parts_layout in He.
  unfold layout_same in *. simpl in *. destruct_and?. repeat split; congruence.
Qed.

(** X9. Emitting a line writes to the streams, the anchor map and the cursor
    of the emission, and nowhere else: the fonts, the geometry, the content
    and its cursor, the lines, the height used and the fonts noted are what
    they were. *)
Theorem add_line_to_stream_layout (s : t) (line : PDFTextLine.t) (is_last : bool)
    (s' : t) :
  add_line_to_stream s line is_last = Ok s' → layout_same s s'.
Proof.
  unfold add_line_to_stream. unfold mbind, result_bind.
  destruct (position_line s line) as [[[[s1 x] flh] fw]|] eqn:Ep; [|done].
  apply position_line_layout in Ep. intros He. apply emit_parts_layout in He.
  layout_solve.
Qed.

Lemma commit_spec (s : t) (is_last : bool) (b : bool) (s' : t) :
  add_current_line s is_last = Ok (b, s') →
  current_line s' = current_line s
  ∧ height s' = height s ∧ fonts s' = fonts s
  ∧ if b then
      lines s' = lines s ++ [Current]
      ∧ (current_height s'
         == current_height s
            + PDFTextLine.height (current_line s) * line_height s)%Q
      ∧ (current_height s' <= height s')%Q
      ∧ used_fonts s' = used_fonts s ∪ current_line_used_fonts s
      ∧ current_line_used_fonts s' = ∅
    else s' = s.
Proof.
  unfold add_current_line. destruct (Qltb _ _) eqn:Eq.
  - by intros [= <- <-].
  - unfold mbind, result_bind.
    destruct (add_line_to_stream _ _ _) as [s1|] eqn:Ea; [|done].
    intros [= <- <-].
    apply emit_line_keeps in Ea. simpl in Ea. destruct_and!.
    apply WrapFacts.Qltb_false in Eq.
    repeat match goal with H : _ s1 = _ |- _ => rewrite H end.
    do 3 (split; [done|]). split; [done|]. split; [ring|]. split; [lra|]. done.
Qed.

(** X10. [add_current_line] never closes the line: when the line fits the
    height left, it is listed, by reference, and stays the current line;
    the height used grows by its height times the line height and stays
    within the height of the block; the fonts of the line join the fonts
    used; and the answer does not depend on [is_last]. When it does not fit,
    nothing changes. *)
Theorem add_current_line_commits (s : t) (is_last : bool) (b : bool) (s' : t) :
  add_current_line s is_last = Ok (b, s') →
  add_current_line s (negb is_last) = Ok (b, s')
  ∧ current_line s' = current_line s
  ∧ height s' = height s ∧ fonts s' = fonts s
  ∧ if b then
      lines s' = lines s ++ [Current]
      ∧ (current_height s'
         == current_height s
            + PDFTextLine.height (current_line s) * line_height s)%Q
      ∧ (current_height s' <= height s')%Q
      ∧ used_fonts s' = used_fonts s ∪ current_line_used_fonts s
      ∧ current_line_used_fonts s' = ∅
    else
      s' = s
      ∧ (height s < PDFTextLine.height (current_line s) * line_height s
                    + current_height s)%Q.
Proof.
  unfold add_current_line. destruct (Qltb _ _) eqn:Eq.
  - intros [= <- <-]. apply Qltb_true in Eq. done.
  - unfold mbind, result_bind.
    destruct (add_line_to_stream _ _ _) as [s1|] eqn:Ea; [|done].
    intros [= <- <-]. split; [done|].
    assert (layout_same
              (set_current_line_used_fonts
                 (set_used_fonts
                    (set_lines
                       (set_current_height s
                          (current_height s
                           + PDFTextLine.height (current_line s) * line_height s))
                       (lines s ++ [Current]))
                    (used_fonts s ∪ current_line_used_fonts s)) ∅) s1) as Hsame.
    { revert Ea. unfold add_line_to_stream. unfold mbind, result_bind.
      destruct (position_line _ _) as [[[[s2 x] flh] fw]|] eqn:Ep; [|done].
      apply position_line_layout in Ep. intros He. apply emit_parts_layout in He.
      layout_solve. }
    unfold layout_same in Hsame. simpl in Hsame. destruct_and!.
    apply WrapFacts.Qltb_false in Eq.
    repeat match goal with H : _ s1 = _ |- _ => rewrite H end.
    do 3 (split; [done|]). split; [done|]. split; [ring|]. split; [lra|]. done.
Qed.

Lemma setup_list_keeps s s' :
  setup_list s = Ok s' →
  fonts s' = fonts s ∧ used_fonts s' = used_fonts s
  ∧ height s' = height s ∧ current_height s' = current_height s
  ∧ lines s' = lines s ∧ current_line s' = current_line s
  ∧ content s' = content s ∧ graphics s' = graphics s
  ∧ last_word_index s' = last_word_index s
  ∧ last_part_index s' = last_part_index s
  ∧ ∃ p style, PDFTextLinePart.init style (fonts s) None = Ok p
      ∧ current_line_used_fonts s'
        = current_line_used_fonts s
          ∪ {[ (PDFState.font_family (PDFTextLinePart.state p),
                PDFState.font_mode (PDFTextLinePart.state p)) ]}.
Proof.
  unfold setup_list. unfold mbind, result_bind.
  destruct (PDFTextLine.next_line (current_line s)) as [next|]; [|done].
  destruct (PDFTextLine.line_parts next) as [|first ?]; [done|].
  destruct (match list_style s with LSNone => _ | _ => _ end) as [ls|]; [|done].
  simpl. destruct (PDFTextLinePart.init _ _ None) as [p|] eqn:Ep; [|done].
  destruct (list_indent s).
  - intros [= <-]. simpl. do 10 (split; [done|]). eauto.
  - simpl. destruct (PDFTextLinePart.get_word_width _ _); [|done].
    intros [= <-]. simpl. do 10 (split; [done|]). eauto.
Qed.

Lemma add_part_open s part i :
  add_part s part i
  = match p_text part with
    | None | Some TOther => Ok (true, s)
    | Some (TStr str) =>
        s1 ← open_part s part;
        words_loop
          (set_content s1
             (<[i := Dict (mkPart (p_type part) (Some (TList (tokenize str)))
                                  (p_style part) (p_ids part))]> (content s1)))
          i (length (tokenize str)) (drop (last_word_index s1) (tokenize str))
          (last_word_index s1)
    | Some (TList l) =>
        s1 ← open_part s part;
        words_loop s1 i (length l) (drop (last_word_index s1) l) (last_word_index s1)
    end.
Proof.
  unfold add_part, open_part, mbind, result_bind.
  destruct (p_text part) as [[str|l|]|]; try done.
  all: destruct (PDFTextLine.add_line_part _ _ _) as [[lp line]|]; [|done].
  all: destruct (if negb _ && _ then _ else _) as [s1|]; done.
Qed.

Lemma open_part_keeps s part s1 :
  open_part s part = Ok s1 →
  height s1 = height s ∧ current_height s1 = current_height s
  ∧ fonts s1 = fonts s ∧ used_fonts s1 = used_fonts s
  ∧ content s1 = content s ∧ graphics s1 = graphics s
  ∧ last_word_index s1 = last_word_index s
  ∧ last_part_index s1 = last_part_index s.
Proof.
  unfold open_part, mbind, result_bind.
  destruct (PDFTextLine.add_line_part _ _ _) as [[lp line]|] eqn:Ea; [|done].
  destruct (negb _ && _).
  - destruct (setup_list _) as [s3|] eqn:Es; [|done].
    apply setup_list_keeps in Es
      as (Hf3 & Hu3 & Hh3 & Hc3 & _ & _ & Hco & Hg & Hw & Hp & _).
    intros [= <-]. split; [exact Hh3|]. split; [exact Hc3|].
    split; [exact Hf3|]. split; [exact Hu3|]. split; [exact Hco|].
    split; [exact Hg|]. split; [exact Hw|exact Hp].
  - intros [= <-]. done.
Qed.

(** *** Induction over a layout call *)

Section induction.
Variable Inv : t → Prop.
Hypothesis Inv_cursor : ∀ s i,
  Inv s → Inv (set_last_word_index (set_last_part_index s (i + 1)) 0).
Hypothesis Inv_content : ∀ s i part toks,
  Inv s → content s !! i = Some (Dict part) →
  Inv (set_content s
         (<[i := Dict (mkPart (p_type part) (Some (TList toks))
                              (p_style part) (p_ids part))]> (content s))).
Hypothesis Inv_finished : ∀ s, Inv s → Inv (set_finished s true).
Hypothesis Inv_commit : ∀ s il c s1,
  Inv s → add_current_line s il = Ok (c, s1) → Inv s1.
Hypothesis Inv_open : ∀ s i part s1,
  Inv s → content s !! i = Some (Dict part) → open_part s part = Ok s1 → Inv s1.
Hypothesis Inv_word : ∀ s w nw st line,
  Inv s → PDFTextLine.add_word (current_line s) w nw = Ok (st, line) →
  match st with
  | PDFTextLine.finished nl =>
      ∀ il c s1, add_current_line (set_current_line s line) il = Ok (c, s1) →
                 Inv (replace_current_line s1 nl)
  | _ => Inv (set_current_line s line)
  end.

Lemma words_loop_ind words : ∀ s part_index n word_index b s',
  Inv s → words_loop s part_index n words word_index = Ok (b, s') → Inv s'.
Proof.
  induction words as [|word words IH]; intros s pi n wi b s' Hinv; simpl.
  - by intros [= <- <-].
  - unfold mbind, result_bind.
    destruct (number (list_indent s)) as [li|]; [|done].
    destruct (PDFTextLine.add_word _ _ _) as [[st line]|] eqn:Ea; [|done].
    pose proof (Inv_word _ _ _ _ _ Hinv Ea) as Hst.
    destruct st as [| | |nl].
    + apply IH. by apply Inv_cursor.
    + by apply IH.
    + by apply IH.
    + destruct (add_current_line _ _) as [[c s1]|] eqn:Ec; [|done].
      specialize (Hst _ _ _ Ec).
      destruct c; [by apply IH|by intros [= <- <-]].
Qed.

Lemma add_part_ind s part part_index b s' :
  Inv s → content s !! part_index = Some (Dict part) →
  add_part s part part_index = Ok (b, s') → Inv s'.
Proof.
  intros Hinv Hpart. rewrite add_part_open.
  destruct (p_text part) as [[str|l|]|]; try by intros [= <- <-].
  all: unfold mbind, result_bind.
  all: destruct (open_part s part) as [s1|] eqn:Eo; [|done].
  all: pose proof (Inv_open _ _ _ _ Hinv Hpart Eo) as Hinv1.
  all: apply words_loop_ind; try done.
  apply Inv_content; [done|].
  apply open_part_keeps in Eo as (_ & _ & _ & _ & Hc & _). by rewrite Hc.
Qed.

Lemma parts_loop_ind indices : ∀ s b s',
  Inv s → parts_loop s indices = Ok (b, s') → Inv s'.
Proof.
  induction indices as [|i indices IH]; intros s b s' Hinv; simpl.
  - by intros [= <- <-].
  - destruct (content s !! i) as [[|part]|] eqn:Hpart; [done| |done].
    destruct (p_type part) as [ty|].
    + destruct (String.eqb ty "br").
      * unfold mbind, result_bind.
        destruct (add_current_line s false) as [[c s1]|] eqn:Ec; [|done].
        apply Inv_commit in Ec; [|done].
        destruct c; [|by intros [= <- <-]].
        apply IH. by apply Inv_cursor.
      * by apply IH.
    + unfold mbind, result_bind.
      destruct (add_part s part i) as [[c s1]|] eqn:Ep; [|done].
      apply add_part_ind in Ep; [|done..].
      destruct c; [by apply IH|by intros [= <- <-]].
Qed.

Lemma run_ind self s0 fin s :
  init self = Ok s0 → Inv s0 → run self = Ok (fin, s) → Inv s.
Proof.
  intros Ei Hinv. unfold run, mbind, result_bind. rewrite Ei.
  destruct (parts_loop _ _) as [[c s1]|] eqn:Ep; [|done].
  apply parts_loop_ind in Ep; [|done].
  destruct c; [|by intros [= <- <-]].
  destruct (add_current_line s1 true) as [[c s2]|] eqn:Ec; [|done].
  apply Inv_commit in Ec; [|done].
  destruct c; intros [= <- <-]; [by apply Inv_finished|done].
Qed.

End induction.

Lemma init_fields self s0 :
  init self = Ok s0 →
  ∃ mw, current_line s0
        = PDFTextLine.init (fonts self) mw (Some (text_align self))
            (Some (line_height self)) 0
    ∧ lines s0 = [] ∧ current_height s0 = 0%Q ∧ height s0 = height self
    ∧ fonts s0 = fonts self ∧ used_fonts s0 = used_fonts self
    ∧ current_line_used_fonts s0 = ∅.
Proof.
  unfold init, mbind, result_bind.
  destruct (number _); [|done]. intros [= <-]. simpl. eauto 10.
Qed.

Lemma lead_state_commit s il c s1 :
  lead_state s → add_current_line s il = Ok (c, s1) → lead_state s1.
Proof.
  intros (H1 & H2 & H3) Hc.
  apply FlowFacts.add_current_line_frame in Hc as [Hcur Hlines].
  unfold lead_state. rewrite Hcur. split; [|done].
  intros l. destruct Hlines as [->| ->]; [apply H1|].
  rewrite elem_of_app, list_elem_of_singleton. intros [?|?]; [by apply H1|done].
Qed.

Lemma open_part_lines s part s1 :
  open_part s part = Ok s1 →
  ∃ lp line, PDFTextLine.add_line_part (current_line s)
               (Style.update TEXT_DEFAULTS (default (p_style part) Style.empty))
               (p_ids part) = Ok (lp, line)
    ∧ current_line s1 = line ∧ lines s1 = lines s.
Proof.
  unfold open_part, mbind, result_bind.
  destruct (PDFTextLine.add_line_part _ _ _) as [[lp line]|] eqn:Ea; [|done].
  destruct (negb _ && _).
  - destruct (setup_list _) as [s3|] eqn:Es; [|done].
    apply FlowFacts.setup_list_frame in Es as [Hl Hc].
    intros [= <-]. exists lp, line. split; [done|]. split; [exact Hc|exact Hl].
  - intros [= <-]. by exists lp, line.
Qed.

Lemma lead_state_open s part s1 :
  lead_state s → open_part s part = Ok s1 → lead_state s1.
Proof.
  intros (H1 & H2 & H3) Ho.
  apply open_part_lines in Ho as (lp & line & Ea & Hc & Hl).
  unfold lead_state. rewrite Hc, Hl. split; [done|]. split.
  - by eapply LineFacts.inv_add_line_part.
  - by eapply WrapFacts.lead_inv_add_line_part.
Qed.

Lemma lead_state_word s w nw st line :
  lead_state s → PDFTextLine.add_word (current_line s) w nw = Ok (st, line) →
  match st with
  | PDFTextLine.finished nl =>
      ∀ il c s1, add_current_line (set_current_line s line) il = Ok (c, s1) →
                 lead_state (replace_current_line s1 nl)
  | _ => lead_state (set_current_line s line)
  end.
Proof.
  intros (H1 & H2 & H3) Ha.
  pose proof (LineFacts.inv_add_word _ _ _ _ _ H2 Ha) as H2'.
  pose proof (WrapFacts.lead_inv_add_word _ _ _ _ _ H2 H3 Ha) as H3'.
  destruct st as [| | |nl]; try (split; [exact H1|split; [exact H2'|exact H3']]).
  intros il c s2 Hc. destruct H2' as [_ H2'], H3' as [Hld H3'].
  apply FlowFacts.add_current_line_frame in Hc as [Hcur Hlines].
  split; [|split; [exact H2'|exact H3']].
  intros l Hin.
  change (Frozen l ∈ map (fun r => Frozen match r with
                                          | Frozen l => l
                                          | Current => current_line s2
                                          end) (lines s2)) in Hin.
  apply list_elem_of_fmap in Hin as (r & [= ->] & Hin).
  destruct r as [l0|]; [|rewrite Hcur; exact Hld].
  apply H1. destruct Hlines as [Hlines|Hlines]; rewrite Hlines in Hin; [exact Hin|].
  apply elem_of_app in Hin as [Hin|Hin]; [exact Hin|].
  by apply list_elem_of_singleton in Hin.
Qed.

Lemma run_init self fin s : run self = Ok (fin, s) → ∃ s0, init self = Ok s0.
Proof.
  unfold run, mbind, result_bind. destruct (init self) as [s0|]; [eauto|done].
Qed.

Lemma lead_state_cursor s i j :
  lead_state s → lead_state (set_last_word_index (set_last_part_index s i) j).
Proof. intros H. exact H. Qed.

Lemma lead_state_content s c : lead_state s → lead_state (set_content s c).
Proof. intros H. exact H. Qed.

Lemma lead_state_open' s (i : nat) part s1 :
  lead_state s → content s !! i = Some (Dict part) → open_part s part = Ok s1 →
  lead_state s1.
Proof. intros H _. by apply lead_state_open. Qed.

Lemma lead_state_finished s : lead_state s → lead_state (set_finished s true).
Proof. intros H. exact H. Qed.

Lemma lead_state_init self s0 : init self = Ok s0 → lead_state s0.
Proof.
  intros Ei. destruct (init_fields _ _ Ei) as (mw & Hcl & Hl & _).
  unfold lead_state. rewrite Hl, Hcl.
  split; [intros l Hin; by apply elem_of_nil in Hin|].
  split; [apply LineFacts.inv_init|apply WrapFacts.lead_inv_init].
Qed.

(** X11. No committed line starts with whitespace: whatever the content, every
    line that a layout call has listed, the one still open included, is
    empty or starts with a word. *)
Theorem run_lines_start_with_a_word (self : t) (fin : bool) (s : t) :
  run self = Ok (fin, s) →
  ∀ l, l ∈ committed_lines s → lead l.
Proof.
  intros Hrun. destruct (run_init _ _ _ Hrun) as [s0 Ei].
  destruct (run_ind lead_state (fun s i => lead_state_cursor s (i + 1) 0)
              (fun s i part toks H _ => lead_state_content s _ H)
              lead_state_finished lead_state_commit lead_state_open'
              lead_state_word self s0 fin s Ei (lead_state_init _ _ Ei) Hrun)
    as (Hfrozen & Hinv & Hlead).
  intros l. unfold committed_lines. rewrite list_elem_of_fmap.
  intros ([l0|] & -> & Hin); [by apply Hfrozen|].
  by apply WrapFacts.lead_of_inv.
Qed.

Lemma within_height_commit h s il c s1 :
  within_height h s → add_current_line s il = Ok (c, s1) → within_height h s1.
Proof.
  intros [H1 H2] Hc.
  destruct (commit_spec _ _ _ _ Hc) as (_ & Hh' & _ & Hb).
  unfold within_height. rewrite Hh'. split; [|done].
  destruct c; [rewrite <- Hh'; tauto|]. by rewrite Hb.
Qed.

Lemma within_height_cursor h s i j :
  within_height h s → within_height h (set_last_word_index (set_last_part_index s i) j).
Proof. intros H. exact H. Qed.

Lemma within_height_content h s c : within_height h s → within_height h (set_content s c).
Proof. intros H. exact H. Qed.

Lemma within_height_finished h s :
  within_height h s → within_height h (set_finished s true).
Proof. intros H. exact H. Qed.

Lemma within_height_open h s (i : nat) part s1 :
  within_height h s → content s !! i = Some (Dict part) →
  open_part s part = Ok s1 → within_height h s1.
Proof.
  intros [H1 H2] _ Ho. apply open_part_keeps in Ho as (Hh2 & Hc2 & _).
  unfold within_height. by rewrite Hh2, Hc2.
Qed.

Lemma within_height_word h s w nw st line :
  within_height h s → PDFTextLine.add_word (current_line s) w nw = Ok (st, line) →
  match st with
  | PDFTextLine.finished nl =>
      ∀ il c s1, add_current_line (set_current_line s line) il = Ok (c, s1) →
                 within_height h (replace_current_line s1 nl)
  | _ => within_height h (set_current_line s line)
  end.
Proof.
  intros HI Ha. destruct st as [| | |nl]; try exact HI.
  intros il c s2 Hc.
  exact (within_height_commit _ (set_current_line s line) il c s2 HI Hc).
Qed.

Lemma within_height_init self s0 :
  (0 <= height self)%Q → init self = Ok s0 → within_height (height self) s0.
Proof.
  intros H0 Ei. destruct (init_fields _ _ Ei) as (mw & _ & _ & Hch & Hh & _).
  unfold within_height. rewrite Hch, Hh. done.
Qed.

(** X12. A layout call never uses more height than the block has: when the
    height of the block is not negative, as [__init__] leaves it, the
    height used by the lines committed is at most the height of the block,
    which the call does not change. *)
Theorem run_within_height (self : t) (fin : bool) (s : t) :
  (0 <= height self)%Q → run self = Ok (fin, s) →
  (current_height s <= height s)%Q ∧ height s = height self.
Proof.
  intros H0 Hrun. destruct (run_init _ _ _ Hrun) as [s0 Ei].
  exact (run_ind (within_height (height self))
           (fun s i => within_height_cursor _ s (i + 1) 0)
           (fun s i part toks H _ => within_height_content _ s _ H)
           (within_height_finished _)
           (within_height_commit _) (within_height_open _) (within_height_word _)
           self s0 fin s Ei (within_height_init _ _ H0 Ei) Hrun).
Qed.

Lemma init_part_font_known style fonts ids p :
  PDFTextLinePart.init style fonts ids = Ok p →
  font_known fonts (PDFState.font_family (PDFTextLinePart.state p),
                    PDFState.font_mode (PDFTextLinePart.state p)).
Proof.
  unfold PDFTextLinePart.init, mbind, result_bind.
  destruct (PDFState.init style fonts) as [st|]; [|done].
  unfold PDFTextLinePart.char_width, mbind, result_bind, subscript.
  destruct (fonts !! PDFState.font_family st) as [family|] eqn:Ef; [|done].
  destruct (family !! PDFState.font_mode st) as [entry|] eqn:Em; [|done].
  destruct (widths entry !! _); [|done].
  intros [= <-]. simpl. by exists family, entry.
Qed.

Lemma line_fonts_add_line_part tbl l style ids p l' :
  line_fonts tbl l → PDFTextLine.add_line_part l style ids = Ok (p, l') →
  line_fonts tbl l'
  ∧ font_known tbl (PDFState.font_family (PDFTextLinePart.state p),
                    PDFState.font_mode (PDFTextLinePart.state p)).
Proof.
  intros [Hf Hn]. unfold PDFTextLine.add_line_part, mbind, result_bind.
  destruct (PDFTextLinePart.init style (PDFTextLine.fonts l) ids) as [q|] eqn:Eq;
    [|done].
  intros [= <- <-]. rewrite Hf in Eq. apply init_part_font_known in Eq.
  split; [|done]. unfold line_fonts. simpl. split; [done|].
  by destruct (PDFTextLine.next_line l).
Qed.

Lemma line_fonts_add_word tbl l w nw st l' :
  line_fonts tbl l → PDFTextLine.add_word l w nw = Ok (st, l') →
  line_fonts tbl l'
  ∧ match st with PDFTextLine.finished nl => line_fonts tbl nl | _ => True end.
Proof.
  intros [Hf Hnf]. unfold PDFTextLine.add_word.
  destruct (PDFTextLine.next_line l) as [next|] eqn:Hn; [|done].
  unfold mbind, result_bind.
  destruct (PDFTextLine.started l), (PDFTextLine.isspace w); simpl.
  - destruct (PDFTextLine.is_last_word_space l).
    { intros [= <- <-]. unfold line_fonts. by rewrite Hn. }
    destruct (PDFTextLine.add_accumulated l) as [l1|] eqn:Ea; [|done].
    intros [= <- <-].
    destruct (WrapFacts.add_accumulated_tokens _ _ _ Hn Ea)
      as (_ & _ & _ & _ & Hf' & next' & Hn' & _ & Hnf').
    unfold line_fonts. rewrite Hn', Hf', Hnf'. done.
  - destruct (PDFTextLine.pend_word next w) as [next'|] eqn:Ep; [|done].
    destruct (WrapFacts.pend_word_tokens _ _ _ Ep) as (_ & _ & Hf' & _).
    destruct (Qltb _ _).
    + intros [= <- <-]. unfold line_fonts. simpl. rewrite Hf'. done.
    + intros Hfin. destruct (WrapFacts.finish_line_tokens _ _ _ _ _ Hfin)
        as (_ & Hfl & nl & buffer & -> & _ & Hb & _ & _ & _ & Hfn & Hfb & Hnl).
      change (PDFTextLine.fonts l' = PDFTextLine.fonts l) in Hfl.
      change (PDFTextLine.fonts buffer = PDFTextLine.fonts l) in Hfb.
      unfold line_fonts. rewrite Hnl, Hfl, Hb, Hfn, Hfb, Hf', Hf. done.
  - destruct (PDFTextLine.firstWordAdded l).
    + destruct (PDFTextLine.add_accumulated _) as [l1|] eqn:Ea; [|done].
      intros [= <- <-].
      destruct (WrapFacts.add_accumulated_tokens _ _ _
                  (Hn : PDFTextLine.next_line (PDFTextLine.set_started l true) = _) Ea)
        as (_ & _ & _ & _ & Hf' & next' & Hn' & _ & Hnf').
      unfold line_fonts. rewrite Hn', Hf', Hnf'. done.
    + intros [= <- <-]. unfold line_fonts. by rewrite Hn.
  - destruct (PDFTextLine.pend_word next w) as [next'|] eqn:Ep; [|done].
    destruct (WrapFacts.pend_word_tokens _ _ _ Ep) as (_ & _ & Hf' & _).
    intros [= <- <-]. unfold line_fonts. simpl. rewrite Hf'. done.
Qed.

Lemma fonts_state_commit tbl before s il c s1 :
  fonts_state tbl before s → add_current_line s il = Ok (c, s1) →
  fonts_state tbl before s1.
Proof.
  intros [(H1 & H2 & H3) H4] Hc.
  destruct (commit_spec _ _ _ _ Hc) as (Hcur & _ & Hf' & Hb).
  destruct c; [|by rewrite Hb].
  destruct Hb as (_ & _ & _ & Hu & Hcu).
  unfold fonts_state, fonts_inv. rewrite Hcur, Hf', Hu, Hcu.
  split; [|set_solver]. split; [done|]. split; [done|].
  intros fm Hin. apply H3. set_solver.
Qed.

Lemma fonts_state_open tbl before s (i : nat) part s1 :
  fonts_state tbl before s → content s !! i = Some (Dict part) →
  open_part s part = Ok s1 → fonts_state tbl before s1.
Proof.
  intros [(H1 & H2 & H3) H4] _. unfold open_part, mbind, result_bind.
  destruct (PDFTextLine.add_line_part _ _ _) as [[lp line]|] eqn:Ea; [|done].
  destruct (line_fonts_add_line_part _ _ _ _ _ _ H2 Ea) as [H2' Hlp].
  destruct (negb _ && _).
  - destruct (setup_list _) as [s3|] eqn:Es; [|done].
    apply setup_list_keeps in Es
      as (Hf3 & Hu3 & _ & _ & _ & Hc3 & _ & _ & _ & _ & q & st & Hq & Hcu3).
    change (fonts s3 = fonts s) in Hf3. change (used_fonts s3 = used_fonts s) in Hu3.
    change (current_line s3 = line) in Hc3.
    change (PDFTextLinePart.init st (fonts s) None = Ok q) in Hq.
    change (current_line_used_fonts s3
            = current_line_used_fonts s
              ∪ {[ (PDFState.font_family (PDFTextLinePart.state q),
                    PDFState.font_mode (PDFTextLinePart.state q)) ]}) in Hcu3.
    rewrite H1 in Hq. apply init_part_font_known in Hq.
    intros [= <-]. split; [|by rewrite <- Hu3 in H4].
    split; [by rewrite <- Hf3 in H1|]. split; [by rewrite <- Hc3 in H2'|].
    intros fm.
    change (fm ∈ used_fonts s3
                 ∪ (current_line_used_fonts s3
                    ∪ {[ (PDFState.font_family (PDFTextLinePart.state lp),
                          PDFState.font_mode (PDFTextLinePart.state lp)) ]})
            → font_known tbl fm).
    rewrite Hu3, Hcu3, !elem_of_union, !elem_of_singleton.
    intros [?|[[?| -> ]| -> ]]; try done; apply H3; set_solver.
  - intros [= <-]. split; [|exact H4]. split; [exact H1|]. split; [exact H2'|].
    intros fm.
    change (fm ∈ used_fonts s
                 ∪ (current_line_used_fonts s
                    ∪ {[ (PDFState.font_family (PDFTextLinePart.state lp),
                          PDFState.font_mode (PDFTextLinePart.state lp)) ]})
            → font_known tbl fm).
    rewrite !elem_of_union, !elem_of_singleton.
    intros [?|[?| -> ]]; try done; apply H3; set_solver.
Qed.

Lemma fonts_state_word tbl before s w nw st line :
  fonts_state tbl before s →
  PDFTextLine.add_word (current_line s) w nw = Ok (st, line) →
  match st with
  | PDFTextLine.finished nl =>
      ∀ il c s1, add_current_line (set_current_line s line) il = Ok (c, s1) →
                 fonts_state tbl before (replace_current_line s1 nl)
  | _ => fonts_state tbl before (set_current_line s line)
  end.
Proof.
  intros [(H1 & H2 & H3) H4] Ha.
  destruct (line_fonts_add_word _ _ _ _ _ _ H2 Ha) as [H2' Hnl].
  assert (fonts_state tbl before (set_current_line s line)) as HI.
  { split; [|exact H4]. split; [exact H1|]. split; [exact H2'|exact H3]. }
  destruct st as [| | |nl]; try exact HI.
  intros il c s2 Hc.
  destruct (fonts_state_commit _ _ _ _ _ _ HI Hc) as [(G1 & G2 & G3) G4].
  split; [|exact G4]. split; [exact G1|]. split; [exact Hnl|exact G3].
Qed.

Lemma fonts_state_cursor tbl before s i j :
  fonts_state tbl before s →
  fonts_state tbl before (set_last_word_index (set_last_part_index s i) j).
Proof. intros H. exact H. Qed.

Lemma fonts_state_content tbl before s c :
  fonts_state tbl before s → fonts_state tbl before (set_content s c).
Proof. intros H. exact H. Qed.

Lemma fonts_state_finished tbl before s :
  fonts_state tbl before s → fonts_state tbl before (set_finished s true).
Proof. intros H. exact H. Qed.

Lemma fonts_state_init self s0 :
  (∀ fm, fm ∈ used_fonts self → font_known (fonts self) fm) →
  init self = Ok s0 → fonts_state (fonts self) (used_fonts self) s0.
Proof.
  intros Hused Ei.
  destruct (init_fields _ _ Ei) as (mw & Hcl & _ & _ & _ & Hf0 & Hu0 & Hc0).
  unfold fonts_state, fonts_inv. rewrite Hf0, Hu0, Hc0, Hcl.
  split; [|done]. split; [done|]. split; [done|].
  intros fm Hin. apply Hused. set_solver.
Qed.

(** X13. Every font that a layout call notes as used is in the font table:
    when the fonts noted before the call are, so are the fonts noted after
    it, a superset; the call does not change the table. *)
Theorem run_used_fonts_known (self : t) (fin : bool) (s : t) :
  (∀ fm, fm ∈ used_fonts self → font_known (fonts self) fm) →
  run self = Ok (fin, s) →
  fonts s = fonts self
  ∧ used_fonts self ⊆ used_fonts s
  ∧ ∀ fm, fm ∈ used_fonts s → font_known (fonts s) fm.
Proof.
  intros Hused Hrun. destruct (run_init _ _ _ Hrun) as [s0 Ei].
  destruct (run_ind (fonts_state (fonts self) (used_fonts self))
              (fun s i => fonts_state_cursor _ _ s (i + 1) 0)
              (fun s i part toks H _ => fonts_state_content _ _ s _ H)
              (fonts_state_finished _ _) (fonts_state_commit _ _)
              (fonts_state_open _ _) (fonts_state_word _ _)
              self s0 fin s Ei (fonts_state_init _ _ Hused Ei) Hrun)
    as [(Hf & _ & Hk) Hsub].
  rewrite Hf. split; [done|]. split; [done|].
  intros fm Hin. apply Hk. set_solver.
Qed.

(** *** The cursor *)

Lemma init_cursor self s0 :
  init self = Ok s0 →
  last_word_index s0 = last_word_index self
  ∧ last_part_index s0 = last_part_index self
  ∧ content s0 = content self ∧ graphics s0 = ""%string.
Proof.
  unfold init, mbind, result_bind.
  destruct (number _); [|done]. by intros [= <-].
Qed.

Lemma commit_keeps s il c s1 :
  add_current_line s il = Ok (c, s1) →
  last_word_index s1 = last_word_index s
  ∧ last_part_index s1 = last_part_index s
  ∧ content s1 = content s ∧ current_line s1 = current_line s.
Proof.
  unfold add_current_line. destruct (Qltb _ _); [by intros [= <- <-]|].
  unfold mbind, result_bind.
  destruct (add_line_to_stream _ _ _) as [s2|] eqn:Ea; [|done].
  intros [= <- <-]. apply emit_line_keeps in Ea.
  simpl in Ea. destruct_and!. done.
Qed.

Lemma cursor_state_commit self s il c s1 :
  cursor_state self s → add_current_line s il = Ok (c, s1) → cursor_state self s1.
Proof.
  intros H Hc. apply commit_keeps in Hc as (Hw & Hp & _).
  unfold cursor_state. by rewrite Hw, Hp.
Qed.

Lemma cursor_state_open self s (i : nat) part s1 :
  cursor_state self s → content s !! i = Some (Dict part) →
  open_part s part = Ok s1 → cursor_state self s1.
Proof.
  intros H _ Ho. apply open_part_keeps in Ho as (_ & _ & _ & _ & _ & _ & Hw & Hp).
  unfold cursor_state. by rewrite Hw, Hp.
Qed.

Lemma cursor_state_word self s w nw st line :
  cursor_state self s →
  PDFTextLine.add_word (current_line s) w nw = Ok (st, line) →
  match st with
  | PDFTextLine.finished nl =>
      ∀ il c s1, add_current_line (set_current_line s line) il = Ok (c, s1) →
                 cursor_state self (replace_current_line s1 nl)
  | _ => cursor_state self (set_current_line s line)
  end.
Proof.
  intros HI Ha. destruct st as [| | |nl]; try exact HI.
  intros il c s2 Hc.
  exact (cursor_state_commit self (set_current_line s line) il c s2 HI Hc).
Qed.

(** X14. The cursor a layout call leaves never points inside a part: the word
    index is 0, unless the call moved the cursor not at all. *)
Theorem run_cursor_at_part_start (self : t) (fin : bool) (s : t) :
  run self = Ok (fin, s) →
  last_word_index s = 0%nat
  ∨ (last_word_index s = last_word_index self
     ∧ last_part_index s = last_part_index self).
Proof.
  intros Hrun. destruct (run_init _ _ _ Hrun) as [s0 Ei].
  apply (run_ind (cursor_state self)) with (self := self) (s0 := s0) (fin := fin).
  - intros s1 i _. by left.
  - intros s1 i part toks H _. exact H.
  - intros s1 H. exact H.
  - apply cursor_state_commit.
  - apply cursor_state_open.
  - apply cursor_state_word.
  - exact Ei.
  - right. by apply init_cursor in Ei as (? & ? & _).
  - exact Hrun.
Qed.

(** *** Text without underline or background *)

Lemma part_add_word_plain p w p' :
  PDFTextLinePart.add_word p w = Ok p' → plain_part p → plain_part p'.
Proof.
  unfold PDFTextLinePart.add_word. destruct (String.eqb w " ").
  - by intros [= <-].
  - unfold mbind, result_bind.
    destruct (PDFTextLinePart.get_word_width _ w); [|done]. by intros [= <-].
Qed.

Lemma part_pop_word_plain p index o p' :
  PDFTextLinePart.pop_word p index = Ok (o, p') → plain_part p → plain_part p'.
Proof.
  unfold PDFTextLinePart.pop_word.
  destruct (PDFTextLinePart.words p); [by intros [= <- <-]|].
  unfold mbind, result_bind.
  destruct (list_pop _ _) as [[word rest]|]; [|done].
  destruct (String.eqb word " "); [by intros [= <- <-]|].
  destruct (PDFTextLinePart.get_word_width _ word); [|done]. by intros [= <- <-].
Qed.

Lemma part_init_plain style fonts ids p :
  PDFTextLinePart.init style fonts ids = Ok p → plain_style style → plain_part p.
Proof.
  unfold PDFTextLinePart.init, mbind, result_bind.
  destruct (PDFState.init style fonts) as [st|]; [|done].
  destruct (PDFTextLinePart.char_width fonts st " ") as [sw|]; [|done].
  intros [= <-] [Hu Hb]. by split.
Qed.

Lemma plain_add_line_part l style ids p l' :
  plain_line l → plain_style style →
  PDFTextLine.add_line_part l style ids = Ok (p, l') → plain_line l'.
Proof.
  intros [Hl Hn] Hs. unfold PDFTextLine.add_line_part, mbind, result_bind.
  destruct (PDFTextLinePart.init style (PDFTextLine.fonts l) ids) as [q|] eqn:Eq;
    [|done].
  apply part_init_plain in Eq; [|done].
  intros [= <- <-]. split; [exact Hl|]. simpl.
  destruct (PDFTextLine.next_line l); simpl.
  - apply Forall_app. split; [done|by constructor].
  - by constructor.
Qed.

Lemma plain_add_accumulated l next l' :
  PDFTextLine.next_line l = Some next →
  Forall plain_part (PDFTextLine.line_parts l) →
  Forall plain_part (PDFTextLine.line_parts next) →
  PDFTextLine.add_accumulated l = Ok l' → plain_line l'.
Proof.
  intros Hn Hl Hnl. unfold PDFTextLine.add_accumulated. rewrite Hn.
  destruct (split_last _) as [[front lp]|] eqn:Es; [|done].
  apply split_last_Some in Es.
  assert (Forall plain_part (front ++ [lp])) as Hall
    by (rewrite <- Es; by apply Forall_app).
  apply Forall_app in Hall as [Hfront Hlp]. rewrite Forall_singleton in Hlp.
  unfold mbind, result_bind.
  destruct (PDFTextLinePart.add_word lp " ") as [lp'|] eqn:Ea; [|done].
  pose proof (part_add_word_plain _ _ _ Ea Hlp) as Hlp'.
  destruct (PDFTextLinePart.init _ _ _) as [fresh|] eqn:Ef; [|done].
  apply part_init_plain in Ef; [|by destruct Hlp'].
  intros [= <-]. split; simpl.
  - apply Forall_app. split; [done|by constructor].
  - by constructor.
Qed.

Lemma plain_pend_word next w next' :
  Forall plain_part (PDFTextLine.line_parts next) →
  PDFTextLine.pend_word next w = Ok next' →
  Forall plain_part (PDFTextLine.line_parts next').
Proof.
  intros Hnl. unfold PDFTextLine.pend_word.
  destruct (split_last _) as [[front lp]|] eqn:Es; [|done].
  apply split_last_Some in Es. rewrite Es in Hnl.
  apply Forall_app in Hnl as [Hfront Hlp]. rewrite Forall_singleton in Hlp.
  unfold mbind, result_bind.
  destruct (PDFTextLinePart.add_word lp w) as [lp'|] eqn:Ea; [|done].
  intros [= <-]. simpl. apply Forall_app. split; [done|].
  constructor; [by eapply part_add_word_plain|done].
Qed.

Lemma plain_finish_line l next nw st l' :
  Forall plain_part (PDFTextLine.line_parts l) →
  Forall plain_part (PDFTextLine.line_parts next) →
  PDFTextLine.finish_line l next nw = Ok (st, l') →
  plain_line l'
  ∧ match st with PDFTextLine.finished nl => plain_line nl | _ => True end.
Proof.
  intros Hl Hnl. unfold PDFTextLine.finish_line.
  destruct (split_last _) as [[front lp]|] eqn:Es; [|done].
  apply split_last_Some in Es. rewrite Es in Hl.
  apply Forall_app in Hl as [Hfront Hlp]. rewrite Forall_singleton in Hlp.
  unfold mbind, result_bind.
  destruct (match last _ with Some _ => _ | None => _ end) as [l1|] eqn:El; [|done].
  assert (Forall plain_part (PDFTextLine.line_parts l1)) as Hl1.
  { destruct (last (PDFTextLinePart.words lp)) as [w|].
    - destruct (String.eqb w " ").
      + destruct (PDFTextLinePart.pop_word lp _) as [[o lp']|] eqn:Ep; [|done].
        injection El as <-. simpl. apply Forall_app. split; [done|].
        constructor; [by eapply part_pop_word_plain|done].
      + injection El as <-. rewrite Es. apply Forall_app. split; [done|].
        by constructor.
    - injection El as <-. rewrite Es. apply Forall_app. split; [done|].
      by constructor. }
  intros [= <- <-]. split; split; simpl; done.
Qed.

Lemma plain_add_word l w nw st l' :
  plain_line l → PDFTextLine.add_word l w nw = Ok (st, l') →
  plain_line l'
  ∧ match st with PDFTextLine.finished nl => plain_line nl | _ => True end.
Proof.
  intros [Hl Hnl]. unfold PDFTextLine.add_word.
  destruct (PDFTextLine.next_line l) as [next|] eqn:Hn; [|done].
  unfold mbind, result_bind.
  destruct (PDFTextLine.started l), (PDFTextLine.isspace w); simpl.
  - destruct (PDFTextLine.is_last_word_space l).
    { intros [= <- <-]. split; [|done]. split; [done|]. by rewrite Hn. }
    destruct (PDFTextLine.add_accumulated l) as [l1|] eqn:Ea; [|done].
    intros [= <- <-]. split; [|done]. by eapply plain_add_accumulated.
  - destruct (PDFTextLine.pend_word next w) as [next'|] eqn:Ep; [|done].
    pose proof (plain_pend_word _ _ _ Hnl Ep) as Hnl'.
    destruct (Qltb _ _).
    + intros [= <- <-]. split; [|done]. split; done.
    + intros Hfin. by eapply plain_finish_line in Hfin.
  - destruct (PDFTextLine.firstWordAdded l).
    + destruct (PDFTextLine.add_accumulated _) as [l1|] eqn:Ea; [|done].
      intros [= <- <-]. split; [|done].
      by eapply (plain_add_accumulated (PDFTextLine.set_started l true)).
    + intros [= <- <-]. split; [|done]. split; [done|]. by rewrite Hn.
  - destruct (PDFTextLine.pend_word next w) as [next'|] eqn:Ep; [|done].
    pose proof (plain_pend_word _ _ _ Hnl Ep) as Hnl'.
    intros [= <- <-]. split; [|done]. split; done.
Qed.

Lemma output_text_graphics s part f str s' :
  output_text s part f = Ok (str, s') → graphics s' = graphics s.
Proof.
  unfold output_text. unfold mbind, result_bind.
  destruct (PDFState.compare _ _); [|done].
  destruct (Qopt_neb _ _); intros [= <- <-]; done.
Qed.

Lemma output_graphics_plain s part x y w :
  plain_part part → output_graphics s part x y w = (""%string, s).
Proof.
  intros (_ & Hu & Hb). unfold output_graphics. by rewrite Hb, Hu.
Qed.

Lemma emit_parts_plain parts : ∀ s x f s',
  Forall plain_part parts → emit_parts s parts x f = Ok s' →
  graphics s' = graphics s.
Proof.
  induction parts as [|part parts IH]; intros s x f s' Hall; simpl.
  - by intros [= <-].
  - apply Forall_cons in Hall as [Hp Hall]. unfold mbind, result_bind.
    destruct (output_text s part f) as [[str s1]|] eqn:Eo; [|done].
    apply output_text_graphics in Eo.
    rewrite (output_graphics_plain _ _ _ _ _ Hp).
    intros Hrest. apply IH in Hrest; [|done]. rewrite Hrest. simpl.
    by rewrite append_empty_r.
Qed.

Lemma position_line_graphics s line s' x flh fw :
  position_line s line = Ok (s', x, flh, fw) → graphics s' = graphics s.
Proof.
  unfold position_line. unfold mbind, result_bind.
  repeat (case_match; simplify_eq/=); intros; simplify_eq/=; done.
Qed.

Lemma emit_line_graphics s line il s' :
  add_line_to_stream s line il = Ok s' →
  Forall plain_part (PDFTextLine.line_parts line) → graphics s' = graphics s.
Proof.
  unfold add_line_to_stream. unfold mbind, result_bind.
  destruct (position_line s line) as [[[[s1 x] flh] fw]|] eqn:Ep; [|done].
  apply position_line_graphics in Ep. intros He Hall.
  apply emit_parts_plain in He; [|done]. rewrite He. simpl. exact Ep.
Qed.

Lemma commit_graphics s il c s1 :
  add_current_line s il = Ok (c, s1) →
  Forall plain_part (PDFTextLine.line_parts (current_line s)) →
  graphics s1 = graphics s.
Proof.
  intros Ha Hl. revert Ha. unfold add_current_line.
  destruct (Qltb _ _); [by intros [= <- <-]|].
  unfold mbind, result_bind.
  destruct (add_line_to_stream _ _ _) as [s2|] eqn:Ea; [|done].
  apply emit_line_graphics in Ea; [|exact Hl].
  intros [= <- <-]. exact Ea.
Qed.

Lemma plain_state_commit s il c s1 :
  plain_state s → add_current_line s il = Ok (c, s1) → plain_state s1.
Proof.
  intros (Hg & Hl & Hc) Ha.
  destruct (commit_keeps _ _ _ _ Ha) as (_ & _ & Hco & Hcl).
  unfold plain_state. rewrite Hco, Hcl. split; [|done].
  rewrite (commit_graphics _ _ _ _ Ha); [exact Hg|by destruct Hl].
Qed.

Lemma plain_state_open s (i : nat) part s1 :
  plain_state s → content s !! i = Some (Dict part) →
  open_part s part = Ok s1 → plain_state s1.
Proof.
  intros (Hg & Hl & Hc) Hpart Ho.
  destruct (open_part_keeps _ _ _ Ho) as (_ & _ & _ & _ & Hco & Hgr & _).
  destruct (open_part_lines _ _ _ Ho) as (lp & line & Ea & Hcl & _).
  unfold plain_state. rewrite Hco, Hgr, Hcl. split; [done|]. split; [|done].
  eapply plain_add_line_part; [exact Hl| |exact Ea].
  apply Hc. by eapply list_elem_of_lookup_2.
Qed.

Lemma plain_state_content s i part toks :
  plain_state s → content s !! i = Some (Dict part) →
  plain_state (set_content s
                 (<[i := Dict (mkPart (p_type part) (Some (TList toks))
                                      (p_style part) (p_ids part))]> (content s))).
Proof.
  intros (Hg & Hl & Hc) Hpart. split; [exact Hg|]. split; [exact Hl|].
  intros d Hin. change (Dict d ∈ <[i := Dict (mkPart (p_type part)
                                            (Some (TList toks)) (p_style part)
                                            (p_ids part))]> (content s)) in Hin.
  apply list_elem_of_lookup_1 in Hin as [j Hj].
  apply list_lookup_insert_Some in Hj as [(-> & [= <-] & _)|[_ Hj]].
  - simpl. apply Hc. by eapply list_elem_of_lookup_2.
  - apply Hc. by eapply list_elem_of_lookup_2.
Qed.

Lemma plain_state_word s w nw st line :
  plain_state s → PDFTextLine.add_word (current_line s) w nw = Ok (st, line) →
  match st with
  | PDFTextLine.finished nl =>
      ∀ il c s1, add_current_line (set_current_line s line) il = Ok (c, s1) →
                 plain_state (replace_current_line s1 nl)
  | _ => plain_state (set_current_line s line)
  end.
Proof.
  intros (Hg & Hl & Hc) Ha.
  destruct (plain_add_word _ _ _ _ _ Hl Ha) as [Hl' Hnl].
  assert (plain_state (set_current_line s line)) as HI.
  { split; [exact Hg|]. split; [exact Hl'|exact Hc]. }
  destruct st as [| | |nl]; try exact HI.
  intros il c s2 Hcm.
  destruct (plain_state_commit _ _ _ _ HI Hcm) as (G1 & _ & G3).
  split; [exact G1|]. split; [exact Hnl|exact G3].
Qed.

(** X15. Text without underline or background draws nothing: when no part of
    the content asks for an underline or a background, the default style
    counted in, the graphics stream is empty after a layout call. *)
Theorem run_plain_text_no_graphics (self : t) (fin : bool) (s : t) :
  plain_content (content self) → run self = Ok (fin, s) →
  graphics s = ""%string.
Proof.
  intros Hplain Hrun. destruct (run_init _ _ _ Hrun) as [s0 Ei].
  assert (plain_state s0) as H0.
  { destruct (init_fields _ _ Ei) as (mw & Hcl & _).
    destruct (init_cursor _ _ Ei) as (_ & _ & Hco & Hg).
    unfold plain_state. rewrite Hg, Hco, Hcl. split; [done|]. split; [|done].
    split; [constructor|exact I]. }
  destruct (run_ind plain_state (fun s i H => H) plain_state_content
              (fun s H => H) plain_state_commit plain_state_open plain_state_word
              self s0 fin s Ei H0 Hrun) as (Hg & _).
  exact Hg.
Qed.

End facts.
End RunFacts.

(** ** [PDFTextBase]: the text stream and the anchors *)

Module EmitFacts.
Section facts.
Context `{EXT : Externals}.
Import PDFTextBase.

Lemma Qneb_refl (q : Q) : Qneb q q = false.
Proof. unfold Qneb. by rewrite (proj2 (Qeq_bool_iff q q) (Qeq_refl q)). Qed.

Lemma compare_same (st : PDFState.t) :
  color_ne (PDFState.color st) (Some (PDFState.color st)) = false →
  PDFState.compare st (Some st) = Ok ""%string.
Proof.
  intros Hc. unfold PDFState.compare, PDFState.compare_directives.
  unfold PDFState.font_differs, PDFState.color_differs, PDFState.rise_differs.
  rewrite !String.eqb_refl, !Qneb_refl, Hc. reflexivity.
Qed.

(** X16. The text state is not written twice: when a part has just been
    shown, showing it again at the same factor emits no font, colour, rise
    or word-spacing directive, only the text itself, and changes nothing in
    the object. It takes that a colour is not different from itself. *)
Theorem output_text_again (s : t) (part : PDFTextLinePart.t) (f : Q)
    (str : string) (s1 : t) :
  color_ne (PDFState.color (PDFTextLinePart.state part))
           (Some (PDFState.color (PDFTextLinePart.state part))) = false →
  output_text s part f = Ok (str, s1) →
  output_text s1 part f
  = Ok (let text := join_words (PDFTextLinePart.words part) in
        if negb (String.eqb text "") then " (" +:+ text +:+ ")Tj" else "",
        s1)%string.
Proof.
  intros Hc. unfold output_text at 1. unfold mbind, result_bind.
  destruct (PDFState.compare _ (last_state s)) as [cmp|]; [|done].
  destruct (Qopt_neb _ _) eqn:Ef; intros [= <- <-].
  - unfold output_text, mbind, result_bind. simpl.
    rewrite (compare_same _ Hc), Qneb_refl. reflexivity.
  - unfold output_text, mbind, result_bind. simpl in Ef |- *.
    rewrite (compare_same _ Hc), Ef. reflexivity.
Qed.

Lemma add_boxes_grows (l : list string) : ∀ (m : gmap string (list box)) (b : box),
  (∀ id boxes, m !! id = Some boxes →
     ∃ more, add_boxes m (Some l) b !! id = Some (boxes ++ more))
  ∧ (∀ id, id ∈ l → ∃ boxes, add_boxes m (Some l) b !! id = Some boxes ∧ b ∈ boxes).
Proof.
  induction l as [|a l IH]; intros m b; simpl.
  - split; [|intros id Hin; by apply elem_of_nil in Hin].
    intros id boxes Hm. exists []. by rewrite app_nil_r.
  - destruct (IH (<[a := default (m !! a) [] ++ [b]]> m) b) as [IH1 IH2].
    split.
    + intros id boxes Hm. destruct (decide (id = a)) as [->|Hne].
      * destruct (IH1 a (boxes ++ [b])) as [more Hmore].
        { rewrite lookup_insert_eq, Hm. done. }
        exists ([b] ++ more). by rewrite app_assoc.
      * apply IH1. by rewrite lookup_insert_ne.
    + intros id Hin. apply elem_of_cons in Hin as [->|Hin]; [|by apply IH2].
      destruct (IH1 a (default (m !! a) [] ++ [b])) as [more Hmore].
      { by rewrite lookup_insert_eq. }
      eexists. split; [exact Hmore|]. set_solver.
Qed.

Lemma output_text_ids s part f str s' :
  output_text s part f = Ok (str, s') → ids s' = ids s ∧ y_ s' = y_ s.
Proof.
  unfold output_text. unfold mbind, result_bind.
  destruct (PDFState.compare _ _); [|done].
  destruct (Qopt_neb _ _); intros [= <- <-]; done.
Qed.

Lemma output_graphics_ids s part x y w g s' :
  output_graphics s part x y w = (g, s') → ids s' = ids s ∧ y_ s' = y_ s.
Proof.
  unfold output_graphics.
  repeat (case_match; simplify_eq/=); intros; simplify_eq/=; done.
Qed.

Lemma position_line_ids s line s' x flh fw :
  position_line s line = Ok (s', x, flh, fw) → ids s' = ids s.
Proof.
  unfold position_line. unfold mbind, result_bind.
  repeat (case_match; simplify_eq/=); intros; simplify_eq/=; done.
Qed.

Lemma emit_parts_anchors parts : ∀ s x f s',
  emit_parts s parts x f = Ok s' →
  (∀ id boxes, ids s !! id = Some boxes →
     ∃ more, ids s' !! id = Some (boxes ++ more))
  ∧ (∀ part l id, part ∈ parts → PDFTextLinePart.ids part = Some l → id ∈ l →
       ∃ boxes, ids s' !! id = Some boxes ∧ boxes ≠ []).
Proof.
  induction parts as [|part parts IH]; intros s x f s'; simpl.
  - intros [= <-]. split.
    + intros id boxes Hm. exists []. by rewrite app_nil_r.
    + intros part l id Hin. by apply elem_of_nil in Hin.
  - unfold mbind, result_bind.
    destruct (output_text s part f) as [[str s1]|] eqn:Eo; [|done].
    apply output_text_ids in Eo as [Eo _].
    destruct (output_graphics _ _ _ _ _) as [g s2] eqn:Eg.
    apply output_graphics_ids in Eg as [Eg _]. simpl in Eg.
    intros Hrest. apply IH in Hrest as [IH1 IH2]. simpl in IH1.
    rewrite Eg, Eo in IH1.
    assert (∀ id boxes, ids s !! id = Some boxes →
              ∃ more, ids s' !! id = Some (boxes ++ more)) as Hgrow.
    { intros id boxes Hm. destruct (PDFTextLinePart.ids part) as [l|]; simpl in IH1.
      - destruct (add_boxes_grows l (ids s)
                    (round3 x,
                     round3 (y_ s1 + PDFState.rise (PDFTextLinePart.state part)
                             - round3 (PDFState.size (PDFTextLinePart.state part))
                               * (1 # 4)),
                     round3 (x + PDFTextLinePart.current_width part f),
                     round3 (round3 (PDFState.size (PDFTextLinePart.state part)))))
          as [G1 _].
        destruct (G1 id boxes Hm) as [more1 Hmore1].
        destruct (IH1 _ _ Hmore1) as [more2 Hmore2].
        exists (more1 ++ more2). by rewrite app_assoc.
      - by apply IH1. }
    split; [exact Hgrow|].
    intros p l id Hin Hl Hid. apply elem_of_cons in Hin as [->|Hin];
      [|by eapply IH2].
    rewrite Hl in IH1.
    destruct (add_boxes_grows l (ids s)
                (round3 x,
                 round3 (y_ s1 + PDFState.rise (PDFTextLinePart.state part)
                         - round3 (PDFState.size (PDFTextLinePart.state part))
                           * (1 # 4)),
                 round3 (x + PDFTextLinePart.current_width part f),
                 round3 (round3 (PDFState.size (PDFTextLinePart.state part)))))
      as [_ G2].
    destruct (G2 id Hid) as (boxes & Hb & Hin).
    destruct (IH1 _ _ Hb) as [more Hmore].
    exists (boxes ++ more). split; [done|]. destruct boxes; [|done].
    by apply elem_of_nil in Hin.
Qed.

(** X17. Emitting a line only adds to the anchor map: the boxes an anchor had
    are still there, first and in order, and every anchor of every part of
    the line has a box. *)
Theorem add_line_to_stream_anchors (s : t) (line : PDFTextLine.t) (is_last : bool)
    (s' : t) :
  add_line_to_stream s line is_last = Ok s' →
  (∀ id boxes, ids s !! id = Some boxes →
     ∃ more, ids s' !! id = Some (boxes ++ more))
  ∧ (∀ part l id, part ∈ PDFTextLine.line_parts line →
       PDFTextLinePart.ids part = Some l → id ∈ l →
       ∃ boxes, ids s' !! id = Some boxes ∧ boxes ≠ []).
Proof.
  unfold add_line_to_stream. unfold mbind, result_bind.
  destruct (position_line s line) as [[[[s1 x] flh] fw]|] eqn:Ep; [|done].
  apply position_line_ids in Ep. intros He.
  apply emit_parts_anchors in He as [H1 H2]. simpl in H1. rewrite Ep in H1.
  split; [exact H1|exact H2].
Qed.

End facts.
End EmitFacts.

(** ** [PDFText]: a scope of strings *)

Module ScopeFacts.
Section facts.
Context `{EXT : Externals}.
Import PDFText ParseSpec.

Lemma append_assoc (a b c : string) : (a +:+ b) +:+ c = a +:+ (b +:+ c).
Proof.
  induction a as [|ch a IH]; [reflexivity|].
  change (String ch ((a +:+ b) +:+ c) = String ch (a +:+ b +:+ c)). by rewrite IH.
Qed.

Lemma eqb_empty (s : string) : s ≠ ""%string → String.eqb s "" = false.
Proof. by destruct s. Qed.

Lemma append_nonempty (a b : string) : a ≠ ""%string → a +:+ b ≠ ""%string.
Proof. by destruct a. Qed.

Lemma tag_first sty i0 prefix v :
  tag_ok v →
  tag (mkParser [mkTextPart sty "" i0] [0]) 0 prefix v
  = Ok (mkParser [mkTextPart sty "" (i0 ++ tag_id prefix v)] [0]).
Proof.
  destruct v as [[]|]; try done; simpl; intros _; by rewrite ?app_nil_r.
Qed.

Section loop.
Variable recurse : parser → pyval → Style.t → list string → result parser.
Variable sty : Style.t.

(** Strings that follow a string go to the same part. *)
Lemma loop_strings (ss : list string) : ∀ st a txt i0,
  store st !! a = Some (mkTextPart sty txt i0) →
  Forall plain ss →
  elements_loop recurse sty st a true (map VStr ss)
  = Ok (mkParser (<[a := mkTextPart sty (txt +:+ PDFTextBase.join_words ss) i0]>
                    (store st))
                 (content st), a).
Proof.
  induction ss as [|s ss IH]; intros st a txt i0 Ha Hss; simpl.
  - rewrite append_empty_r, list_insert_id by done. by destruct st.
  - apply Forall_cons in Hss as [[Hne Hnl] Hss].
    rewrite (eqb_empty _ Hne). simpl.
    rewrite (TokenFacts.split_lines_whole s "" Hnl). simpl.
    unfold append_text, deref. rewrite Ha. simpl.
    assert (a < length (store st)) as Hlt by (by eapply lookup_lt_Some).
    rewrite (IH (mkParser (<[a := mkTextPart sty (txt +:+ s) i0]> (store st))
                          (content st)) a (txt +:+ s) i0).
    + simpl. rewrite list_insert_insert_eq, append_assoc. reflexivity.
    + simpl. by apply list_lookup_insert_eq.
    + exact Hss.
Qed.

(** The strings of a scope go to one part, which replaces the empty part
    the scope opened with. *)
Lemma loop_scope (s : string) (ss : list string) (i0 : list string) :
  Forall plain (s :: ss) →
  elements_loop recurse sty (mkParser [mkTextPart sty "" i0] [0]) 0 false
    (map VStr (s :: ss))
  = Ok (mkParser [mkTextPart sty "" i0;
                  mkTextPart sty (PDFTextBase.join_words (s :: ss)) i0] [1], 1).
Proof.
  intros Hss. apply Forall_cons in Hss as [[Hne Hnl] Hss]. simpl.
  rewrite (eqb_empty _ Hne). simpl.
  rewrite (TokenFacts.split_lines_whole s "" Hnl). simpl.
  rewrite (loop_strings ss _ 1 s i0); [reflexivity|reflexivity|exact Hss].
Qed.

End loop.

Section scope.
Variable pdf : option (pyval → string).
Variable fonts : fonts_t.

Lemma parse_elements_strings recurse (d : list (string * pyval)) (sty : Style.t)
    (ids : list string) (s : string) (ss : list string) (upd : Style.t) :
  process_style (assoc "style" d)
    (match pdf with Some _ => true | None => false end) = Ok upd →
  tag_ok (assoc "label" d) → tag_ok (assoc "ref" d) → tag_ok (assoc "uri" d) →
  Forall plain (s :: ss) →
  parse_elements pdf recurse (mkParser [] []) d sty ids (map VStr (s :: ss))
  = Ok (mkParser [mkTextPart (Style.update sty upd) "" (ids ++ tag_ids d);
                  mkTextPart (Style.update sty upd)
                    (PDFTextBase.join_words (s :: ss)) (ids ++ tag_ids d)] [1]).
Proof.
  intros Hp Hl Hr Hu Hss. unfold parse_elements, mbind, result_bind.
  rewrite Hp.
  change (_new_text_part (mkParser [] []) (Style.update sty upd) ids None)
    with (Ok (0, mkParser [mkTextPart (Style.update sty upd) "" ids] [0])
          : result (nat * parser)).
  cbv iota beta.
  rewrite (tag_first _ _ _ _ Hl). rewrite (tag_first _ _ _ _ Hr).
  rewrite (tag_first _ _ _ _ Hu). rewrite <- !app_assoc.
  fold (tag_ids d).
  rewrite (loop_scope recurse _ s ss _ Hss).
  apply Forall_cons in Hss as [[Hne _] _].
  change (PDFTextBase.join_words (s :: ss)) with (s +:+ PDFTextBase.join_words ss).
  unfold deref. simpl.
  match goal with
  | |- context [String.eqb ?t ""] =>
      rewrite (eqb_empty t) by (by apply append_nonempty)
  end.
  reflexivity.
Qed.

End scope.

(** X18. A scope [{'.sh': value, ...}] whose value is a string, or a list of
    strings, none of them empty or with a line break, parses to one text
    part: its text is the strings joined, its style the parent style updated
    by the shorthand [sh] and by the key [style], and its anchors the
    inherited ones followed by those of the keys [label], [ref] and [uri],
    in this order. *)
Theorem scope_of_strings (pdf : option (pyval → string)) (fonts : fonts_t)
    (sh : string) (value : pyval) (rest : list (string * pyval))
    (s : string) (ss : list string) (parent : Style.t) (ids : list string)
    (upd1 upd2 : Style.t) :
  let d := (String "." sh, value) :: rest in
  value = VList (map VStr (s :: ss)) ∨ (value = VStr s ∧ ss = []) →
  Forall plain (s :: ss) →
  parse_style_str sh fonts = Ok upd1 →
  process_style (assoc "style" d)
    (match pdf with Some _ => true | None => false end) = Ok upd2 →
  tag_ok (assoc "label" d) → tag_ok (assoc "ref" d) → tag_ok (assoc "uri" d) →
  (st ← _recursive_content_parse pdf fonts (mkParser [] []) (VDict d) parent ids;
   parts_of st)
  = Ok [Dict (mkPart None (Some (TStr (PDFTextBase.join_words (s :: ss))))
                (Some (Style.update (Style.update parent upd1) upd2))
                (Some (ids ++ tag_ids d)))].
Proof.
  intros d Hv Hss H1 H2 Hl Hr Hu.
  assert (_recursive_content_parse pdf fonts (mkParser [] []) (VDict d) parent ids
          = parse_elements pdf (parse_scope pdf fonts) (mkParser [] []) d
              (Style.update parent upd1) ids (map VStr (s :: ss))) as ->.
  { unfold _recursive_content_parse, d. destruct Hv as [->|[-> ->]].
    - simpl. destruct pdf; simpl; rewrite H1; reflexivity.
    - simpl. destruct pdf; simpl; rewrite H1; reflexivity. }
  rewrite (parse_elements_strings pdf _ d _ ids s ss upd2 H2 Hl Hr Hu Hss).
  reflexivity.
Qed.

(** X19. A content that is a plain string, or a list of plain strings, gives
    a block of one part with the default style as the externals update it
    and no anchor; the empty string is refused with [TypeError]. *)
Theorem new_of_strings (pdf : option (pyval → string)) (fonts : fonts_t)
    (content : pyval) (s : string) (ss : list string) (upd1 upd2 : Style.t)
    (width height : option Q) (x y : Q) (text_align : option string)
    (line_height : option Q) (indent : Q) (list_text : option string)
    (list_indent : option Q) (list_style : list_style_t) :
  content = VList (map VStr (s :: ss)) ∨ (content = VStr s ∧ ss = []) →
  parse_style_str "" fonts = Ok upd1 →
  process_style None (match pdf with Some _ => true | None => false end) = Ok upd2 →
  (Forall plain (s :: ss) →
   new pdf fonts content width height x y text_align line_height indent
       list_text list_indent list_style
   = Ok (PDFTextBase.build
           [Dict (mkPart None (Some (TStr (PDFTextBase.join_words (s :: ss))))
                    (Some (Style.update (Style.update TEXT_DEFAULTS upd1) upd2))
                    (Some []))]
           width height x y fonts text_align line_height indent
           list_text list_indent list_style))
  ∧ (s = ""%string →
     new pdf fonts content width height x y text_align line_height indent
         list_text list_indent list_style
     = Raise TypeError).
Proof.
  intros Hc H1 H2.
  assert (_recursive_content_parse pdf fonts (mkParser [] []) content
            TEXT_DEFAULTS []
          = parse_elements pdf (parse_scope pdf fonts) (mkParser [] [])
              [(".", content)]%string (Style.update TEXT_DEFAULTS upd1) []
              (map VStr (s :: ss))) as Hparse.
  { unfold _recursive_content_parse. destruct Hc as [->|[-> ->]].
    - cbn -[TEXT_DEFAULTS Style.update parse_elements].
      destruct pdf; cbn -[TEXT_DEFAULTS Style.update parse_elements];
        rewrite H1; reflexivity.
    - cbn -[TEXT_DEFAULTS Style.update parse_elements].
      destruct pdf; cbn -[TEXT_DEFAULTS Style.update parse_elements];
        rewrite H1; reflexivity. }
  split.
  - intros Hss. unfold new, mbind, result_bind. rewrite Hparse.
    rewrite (parse_elements_strings pdf _ [(".", content)]%string _ [] s ss upd2
               H2 I I I Hss).
    reflexivity.
  - intros ->. unfold new, mbind, result_bind. rewrite Hparse.
    unfold parse_elements, mbind, result_bind.
    change (assoc "style" [(".", content)]%string) with (@None pyval).
    rewrite H2. reflexivity.
Qed.

End facts.
End ScopeFacts.

(** ** [PDF]: the page, the cursor and [create_list] *)

Module PageFacts.
Section facts.
Context `{EXT : Externals}.
Import PDF.

Lemma init_shape (page_size : Q * Q) (fonts : fonts_t) (ms : list Q)
    (ta : string) (lh : Q) (self : t) :
  init page_size fonts ms ta lh = Ok self →
  ∃ a b, margins self = [a; b; a; b] ∧ x self = b ∧ (y self == a)%Q
    ∧ text_align self = ta ∧ line_height self = lh.
Proof.
  destruct page_size as [pw ph].
  destruct ms as [|a [|b [|c [|d ms]]]]; simpl; try done; intros [= <-].
  - exists a, a. unfold y. simpl. repeat split; try reflexivity. ring.
  - exists a, b. unfold y. simpl. repeat split; try reflexivity. ring.
Qed.

(** X20. [PDF.__init__] builds a document exactly when it is given one margin
    or two: three raise [TypeError] and any other count [AttributeError].
    The document then has four margins, the top equal to the bottom and the
    right equal to the left; its content area is the page less the margins;
    and its cursor is at the left margin, below the top margin. *)
Theorem init_geometry (page_size : Q * Q) (fonts : fonts_t) (ms : list Q)
    (ta : string) (lh : Q) :
  match init page_size fonts ms ta lh with
  | Ok self =>
      ∃ a b, (ms = [a] ∧ b = a ∨ ms = [a; b])
        ∧ margins self = [a; b; a; b]
        ∧ page_width self = page_size.1 ∧ page_height self = page_size.2
        ∧ (width self == page_size.1 - b - b)%Q
        ∧ (height self == page_size.2 - a - a)%Q
        ∧ x self = b ∧ (y self == a)%Q
        ∧ fonts_data self = fonts ∧ text_align self = ta ∧ line_height self = lh
  | Raise e =>
      length ms ≠ 1%nat ∧ length ms ≠ 2%nat
      ∧ e = (if (length ms =? 3)%nat then TypeError else AttributeError)
  end.
Proof.
  destruct page_size as [pw ph].
  destruct ms as [|a [|b [|c [|d ms]]]]; simpl; try done.
  - exists a, a. unfold y. simpl. repeat split; try reflexivity; [by left|ring].
  - exists a, b. unfold y. simpl. repeat split; try reflexivity; [by right|ring].
Qed.

(** X21. The cursor moves by what it is told: [move_x] and [move_y] add to [x]
    and to [y], that is, [move_y] lowers [_y] by as much; two moves are the
    move by the sums; assigning [y] and reading it back gives the value; and
    a move changes nothing but the cursor. *)
Theorem move_adds (self : t) (dx dy dx' dy' : Q) :
  (x (move self dx dy) == x self + dx)%Q
  ∧ (y (move self dx dy) == y self + dy)%Q
  ∧ (_y (move self dx dy) == _y self - dy)%Q
  ∧ (x (move (move self dx dy) dx' dy') == x (move self (dx + dx') (dy + dy')))%Q
  ∧ (_y (move (move self dx dy) dx' dy') == _y (move self (dx + dx') (dy + dy')))%Q
  ∧ (y (set_y self dy) == dy)%Q
  ∧ margins (move self dx dy) = margins self
  ∧ page_width (move self dx dy) = page_width self
  ∧ page_height (move self dx dy) = page_height self
  ∧ width (move self dx dy) = width self
  ∧ height (move self dx dy) = height self
  ∧ fonts_data (move self dx dy) = fonts_data self.
Proof.
  unfold move, move_y, move_x, set_y, y. simpl.
  repeat split; try reflexivity; ring.
Qed.

(** X22. On a document as built, the default region of a text block is what is
    left of the content area right of and below the cursor: after a move by
    [(dx, dy)] from the start of the page its width is the width of the
    content area less [dx] and its height the height of the area less
    [dy]. *)
Theorem default_text_style_region (page_size : Q * Q) (fonts : fonts_t)
    (ms : list Q) (ta : string) (lh : Q) (self : t) (dx dy : Q)
    (text_align_ : option string) (line_height_ : option Q) (indent : Q) :
  init page_size fonts ms ta lh = Ok self →
  ∃ w h,
    default_text_style (move self dx dy) None None text_align_ line_height_ indent
    = Ok [("width", ANumber w); ("height", ANumber h);
          ("text_align", AString (default text_align_ ta));
          ("line_height", ANumber (default line_height_ lh));
          ("indent", ANumber indent)]%string
    ∧ (w == width self - dx)%Q ∧ (h == height self - dy)%Q.
Proof.
  intros Hinit.
  destruct (init_shape _ _ _ _ _ _ Hinit) as (a & b & Hm & Hx & Hy & Hta & Hlh).
  unfold default_text_style, nth_margin, mbind, result_bind.
  change (margins (move self dx dy)) with (margins self). rewrite Hm. simpl.
  rewrite Hta, Hlh. eexists _, _. split; [reflexivity|].
  unfold move, move_y, move_x, set_y, y in *. simpl. rewrite Hx.
  split; [ring|]. lra.
Qed.

Lemma sub_width_keeps (style : list (string * arg)) (par_indent : Q)
    (style' : list (string * arg)) :
  sub_width style par_indent = Ok style' → assoc "width" style' ≠ None.
Proof.
  unfold sub_width. destruct (assoc "width" style) as [[| | |]|] eqn:Ew; try done.
  intros [= <-]. clear -Ew. induction style as [|[k v] style IH]; [done|].
  simpl in *. destruct (String.eqb k "width") eqn:Ek; simpl; rewrite Ek; [done|].
  by apply IH.
Qed.

(** X23. On every document that [PDF.__init__] has built, every call of
    [create_list] raises [TypeError], as [create_text] does: it narrows the
    region by [par_indent] and then makes the same call
    [PDFText(content, self.fonts_data, **p_style)], whose second positional
    argument and whose keyword [width] both bind the parameter [width]. *)
Theorem create_list_raises_TypeError (page_size : Q * Q) (fonts : fonts_t)
    (ms : list Q) (ta : string) (lh : Q) (self : t) (content : pyval)
    (width_ height_ : option Q) (text_align_ : option string)
    (line_height_ : option Q) (indent par_indent : Q) :
  init page_size fonts ms ta lh = Ok self →
  create_list self content width_ height_ text_align_ line_height_ indent
    par_indent
  = Raise TypeError.
Proof.
  intros Hinit. apply PDFFacts.init_margins_kept in Hinit.
  unfold create_list, default_text_style, nth_margin, mbind, result_bind.
  destruct (margins self) as [|a [|b [|c [|d [|]]]]]; try done.
  destruct width_, height_; reflexivity.
Qed.

End facts.
End PageFacts.

(** ** [PDFTextBase.run]: blocks without a list indent, or with nothing left *)

Module EdgeFacts.
Section facts.
Context `{EXT : Externals}.
Import PDFTextBase.

(** X24. A block whose [list_indent] is [None] cannot be laid out: [init()]
    subtracts it from the width before [setup_list] could measure the
    marker, and [TypeError] escapes from every call of [run]. *)
Theorem run_without_list_indent_raises (self : t) :
  list_indent self = None → run self = Raise TypeError.
Proof.
  intros Hli. unfold run, init, mbind, result_bind. simpl. by rewrite Hli.
Qed.

Lemma init_Some self li :
  list_indent self = Some li →
  ∃ s0, init self = Ok s0
    ∧ PDFTextLine.line_parts (current_line s0) = []
    ∧ PDFTextLine.top_margin (current_line s0) = 0%Q
    ∧ lines s0 = [] ∧ graphics s0 = ""%string
    ∧ current_height s0 = 0%Q ∧ started s0 = false
    ∧ height s0 = height self
    ∧ list_indent s0 = Some li ∧ list_text s0 = list_text self
    ∧ content s0 = content self ∧ last_part_index s0 = last_part_index self.
Proof.
  intros Hli. unfold init, mbind, result_bind. simpl. rewrite Hli. simpl.
  eexists. split; [reflexivity|]. simpl. by rewrite Hli.
Qed.

Lemma emit_empty_line s l il li :
  list_indent s = Some li → started s = false →
  truthy (list_text s) = false → PDFTextLine.line_parts l = [] →
  ∃ s', add_line_to_stream s l il = Ok s'.
Proof.
  intros Hli Hst Hlt Hparts.
  unfold add_line_to_stream, position_line, mbind, result_bind.
  destruct (PDFTextLine.get_widths l) as [W S]. rewrite Hli. simpl.
  rewrite Hst, Hlt. simpl.
  destruct (is_first_line s); simpl; rewrite Hparts; simpl; eauto.
Qed.

Lemma commit_empty_line s il li :
  list_indent s = Some li → started s = false →
  truthy (list_text s) = false →
  PDFTextLine.line_parts (current_line s) = [] →
  PDFTextLine.top_margin (current_line s) = 0%Q →
  current_height s = 0%Q → (0 <= height s)%Q →
  ∃ s', add_current_line s il = Ok (true, s').
Proof.
  intros Hli Hst Hlt Hparts Htm Hch H0. unfold add_current_line.
  assert (Qltb (height s)
            (PDFTextLine.height (current_line s) * line_height s
             + current_height s) = false) as ->.
  { apply WrapFacts.Qltb_false. unfold PDFTextLine.height.
    rewrite Hparts, Htm, Hch. simpl. lra. }
  unfold mbind, result_bind.
  destruct (add_line_to_stream _ _ false) as [s'|e] eqn:Ea; [eauto|].
  match type of Ea with
  | add_line_to_stream ?S ?L _ = _ =>
      destruct (emit_empty_line S L false li Hli Hst Hlt Hparts) as [s'' E']
  end.
  rewrite E' in Ea. discriminate Ea.
Qed.

(** X25. When nothing is left to lay out, the cursor being at the end of the
    content or the content empty, a call still commits a line: on a block
    without list marker whose height is not negative it lists the empty
    current line, uses no height, draws nothing and reports the block
    finished. *)
Theorem run_nothing_left (self : t) (li : Q) :
  length (content self) ≤ last_part_index self →
  list_indent self = Some li →
  truthy (list_text self) = false →
  (0 <= height self)%Q →
  ∃ s, run self = Ok (true, s)
    ∧ finished s = true
    ∧ lines s = [Current]
    ∧ PDFTextLine.line_parts (current_line s) = []
    ∧ (current_height s == 0)%Q
    ∧ graphics s = ""%string.
Proof.
  intros Hlen Hli Hlt H0.
  destruct (init_Some self li Hli)
    as (s0 & Ei & Hparts & Htm & Hl & Hg & Hch & Hst & Hh & Hli0 & Hlt0 & Hco & Hlp).
  rewrite <- Hlt0 in Hlt. rewrite <- Hh in H0.
  destruct (commit_empty_line s0 true li Hli0 Hst Hlt Hparts Htm Hch H0)
    as [s1 Hc].
  exists (set_finished s1 true).
  split.
  { unfold run, mbind, result_bind. rewrite Ei, Hco, Hlp.
    replace (length (content self) - last_part_index self)%nat with 0%nat by lia.
    simpl parts_loop. cbv iota beta. rewrite Hc. reflexivity. }
  destruct (RunFacts.commit_spec _ _ _ _ Hc) as (Hcl & _ & _ & Hl1 & Hch1 & _).
  pose proof (RunFacts.commit_graphics _ _ _ _ Hc) as Hg1.
  rewrite Hparts in Hg1. specialize (Hg1 (Forall_nil_2 _)).
  split; [reflexivity|].
  split; [change (lines s1 = [Current]); by rewrite Hl1, Hl|].
  split; [change (PDFTextLine.line_parts (current_line s1) = []);
          by rewrite Hcl|].
  split; [|change (graphics s1 = ""%string); by rewrite Hg1].
  change (current_height s1 == 0)%Q. rewrite Hch1, Hch.
  unfold PDFTextLine.height. rewrite Hparts, Htm. simpl. ring.
Qed.

End facts.
End EdgeFacts.

(** * More scenarios on the fixture *)

Module MoreScenarios.
Import Fixture.

Ltac no_newline :=
  unfold chars; simpl; intros Hin;
  repeat (apply elem_of_cons in Hin as [Hin|Hin]; [discriminate Hin|]);
  by apply elem_of_nil in Hin.

(** X3 on the fixture: the word "AB" on a fresh part of size 10, at the
    factor 0.7. *)
Lemma tentative_width_add_word_witness :
  match PDFTextLinePart.add_word fresh10 "AB" with
  | Ok p' =>
      ∃ x, PDFTextLinePart.tentative_width fresh10 "AB" (7 # 10) = Ok x
        ∧ (x == PDFTextLinePart.current_width p' (7 # 10))%Q
  | Raise _ => False
  end.
Proof.
  pose proof (fun p' => PartFacts.tentative_width_add_word fresh10 p' "AB" (7 # 10))
    as H.
  assert (match PDFTextLinePart.add_word fresh10 "AB" with
          | Ok _ => True | Raise _ => False end) as Hok by (vm_compute; exact I).
  destruct (PDFTextLinePart.add_word fresh10 "AB") as [p'|e]; [|exact Hok].
  exact (H p' eq_refl).
Defined.

(** X4 on the fixture: a new part of size 10 after "AB", a space and "C"
    are added and the first word is popped. *)
Lemma accounts_kept_witness :
  match PDFTextLinePart.init (Style.update TEXT_DEFAULTS size10) fonts None with
  | Ok p0 =>
      match PartSpec.after p0 [PartSpec.Add "AB"; PartSpec.Add " ";
                               PartSpec.Add "C"; PartSpec.Pop (Some 0%Z)] with
      | Ok p => PDFTextLinePart.words p = [" "; "C"]%string ∧ PartSpec.accounted p
      | Raise _ => False
      end
  | Raise _ => False
  end.
Proof.
  pose proof (PartFacts.accounts_kept (Style.update TEXT_DEFAULTS size10) fonts None)
    as H.
  assert (match PDFTextLinePart.init (Style.update TEXT_DEFAULTS size10) fonts None with
          | Ok p0 =>
              match PartSpec.after p0 [PartSpec.Add "AB"; PartSpec.Add " ";
                                       PartSpec.Add "C"; PartSpec.Pop (Some 0%Z)] with
              | Ok p => PDFTextLinePart.words p = [" "; "C"]%string
              | Raise _ => False
              end
          | Raise _ => False
          end) as Hs by (vm_compute; reflexivity).
  destruct (PDFTextLinePart.init _ fonts None) as [p0|e]; [|exact Hs].
  pose proof (fun p => H p0 p [PartSpec.Add "AB"; PartSpec.Add " ";
                               PartSpec.Add "C"; PartSpec.Pop (Some 0%Z)] eq_refl)
    as H'.
  destruct (PartSpec.after p0 _) as [p|e]; [|exact Hs].
  split; [exact Hs|exact (H' p eq_refl)].
Defined.

(** X5 on the fixture: the part of the line that holds "AAAA" and a
    space. *)
Lemma line_extent_witness :
  match PDFTextLine.line_parts (line_fed ["AAAA"; " "]%string) with
  | p :: _ =>
      let l := line_fed ["AAAA"; " "]%string in
      (PDFState.size (PDFTextLinePart.state p)
       + PDFState.rise (PDFTextLinePart.state p)
       + PDFTextLine.top_margin l <= PDFTextLine.height l)%Q
      ∧ (- PDFState.rise (PDFTextLinePart.state p) <= PDFTextLine.bottom l)%Q
      ∧ (PDFTextLine.top_margin l <= PDFTextLine.height l)%Q
      ∧ (0 <= PDFTextLine.bottom l)%Q
  | [] => False
  end.
Proof.
  pose proof (WrapFacts.line_extent (line_fed ["AAAA"; " "]%string)) as H.
  assert (match PDFTextLine.line_parts (line_fed ["AAAA"; " "]%string) with
          | _ :: _ => True | [] => False end) as Hne by (vm_compute; exact I).
  destruct (PDFTextLine.line_parts (line_fed ["AAAA"; " "]%string)) as [|p ps];
    [exact Hne|].
  apply H. apply elem_of_cons. by left.
Defined.

(** X6 on the fixture: the word "B" after "A" and a space, on a line of
    1000pt. *)
Lemma add_word_keeps_words_witness :
  match PDFTextLine.add_word (line_fed ["A"; " "]%string) "B" 1000 with
  | Ok (st, l') =>
      status_name st = "preadded"%string
      ∧ LineSpec.tokens l' = ["A"; " "]%string
      ∧ RunSpec.pending l' = ["B"]%string
  | Raise _ => False
  end.
Proof.
  pose proof (fun st l' =>
                WrapFacts.add_word_keeps_words (line_fed ["A"; " "]%string) "B" 1000
                  st l') as H.
  assert (match PDFTextLine.add_word (line_fed ["A"; " "]%string) "B" 1000 with
          | Ok (st, l') => status_name st = "preadded"%string
          | Raise _ => False
          end
          ∧ LineSpec.tokens (line_fed ["A"; " "]%string) = ["A"; " "]%string
          ∧ RunSpec.pending (line_fed ["A"; " "]%string) = []) as (Hs & Ht & Hp).
  { split; [vm_compute; reflexivity|]. split; vm_compute; reflexivity. }
  destruct (PDFTextLine.add_word _ "B" 1000) as [[st l']|e]; [|exact Hs].
  split; [exact Hs|]. specialize (H st l' eq_refl).
  destruct st as [| | |nl]; [discriminate Hs|discriminate Hs| |discriminate Hs].
  destruct H as (_ & H1 & H2). rewrite H1, H2, Ht, Hp.
  split; reflexivity.
Defined.

(** X9 on the fixture: the line "AAAA" and a space emitted to an empty
    block. *)
Lemma add_line_to_stream_layout_witness :
  match PDFTextBase.add_line_to_stream (block [] 30 1000 "l")
          (line_fed ["AAAA"; " "]%string) false with
  | Ok s' =>
      PDFTextBase.text s' = " 0 -10 Td /F1 10 Tf 0.100 g 0 Ts 0 Tw (AAAA )Tj"%string
      ∧ RunSpec.layout_same (block [] 30 1000 "l") s'
  | Raise _ => False
  end.
Proof.
  pose proof (RunFacts.add_line_to_stream_layout (block [] 30 1000 "l")
                (line_fed ["AAAA"; " "]%string) false) as H.
  assert (match PDFTextBase.add_line_to_stream (block [] 30 1000 "l")
                  (line_fed ["AAAA"; " "]%string) false with
          | Ok s' =>
              PDFTextBase.text s'
              = " 0 -10 Td /F1 10 Tf 0.100 g 0 Ts 0 Tw (AAAA )Tj"%string
          | Raise _ => False
          end) as Hs by (vm_compute; reflexivity).
  destruct (PDFTextBase.add_line_to_stream _ _ _) as [s'|e]; [|exact Hs].
  split; [exact Hs|exact (H s' eq_refl)].
Defined.

(** X10 on the fixture: that line as the current line of a block 1000pt
    high. *)
Lemma add_current_line_commits_witness :
  let self := PDFTextBase.set_current_line (block [] 30 1000 "l")
                (line_fed ["AAAA"; " "]%string) in
  match PDFTextBase.add_current_line self true with
  | Ok (b, s') =>
      b = true
      ∧ PDFTextBase.add_current_line self false = Ok (b, s')
      ∧ PDFTextBase.current_line s' = PDFTextBase.current_line self
      ∧ PDFTextBase.lines s' = PDFTextBase.lines self ++ [PDFTextBase.Current]
      ∧ (PDFTextBase.current_height s' <= PDFTextBase.height s')%Q
  | Raise _ => False
  end.
Proof.
  intros self.
  pose proof (RunFacts.add_current_line_commits self true) as H.
  assert (match PDFTextBase.add_current_line self true with
          | Ok (b, s') => b = true
          | Raise _ => False
          end) as Hs by (vm_compute; reflexivity).
  destruct (PDFTextBase.add_current_line self true) as [[b s']|e]; [|exact Hs].
  split; [exact Hs|]. destruct (H b s' eq_refl) as (H1 & H2 & _ & _ & H5).
  subst b. destruct H5 as (H5 & _ & H7 & _).
  split; [exact H1|]. split; [exact H2|]. split; [exact H5|exact H7].
Defined.

(** X11 on the fixture: two blanks, then "AA B CCCCC", wrapped at 30pt. *)
Lemma run_lines_start_with_a_word_witness :
  match PDFTextBase.run (block [part10 (TStr "  AA B CCCCC")] 30 1000 "l") with
  | Ok (fin, s) =>
      map shown (PDFTextBase.committed_lines s) = [[["AA"; " "]; ["B"]]; []]%string
      ∧ ∀ l, l ∈ PDFTextBase.committed_lines s → RunSpec.lead l
  | Raise _ => False
  end.
Proof.
  pose proof (RunFacts.run_lines_start_with_a_word
                (block [part10 (TStr "  AA B CCCCC")] 30 1000 "l")) as H.
  assert (match PDFTextBase.run (block [part10 (TStr "  AA B CCCCC")] 30 1000 "l") with
          | Ok (fin, s) =>
              map shown (PDFTextBase.committed_lines s)
              = [[["AA"; " "]; ["B"]]; []]%string
          | Raise _ => False
          end) as Hs by (vm_compute; reflexivity).
  destruct (PDFTextBase.run _) as [[fin s]|e]; [|exact Hs].
  split; [exact Hs|exact (H fin s eq_refl)].
Defined.

(** X12 on the fixture: "AAAA BBBB CCCC" at 30pt in a block 15pt high,
    where one line of 11pt fits. *)
Lemma run_within_height_witness :
  match PDFTextBase.run (block [part10 (TStr "AAAA BBBB CCCC")] 30 15 "l") with
  | Ok (fin, s) =>
      fin = false
      ∧ (PDFTextBase.current_height s <= PDFTextBase.height s)%Q
      ∧ PDFTextBase.height s
        = PDFTextBase.height (block [part10 (TStr "AAAA BBBB CCCC")] 30 15 "l")
  | Raise _ => False
  end.
Proof.
  pose proof (RunFacts.run_within_height
                (block [part10 (TStr "AAAA BBBB CCCC")] 30 15 "l")) as H.
  assert (0 <= PDFTextBase.height (block [part10 (TStr "AAAA BBBB CCCC")] 30 15 "l"))%Q
    as H0 by (vm_compute; discriminate).
  assert (match PDFTextBase.run (block [part10 (TStr "AAAA BBBB CCCC")] 30 15 "l") with
          | Ok (fin, s) => fin = false
          | Raise _ => False
          end) as Hs by (vm_compute; reflexivity).
  destruct (PDFTextBase.run _) as [[fin s]|e]; [|exact Hs].
  split; [exact Hs|exact (H fin s H0 eq_refl)].
Defined.

(** X13 on the fixture: "AA B CCCCC" at 30pt; the font of the part is
    noted and known. *)
Lemma run_used_fonts_known_witness :
  match PDFTextBase.run (block [part10 (TStr "AA B CCCCC")] 30 1000 "l") with
  | Ok (fin, s) =>
      bool_decide (("Helvetica", "n")%string ∈ PDFTextBase.used_fonts s) = true
      ∧ ∀ fm, fm ∈ PDFTextBase.used_fonts s →
              RunSpec.font_known (PDFTextBase.fonts s) fm
  | Raise _ => False
  end.
Proof.
  pose proof (RunFacts.run_used_fonts_known
                (block [part10 (TStr "AA B CCCCC")] 30 1000 "l")) as H.
  assert (∀ fm, fm ∈ PDFTextBase.used_fonts
                       (block [part10 (TStr "AA B CCCCC")] 30 1000 "l") →
                RunSpec.font_known
                  (PDFTextBase.fonts (block [part10 (TStr "AA B CCCCC")] 30 1000 "l"))
                  fm) as Hused.
  { intros fm Hin. by apply not_elem_of_empty in Hin. }
  assert (match PDFTextBase.run (block [part10 (TStr "AA B CCCCC")] 30 1000 "l") with
          | Ok (fin, s) =>
              bool_decide (("Helvetica", "n")%string ∈ PDFTextBase.used_fonts s) = true
          | Raise _ => False
          end) as Hs by (vm_compute; reflexivity).
  destruct (PDFTextBase.run _) as [[fin s]|e]; [|exact Hs].
  split; [exact Hs|]. exact (proj2 (proj2 (H fin s Hused eq_refl))).
Defined.

(** X16 on the fixture: the part "AB" shown twice at factor 1. *)
Lemma output_text_again_witness :
  match PDFTextBase.output_text (block [] 30 1000 "l") part_AB 1 with
  | Ok (str, s1) =>
      str = " /F1 10 Tf 0.100 g 0 Ts 0 Tw (AB)Tj"%string
      ∧ PDFTextBase.output_text s1 part_AB 1 = Ok (" (AB)Tj"%string, s1)
  | Raise _ => False
  end.
Proof.
  pose proof (fun str s1 =>
                EmitFacts.output_text_again (block [] 30 1000 "l") part_AB 1 str s1
                  eq_refl) as H.
  assert (match PDFTextBase.output_text (block [] 30 1000 "l") part_AB 1 with
          | Ok (str, s1) => str = " /F1 10 Tf 0.100 g 0 Ts 0 Tw (AB)Tj"%string
          | Raise _ => False
          end) as Hs by (vm_compute; reflexivity).
  destruct (PDFTextBase.output_text _ part_AB 1) as [[str s1]|e]; [|exact Hs].
  split; [exact Hs|exact (H str s1 eq_refl)].
Defined.

(** X17 on the fixture: the anchored line emitted to an empty block. *)
Lemma add_line_to_stream_anchors_witness :
  match PDFTextBase.add_line_to_stream (block [] 30 1000 "l") anchored_line false with
  | Ok s' =>
      ∃ boxes, PDFTextBase.ids s' !! "$label:a"%string = Some boxes ∧ boxes ≠ []
  | Raise _ => False
  end.
Proof.
  pose proof (EmitFacts.add_line_to_stream_anchors (block [] 30 1000 "l")
                anchored_line false) as H.
  assert (match PDFTextLine.line_parts anchored_line with
          | p :: _ => PDFTextLinePart.ids p = Some ["$label:a"%string]
          | [] => False
          end) as Hp by (vm_compute; reflexivity).
  assert (match PDFTextBase.add_line_to_stream (block [] 30 1000 "l")
                  anchored_line false with
          | Ok _ => True | Raise _ => False end) as Hs by (vm_compute; exact I).
  destruct (PDFTextBase.add_line_to_stream _ _ _) as [s'|e]; [|exact Hs].
  destruct (H s' eq_refl) as [_ H2].
  destruct (PDFTextLine.line_parts anchored_line) as [|p ps]; [destruct Hp|].
  apply (H2 p ["$label:a"%string] "$label:a"%string);
    [apply elem_of_cons; by left|exact Hp|apply list_elem_of_singleton; reflexivity].
Defined.

(** X18 on the fixture: the scope [{'.b': ['a', 'b'], 'label': 'x'}]. *)
Lemma scope_of_strings_witness :
  (st ← PDFText._recursive_content_parse None fonts (PDFText.mkParser [] [])
          (VDict [(".b", VList [VStr "a"; VStr "b"]); ("label", VStr "x")]%string)
          TEXT_DEFAULTS [];
   PDFText.parts_of st)
  = Ok [Dict (mkPart None (Some (TStr "ab"))
                (Some (Style.update (Style.update TEXT_DEFAULTS Style.empty)
                         Style.empty))
                (Some ["$label:x"%string]))].
Proof.
  apply (ScopeFacts.scope_of_strings None fonts "b" (VList [VStr "a"; VStr "b"])
           [("label", VStr "x")]%string "a" ["b"%string] TEXT_DEFAULTS []
           Style.empty Style.empty).
  - by left.
  - repeat constructor; try discriminate; no_newline.
  - reflexivity.
  - reflexivity.
  - exact I.
  - exact I.
  - exact I.
Defined.

(** X19 on the fixture: the content "hello". *)
Lemma new_of_strings_witness :
  PDFText.new None fonts (VStr "hello") None None 0 0 None None 0 None
    (Some 0%Q) LSNone
  = Ok (PDFTextBase.build
          [Dict (mkPart None (Some (TStr "hello"))
                   (Some (Style.update (Style.update TEXT_DEFAULTS Style.empty)
                            Style.empty))
                   (Some []))]
          None None 0 0 fonts None None 0 None (Some 0%Q) LSNone).
Proof.
  apply (ScopeFacts.new_of_strings None fonts (VStr "hello") "hello" []
           Style.empty Style.empty None None 0 0 None None 0 None (Some 0%Q) LSNone).
  - by right.
  - reflexivity.
  - reflexivity.
  - repeat constructor; try discriminate. no_newline.
Defined.

(** X22 on the fixture: the default document after a move by (10, 20). *)
Lemma default_text_style_region_witness :
  PDF.init page fonts [margin] "l" (11 # 10) = Ok pdf
  ∧ ∃ w h,
      PDF.default_text_style (PDF.move pdf 10 20) None None None None 0
      = Ok [("width", ANumber w); ("height", ANumber h);
            ("text_align", AString "l"); ("line_height", ANumber (11 # 10));
            ("indent", ANumber 0)]%string
      ∧ (w == PDF.width pdf - 10)%Q ∧ (h == PDF.height pdf - 20)%Q.
Proof.
  assert (PDF.init page fonts [margin] "l" (11 # 10) = Ok pdf) as Hinit
    by reflexivity.
  split; [exact Hinit|].
  exact (PageFacts.default_text_style_region page fonts [margin] "l" (11 # 10) pdf
           10 20 None None 0 Hinit).
Defined.

(** X23 on the fixture: the default document and the list content
    ["hello"]. *)
Lemma create_list_raises_TypeError_witness :
  PDF.init page fonts [margin] "l" (11 # 10) = Ok pdf
  ∧ PDF.create_list pdf (VStr "hello") None None None None 0 5 = Raise TypeError.
Proof.
  assert (PDF.init page fonts [margin] "l" (11 # 10) = Ok pdf) as Hinit
    by reflexivity.
  split; [exact Hinit|].
  exact (PageFacts.create_list_raises_TypeError page fonts [margin] "l" (11 # 10)
           pdf (VStr "hello") None None None None 0 5 Hinit).
Defined.

(** X14 on the fixture: "AAAA BBBB" at 30pt against a budget of 5; the
    call stops inside the only part, and its cursor is at the start of the
    next. *)
Lemma run_cursor_at_part_start_witness :
  match PDFTextBase.run (block [part10 (TStr "AAAA BBBB")] 30 5 "l") with
  | Ok (fin, s) =>
      (fin = false
       ∧ (PDFTextBase.last_part_index s, PDFTextBase.last_word_index s)
         = (1%nat, 0%nat))
      ∧ (PDFTextBase.last_word_index s = 0%nat
         ∨ (PDFTextBase.last_word_index s
            = PDFTextBase.last_word_index (block [part10 (TStr "AAAA BBBB")] 30 5 "l")
            ∧ PDFTextBase.last_part_index s
              = PDFTextBase.last_part_index
                  (block [part10 (TStr "AAAA BBBB")] 30 5 "l")))
  | Raise _ => False
  end.
Proof.
  pose proof (RunFacts.run_cursor_at_part_start
                (block [part10 (TStr "AAAA BBBB")] 30 5 "l")) as H.
  assert (match PDFTextBase.run (block [part10 (TStr "AAAA BBBB")] 30 5 "l") with
          | Ok (fin, s) =>
              fin = false
              ∧ (PDFTextBase.last_part_index s, PDFTextBase.last_word_index s)
                = (1%nat, 0%nat)
          | Raise _ => False
          end) as Hs by (vm_compute; split; reflexivity).
  destruct (PDFTextBase.run _) as [[fin s]|e]; [|exact Hs].
  split; [exact Hs|exact (H fin s eq_refl)].
Defined.

(** X15 on the fixture: "AA B CCCCC" at 30pt, in the default style at size
    10. *)
Lemma run_plain_text_no_graphics_witness :
  match PDFTextBase.run (block [part10 (TStr "AA B CCCCC")] 30 1000 "l") with
  | Ok (fin, s) => fin = true ∧ PDFTextBase.graphics s = ""%string
  | Raise _ => False
  end.
Proof.
  pose proof (RunFacts.run_plain_text_no_graphics
                (block [part10 (TStr "AA B CCCCC")] 30 1000 "l")) as H.
  assert (RunSpec.plain_content
            (PDFTextBase.content (block [part10 (TStr "AA B CCCCC")] 30 1000 "l")))
    as Hplain.
  { intros d Hin.
    change (Dict d ∈ [part10 (TStr "AA B CCCCC")]) in Hin.
    apply list_elem_of_singleton in Hin. injection Hin as ->.
    split; reflexivity. }
  assert (match PDFTextBase.run (block [part10 (TStr "AA B CCCCC")] 30 1000 "l") with
          | Ok (fin, s) => fin = true
          | Raise _ => False
          end) as Hs by (vm_compute; reflexivity).
  destruct (PDFTextBase.run _) as [[fin s]|e]; [|exact Hs].
  split; [exact Hs|exact (H fin s Hplain eq_refl)].
Defined.

(** X24 on the fixture: a list item "AA" with the marker "-" and no list
    indent. *)
Lemma run_without_list_indent_raises_witness :
  PDFTextBase.run
    (PDFTextBase.build [part10 (TStr "AA")] (Some 30%Q) (Some 1000%Q) 0 0 fonts
       (Some "l"%string) None 0 (Some "-"%string) None LSNone)
  = Raise TypeError.
Proof.
  apply EdgeFacts.run_without_list_indent_raises. reflexivity.
Defined.

(** X25 on the fixture: a block without content. *)
Lemma run_nothing_left_witness :
  ∃ s, PDFTextBase.run (block [] 30 1000 "l") = Ok (true, s)
    ∧ PDFTextBase.finished s = true
    ∧ PDFTextBase.lines s = [PDFTextBase.Current]
    ∧ PDFTextLine.line_parts (PDFTextBase.current_line s) = []
    ∧ (PDFTextBase.current_height s == 0)%Q
    ∧ PDFTextBase.graphics s = ""%string.
Proof.
  apply (EdgeFacts.run_nothing_left (block [] 30 1000 "l") 0).
  - simpl. lia.
  - reflexivity.
  - reflexivity.
  - vm_compute. discriminate.
Defined.

End MoreScenarios.
